(** * qliz: the timed question loop, scoring, selection and persistence

    A shallow embedding of the core of [qliz.py] (class [Qliz]):
    [select_random_questions], the per-question loop of [play_game],
    the high-score test of [show_game_over], [save_score],
    [load_scoreboard], [save_game_stats], [load_stats] and the
    [sorted(...)[:n]] ranking of the two leaderboard screens; then
    [load_quiz_config], [validate_name], [validate_email], [get_input],
    [get_consent], [register_player], [wrap_text], [center_text],
    [draw_timer_bar], [display_question] and [play_game] as a whole.

    Modelling conventions.
    - Python integers are [Z]; clock readings, durations and totals are
      exact rationals [Q] (rounding of binary floating point is not
      modelled; [==] on [Q] is the numeric comparison of Python).
    - The terminal is an oracle: the n-th call of [time.time()] and the
      n-th call of [stdscr.getch()] are given by a [World]; the program
      threads the number of calls made so far (a [Cursor]).
    - Exceptions are values of [exn]; a computation yields a [result].
    - Screen drawing draws and sleeps only, and the calls of curses are
      taken to succeed; what is kept of it is the evaluation of its
      arguments and the arithmetic it does, which can raise.
      [question_loop], [play_question] and [play_session] are the loop
      without the frame of line 492; [question_loop_drawn],
      [play_question_drawn] and [play_session_drawn] draw it.  The two
      agree on every run that completes, and on every run unless the
      time limit is 0 (lemmas [question_loop_drawn_done] and
      [question_loop_drawn_eq]); with a limit of 0 and a clock reading
      below the start time the timer bar divides by zero.
    - [random.sample] is the function of the standard library:
      [sample_pool] is its pool algorithm, [select_random_questions]
      the selection from a bank of at most 21 questions, where that
      algorithm is always the one used; [sample] and
      [select_random_questions_full] add the second algorithm, used
      for larger populations, which repeats a draw that comes up twice.
      The random source is the sequence of raw draws.
    - A Python [str] is a Rocq [string], one character per code point
      below 256; [re.match], [str.strip] and [str.split] are modelled by
      functions of this file. *)

From Stdlib Require Import QArith Qround Lqa Sorted Ascii.
From stdpp Require Import gmap strings list fin_maps.

Local Open Scope Z_scope.

(** ** Exceptions and results *)

Inductive exn : Set :=
  | ZeroDivisionError
  | IndexError
  | ValueError
  | JSONDecodeError
  | AttributeError
  | KeyError.

Inductive result (A : Type) : Type :=
  | Done (a : A)          (* normal completion *)
  | Raised (e : exn)      (* an exception propagates *)
  | OutOfFuel.            (* the loop bound of the model was reached *)

Arguments Done {A} a.
Arguments Raised {A} e.
Arguments OutOfFuel {A}.

(** ** Python primitives used by the core *)

(** [a % b] on integers: floor remainder, [ZeroDivisionError] for [b = 0]. *)
Definition py_mod (a b : Z) : result Z :=
  if b =? 0 then Raised ZeroDivisionError else Done (a mod b).

(** [l[i]] on a list: negative indices count from the end, [IndexError]
    outside [-len(l) <= i < len(l)]. *)
Definition py_index {A : Type} (l : list A) (i : Z) : result A :=
  let n := Z.of_nat (length l) in
  let j := if i <? 0 then i + n else i in
  if (j <? 0) || (n <=? j) then Raised IndexError
  else match l !! Z.to_nat j with
       | Some x => Done x
       | None => Raised IndexError
       end.

(** [len(l)] *)
Definition len {A : Type} (l : list A) : Z := Z.of_nat (length l).

(** ** Data model *)

(** An element of [self.all_questions] (keys [id], [question], [options],
    [correct], [explanation]). *)
Record Question : Type := {
  q_id : Z;
  q_question : string;
  q_options : list string;
  q_correct : Z;
  q_explanation : string
}.

(** [self.quiz_metadata]: every key may be absent ([.get(key, default)]). *)
Record Metadata : Type := {
  m_title : option string;
  m_description : option string;
  m_questions_per_game : option Z;
  m_time_per_question : option Q;
  m_scoreboard_file : option string;
  m_stats_file : option string
}.

Definition get_default {A : Type} (o : option A) (d : A) : A :=
  match o with Some x => x | None => d end.

(** The [question_detail] dictionary appended per question. *)
Record QuestionDetail : Type := {
  question_id : Z;
  question_text : string;
  d_options : list string;
  correct_answer : Z;
  player_answer : option Z;
  is_correct : bool;
  time_taken : Q;
  timed_out : bool
}.

(** ** Curses key codes *)

Definition KEY_DOWN : Z := 258.
Definition KEY_UP : Z := 259.
Definition NO_KEY : Z := -1.        (* getch() in nodelay mode, no input *)
Definition ord_newline : Z := 10.
Definition ord_space : Z := 32.
Definition ord_a : Z := 97.
Definition ord_A : Z := 65.
Definition ord_1 : Z := 49.

(** ** The body of the [try] block of the question loop *)

Record LoopState : Type := {
  selected_idx : Z;
  answered : bool;
  answer : option Z
}.

Definition set_selected (s : LoopState) (i : Z) : LoopState :=
  {| selected_idx := i; answered := answered s; answer := answer s |}.

Definition commit (s : LoopState) (i : Z) : LoopState :=
  {| selected_idx := selected_idx s; answered := true; answer := Some i |}.

(** [if len(question['options']) > n: answer = n; answered = True] *)
Definition select_if (q : Question) (s : LoopState) (n : Z) : LoopState :=
  if n <? len (q_options q) then commit s n else s.

Definition key_in (key : Z) (l : list Z) : bool :=
  existsb (Z.eqb key) l.

(** The [if/elif] chain on [key], lines 497-553. *)
Definition handle_key (q : Question) (key : Z) (s : LoopState) : result LoopState :=
  if key =? KEY_UP then
    match py_mod (selected_idx s - 1) (len (q_options q)) with
    | Done i => Done (set_selected s i)
    | Raised e => Raised e
    | OutOfFuel => OutOfFuel
    end
  else if key =? KEY_DOWN then
    match py_mod (selected_idx s + 1) (len (q_options q)) with
    | Done i => Done (set_selected s i)
    | Raised e => Raised e
    | OutOfFuel => OutOfFuel
    end
  else if (key =? ord_newline) || (key =? ord_space) then
    Done (commit s (selected_idx s))
  else if key_in key [ord_a; ord_A] then Done (select_if q s 0)
  else if key_in key [ord_a + 1; ord_A + 1] then Done (select_if q s 1)
  else if key_in key [ord_a + 2; ord_A + 2] then Done (select_if q s 2)
  else if key_in key [ord_a + 3; ord_A + 3] then Done (select_if q s 3)
  else if key_in key [ord_a + 4; ord_A + 4] then Done (select_if q s 4)
  else if key_in key [ord_a + 5; ord_A + 5] then Done (select_if q s 5)
  else if key_in key [ord_1] then Done (select_if q s 0)
  else if key_in key [ord_1 + 1] then Done (select_if q s 1)
  else if key_in key [ord_1 + 2] then Done (select_if q s 2)
  else if key_in key [ord_1 + 3] then Done (select_if q s 3)
  else if key_in key [ord_1 + 4] then Done (select_if q s 4)
  else if key_in key [ord_1 + 5] then Done (select_if q s 5)
  else Done s.

(** [try: ... except: pass]: an exception raised while the key is
    handled leaves the loop variables as they were. *)
Definition try_handle_key (q : Question) (key : Z) (s : LoopState) : LoopState :=
  match handle_key q key s with
  | Done s' => s'
  | _ => s
  end.

(** ** The terminal oracle and the monad of the session *)

Record World : Type := {
  time_time : nat -> Q;   (* the n-th reading of time.time() *)
  getch : nat -> Z        (* the n-th result of stdscr.getch() *)
}.

Record Cursor : Type := {
  n_time : nat;
  n_key : nat
}.

Definition M (A : Type) : Type := World -> Cursor -> result A * Cursor.

Definition ret {A : Type} (a : A) : M A := fun _ c => (Done a, c).

Definition raise {A : Type} (e : exn) : M A := fun _ c => (Raised e, c).

Definition diverge {A : Type} : M A := fun _ c => (OutOfFuel, c).

Definition bind {A B : Type} (m : M A) (k : A -> M B) : M B :=
  fun w c =>
    match m w c with
    | (Done a, c') => k a w c'
    | (Raised e, c') => (Raised e, c')
    | (OutOfFuel, c') => (OutOfFuel, c')
    end.

Notation "'let*' x := m 'in' k" := (bind m (fun x => k))
  (at level 10, x name, m at level 100, k at level 200).

Definition lift {A : Type} (r : result A) : M A := fun _ c => (r, c).

(** [time.time()] *)
Definition now : M Q :=
  fun w c => (Done (time_time w (n_time c)),
              {| n_time := S (n_time c); n_key := n_key c |}).

(** [self.stdscr.getch()] *)
Definition read_key : M Z :=
  fun w c => (Done (getch w (n_key c)),
              {| n_time := n_time c; n_key := S (n_key c) |}).

(** ** The timed question loop, lines 485-557 *)

Definition init_state : LoopState :=
  {| selected_idx := 0; answered := false; answer := None |}.

Fixpoint question_loop (fuel : nat) (q : Question) (time_per_question start_time : Q)
    (s : LoopState) : M LoopState :=
  if answered s then ret s
  else match fuel with
       | O => diverge
       | S fuel' =>
           let* t := now in
           let elapsed := (t - start_time)%Q in
           if Qle_bool time_per_question elapsed then ret s   (* break *)
           else
             let* key := read_key in
             question_loop fuel' q time_per_question start_time
                           (try_handle_key q key s)
       end.

(** ** One iteration of the [for] loop, lines 478-589 *)

Record Session : Type := {
  total_time : Q;
  correct_answers : Z;
  question_details : list QuestionDetail
}.

Definition make_detail (q : Question) (ans : option Z) (ok : bool) (taken : Q)
    : QuestionDetail :=
  {| question_id := q_id q;
     question_text := q_question q;
     d_options := q_options q;
     correct_answer := q_correct q;
     player_answer := ans;
     is_correct := ok;
     time_taken := taken;
     timed_out := match ans with None => true | Some _ => false end |}.

(** Lines 563-589: the accumulators after a question whose loop ended
    with [answer = ans], [taken] seconds after [start_time]. *)
Definition record_answer (time_per_question : Q) (q : Question) (acc : Session)
    (ans : option Z) (taken : Q) : Session :=
  match ans with
  | None =>                                   (* timeout *)
      {| total_time := (total_time acc + time_per_question)%Q;
         correct_answers := correct_answers acc;
         question_details :=
           question_details acc ++ [make_detail q None false taken] |}
  | Some a =>
      if a =? q_correct q then
        {| total_time := (total_time acc + taken)%Q;
           correct_answers := correct_answers acc + 1;
           question_details :=
             question_details acc ++ [make_detail q (Some a) true taken] |}
      else
        {| total_time := (total_time acc + taken)%Q;
           correct_answers := correct_answers acc;
           question_details :=
             question_details acc ++ [make_detail q (Some a) false taken] |}
  end.

Definition play_question (fuel : nat) (time_per_question : Q) (q : Question)
    (acc : Session) : M Session :=
  let* start_time := now in
  let* s := question_loop fuel q time_per_question start_time init_state in
  let* t_end := now in
  let taken := (t_end - start_time)%Q in
  (* every branch evaluates question['options'][question['correct']] *)
  let* correct_text := lift (py_index (q_options q) (q_correct q)) in
  ret (record_answer time_per_question q acc (answer s) taken).

(** The [for] loop over [self.questions], lines 474-589. *)
Fixpoint play_questions (fuel : nat) (time_per_question : Q) (qs : list Question)
    (acc : Session) : M Session :=
  match qs with
  | [] => ret acc
  | q :: qs' =>
      let* acc' := play_question fuel time_per_question q acc in
      play_questions fuel time_per_question qs' acc'
  end.

Definition new_session : Session :=
  {| total_time := 0%Q; correct_answers := 0; question_details := [] |}.

(** The player object ([class Player]) that [play_game] updates. *)
Record Player : Type := {
  p_name : string;
  p_email : string;
  p_marketing_consent : bool;
  p_score : Z;
  p_total_time : Q;
  p_timestamp : string;
  p_question_details : list QuestionDetail
}.

(** Lines 474-592: the accumulators start at zero, the details are
    appended to [player.question_details], and the two totals are stored
    in the player when the loop is over. *)
Definition play_session (fuel : nat) (meta : Metadata) (questions : list Question)
    (player : Player) : M Player :=
  let time_per_question := get_default (m_time_per_question meta) 30%Q in
  let* acc := play_questions fuel time_per_question questions
                {| total_time := 0%Q; correct_answers := 0;
                   question_details := p_question_details player |} in
  ret {| p_name := p_name player;
         p_email := p_email player;
         p_marketing_consent := p_marketing_consent player;
         p_score := correct_answers acc;
         p_total_time := total_time acc;
         p_timestamp := p_timestamp player;
         p_question_details := question_details acc |}.

(** ** Question selection *)

(** [random.sample(population, k)] of the standard library, by its pool
    algorithm: draw [j = randbelow(m)] among the [m] elements still in
    the pool, take [pool[j]], and move the last pool element into slot
    [j].  The random source is the sequence [rnd] of raw draws; the
    [i]-th call of [randbelow(m)] is [rnd i mod m].  (For a population
    of more than [setsize] elements the library records the chosen
    positions in a set instead: [sample_set] below.) *)
Fixpoint sample_pool {A : Type} (rnd : nat -> nat) (i : nat) (pool : list A)
    (m k : nat) : list A :=
  match k with
  | O => []
  | S k' =>
      let j := (rnd i mod m)%nat in
      match pool !! j, pool !! (m - 1)%nat with
      | Some x, Some y => x :: sample_pool rnd (S i) (<[j := y]> pool) (m - 1)%nat k'
      | _, _ => []
      end
  end.

(** [random.sample] where the pool algorithm is the one used;
    [ValueError] when [k] is negative or larger than the population. *)
Definition random_sample {A : Type} (rnd : nat -> nat) (population : list A) (k : Z)
    : result (list A) :=
  if (k <? 0) || (len population <? k) then Raised ValueError
  else Done (sample_pool rnd 0 population (length population) (Z.to_nat k)).

(** The value assigned to [self.questions], for a bank of at most 21
    questions ([select_random_questions_full] below is the function for
    a bank of any size). *)
Definition select_random_questions (meta : Metadata) (rnd : nat -> nat)
    (all_questions : list Question) : result (list Question) :=
  let questions_per_game := get_default (m_questions_per_game meta) 5 in
  if len all_questions <=? questions_per_game then Done all_questions
  else random_sample rnd all_questions questions_per_game.

(** ** Persisted documents *)

(** The [player_data] dictionary of [save_score]. *)
Record ScoreEntry : Type := {
  e_name : string;
  e_email : string;
  e_marketing_consent : bool;
  e_score : Z;
  e_total_time : Q;
  e_timestamp : string
}.

(** The [game_stats] dictionary of [save_game_stats]. *)
Record GameStats : Type := {
  g_player_name : string;
  g_player_email : string;
  g_timestamp : string;
  g_final_score : Z;
  g_total_time : Q;
  g_total_questions : Z;
  g_questions : list QuestionDetail
}.

(** An element of a stored array: one of the two dictionaries the
    program writes.  A [RStats] row has no key ['score']. *)
Inductive row : Type :=
  | RScore (e : ScoreEntry)
  | RStats (g : GameStats).

(** A stored object: the scoreboard with its header; a key may be absent. *)
Record Scoreboard : Type := {
  quiz_title : option string;
  quiz_description : option string;
  last_updated : option string;
  scores : option (list row)
}.

(** What [json.load] returns: a list or a dict (a document that is a
    bare number, string or null is not modelled). *)
Inductive json : Type :=
  | JList (l : list row)
  | JDict (d : Scoreboard).

(** A file that exists: either text that [json.load] rejects, or a document. *)
Inductive file : Type :=
  | Corrupt
  | Json (j : json).

(** The file system: path to content; an absent path is a missing file. *)
Abbreviation FS := (gmap string file).

(** [load_scoreboard], lines 680-690. *)
Definition load_scoreboard (fs : FS) (scoreboard_file : string) : result Scoreboard :=
  match fs !! scoreboard_file with
  | None =>                                   (* FileNotFoundError *)
      Done {| quiz_title := None; quiz_description := None;
              last_updated := None; scores := Some [] |}
  | Some Corrupt => Raised JSONDecodeError    (* not caught *)
  | Some (Json (JList data)) =>
      Done {| quiz_title := None; quiz_description := None;
              last_updated := None; scores := Some data |}
  | Some (Json (JDict data)) => Done data
  end.

(** [scoreboard_data.get('scores', [])] *)
Definition get_scores (scoreboard_data : Scoreboard) : list row :=
  get_default (scores scoreboard_data) [].

(** [load_stats], lines 711-717. *)
Definition load_stats (fs : FS) (stats_file : string) : result json :=
  match fs !! stats_file with
  | None => Done (JList [])                   (* FileNotFoundError *)
  | Some Corrupt => Raised JSONDecodeError    (* not caught *)
  | Some (Json data) => Done data
  end.

Definition scoreboard_path (meta : Metadata) : string :=
  get_default (m_scoreboard_file meta) "scoreboard.json"%string.

Definition stats_path (meta : Metadata) : string :=
  get_default (m_stats_file meta) "stats.json"%string.

Definition player_data (player : Player) : ScoreEntry :=
  {| e_name := p_name player;
     e_email := p_email player;
     e_marketing_consent := p_marketing_consent player;
     e_score := p_score player;
     e_total_time := p_total_time player;
     e_timestamp := p_timestamp player |}.

(** [save_score], lines 651-678; [now_iso] is [datetime.now().isoformat()]. *)
Definition save_score (meta : Metadata) (now_iso : string) (player : Player) (fs : FS)
    : result FS :=
  match load_scoreboard fs (scoreboard_path meta) with
  | Done scoreboard_data =>
      let scores0 := get_scores scoreboard_data in
      let scoreboard :=
        {| quiz_title := Some (get_default (m_title meta) "Quiz"%string);
           quiz_description := Some (get_default (m_description meta) ""%string);
           last_updated := Some now_iso;
           scores := Some (scores0 ++ [RScore (player_data player)]) |} in
      Done (<[scoreboard_path meta := Json (JDict scoreboard)]> fs)
  | Raised e => Raised e
  | OutOfFuel => OutOfFuel
  end.

Definition game_stats (player : Player) (questions : list Question) : GameStats :=
  {| g_player_name := p_name player;
     g_player_email := p_email player;
     g_timestamp := p_timestamp player;
     g_final_score := p_score player;
     g_total_time := p_total_time player;
     g_total_questions := len questions;
     g_questions := p_question_details player |}.

(** [save_game_stats], lines 692-709: [append] exists on lists only. *)
Definition save_game_stats (meta : Metadata) (questions : list Question)
    (player : Player) (fs : FS) : result FS :=
  match load_stats fs (stats_path meta) with
  | Done (JList stats_data) =>
      Done (<[stats_path meta :=
                Json (JList (stats_data ++ [RStats (game_stats player questions)]))]> fs)
  | Done (JDict _) => Raised AttributeError
  | Raised e => Raised e
  | OutOfFuel => OutOfFuel
  end.

(** ** Ranking *)

Definition Qlt_bool (a b : Q) : bool := negb (Qle_bool b a).

(** Tuple comparison [k1 < k2]: the first components decide unless equal. *)
Definition key_lt (k1 k2 : Z * Q) : bool :=
  if negb (fst k1 =? fst k2) then fst k1 <? fst k2
  else Qlt_bool (snd k1) (snd k2).

(** The sort key [(-x['score'], x['total_time'])] of a score entry. *)
Definition entry_key (e : ScoreEntry) : Z * Q := (- e_score e, e_total_time e).

(** Stable insertion: [x] goes before the first element whose key is not
    smaller than its own. *)
Fixpoint insert_by_key (x : ScoreEntry) (l : list ScoreEntry) : list ScoreEntry :=
  match l with
  | [] => [x]
  | y :: l' =>
      if key_lt (entry_key y) (entry_key x) then y :: insert_by_key x l'
      else x :: y :: l'
  end.

Definition sort_entries (l : list ScoreEntry) : list ScoreEntry :=
  foldr insert_by_key [] l.

(** The keys are computed for every element before any comparison;
    [x['score']] is a [KeyError] on a row without that key. *)
Fixpoint entries_of (l : list row) : result (list ScoreEntry) :=
  match l with
  | [] => Done []
  | RScore e :: l' =>
      match entries_of l' with
      | Done es => Done (e :: es)
      | r => r
      end
  | RStats _ :: _ => Raised KeyError
  end.

(** [sorted(scores, key=lambda x: (-x['score'], x['total_time']))]:
    Python's [sorted] is a stable ascending sort on the keys. *)
Definition sorted_scores (scores0 : list row) : result (list ScoreEntry) :=
  match entries_of scores0 with
  | Done es => Done (sort_entries es)
  | r => r
  end.

(** [sorted(...)[:limit]] *)
Definition top_scores (limit : nat) (scores0 : list row) : result (list ScoreEntry) :=
  match sorted_scores scores0 with
  | Done l => Done (take limit l)
  | r => r
  end.

(** Line 806, [display_scoreboard]. *)
Definition display_scoreboard_rows (scores0 : list row) : result (list ScoreEntry) :=
  top_scores 10 scores0.

(** Line 743, [display_top5_with_emails]. *)
Definition display_top5_rows (scores0 : list row) : result (list ScoreEntry) :=
  top_scores 5 scores0.

(** ** The high-score test of [show_game_over], lines 626-641 *)

Definition is_high_score (player : Player) (scores0 : list row) : result bool :=
  match scores0 with
  | [] => Done true
  | _ =>
      match sorted_scores scores0 with
      | Done sorted =>
          match sorted with
          | best_score :: _ =>
              if e_score best_score <? p_score player then Done true
              else if (p_score player =? e_score best_score)
                      && Qlt_bool (p_total_time player) (e_total_time best_score)
                   then Done true
                   else Done false
          | [] => Raised IndexError
          end
      | Raised e => Raised e
      | OutOfFuel => OutOfFuel
      end
  end.

Definition show_game_over (meta : Metadata) (player : Player) (fs : FS) : result bool :=
  match load_scoreboard fs (scoreboard_path meta) with
  | Done scoreboard_data => is_high_score player (get_scores scoreboard_data)
  | Raised e => Raised e
  | OutOfFuel => OutOfFuel
  end.

(** Lines 594-596: the game-over screen, then the two stores.  The
    result carries the file system as it is left, also when a call raises. *)
Definition record_session (meta : Metadata) (now_iso : string)
    (questions : list Question) (player : Player) (fs : FS) : result bool * FS :=
  match show_game_over meta player fs with
  | Done hs =>
      match save_score meta now_iso player fs with
      | Done fs1 =>
          match save_game_stats meta questions player fs1 with
          | Done fs2 => (Done hs, fs2)
          | Raised e => (Raised e, fs1)
          | OutOfFuel => (OutOfFuel, fs1)
          end
      | Raised e => (Raised e, fs)
      | OutOfFuel => (OutOfFuel, fs)
      end
  | Raised e => (Raised e, fs)
  | OutOfFuel => (OutOfFuel, fs)
  end.

(** ** Sums over the recorded outcomes *)

(** [sum(d['time_taken'] for d in details)]: left to right, from 0. *)
Definition sum_time_taken (details : list QuestionDetail) : Q :=
  fold_left Qplus (map time_taken details) 0%Q.

(** What a question adds to [total_time]: the limit when it timed out,
    the measured time otherwise. *)
Definition charged (time_per_question : Q) (d : QuestionDetail) : Q :=
  if timed_out d then time_per_question else time_taken d.

Definition sum_charged (time_per_question : Q) (details : list QuestionDetail) : Q :=
  fold_left Qplus (map (charged time_per_question) details) 0%Q.

Definition count_correct (details : list QuestionDetail) : Z :=
  len (List.filter is_correct details).

(** The document [save_score] writes when the scores read were [old]. *)
Definition written_scoreboard (meta : Metadata) (now_iso : string) (player : Player)
    (old : list row) : file :=
  Json (JDict
    {| quiz_title := Some (get_default (m_title meta) "Quiz"%string);
       quiz_description := Some (get_default (m_description meta) ""%string);
       last_updated := Some now_iso;
       scores := Some (old ++ [RScore (player_data player)]) |}).

(** ** Vocabulary of the statements *)

(** The loop variables agree: [answered] holds exactly when [answer] is set. *)
Definition state_ok (s : LoopState) : Prop :=
  match answer s with
  | Some _ => answered s = true
  | None => answered s = false
  end.

(** The deadline test of line 488 at the clock reading number [n]. *)
Definition reached (w : World) (time_per_question start_time : Q) (n : nat) : Prop :=
  Qle_bool time_per_question (time_time w n - start_time) = true.

(** The correct index of [q] is a valid index into its options. *)
Definition valid_question (q : Question) : Prop :=
  exists txt, py_index (q_options q) (q_correct q) = Done txt.

(** From every reading on, the clock gains [tpq] within [fuel] readings. *)
Definition clock_advances (w : World) (tpq : Q) (fuel : nat) : Prop :=
  forall i, exists k, (k < fuel)%nat /\ reached w tpq (time_time w i) (S i + k).

(** ** Concrete inputs used below *)

Definition q_two : Question :=
  {| q_id := 1; q_question := "2 + 2 ="; q_options := ["3"; "4"]%string;
     q_correct := 1; q_explanation := "" |}.

Definition q_one : Question :=
  {| q_id := 2; q_question := "yes?"; q_options := ["yes"]%string;
     q_correct := 0; q_explanation := "" |}.

Definition q_none : Question :=
  {| q_id := 3; q_question := "?"; q_options := [];
     q_correct := 0; q_explanation := "" |}.

Definition q_three : Question :=
  {| q_id := 4; q_question := "1 + 1 ="; q_options := ["1"; "2"; "3"]%string;
     q_correct := 1; q_explanation := "" |}.

Definition bank3 : list Question := [q_two; q_one; q_three].

(** A scoreboard entry with the given score and total time. *)
Definition entry (name : string) (score : Z) (time : Q) : ScoreEntry :=
  {| e_name := name; e_email := ""; e_marketing_consent := false;
     e_score := score; e_total_time := time; e_timestamp := "" |}.

(** A scoreboard file that is not JSON; no stats file. *)
Definition fs_corrupt : FS := {[ "scoreboard.json"%string := Corrupt ]}.

(** A scoreboard in the old format, and the same entries under a header. *)
Definition fs_legacy : FS :=
  {[ "scoreboard.json"%string := Json (JList [RScore (entry "bob" 2 41)]) ]}.

Definition board_bob : Scoreboard :=
  {| quiz_title := Some "Demo"%string; quiz_description := Some ""%string;
     last_updated := Some "2024-01-01T00:00:00"%string;
     scores := Some [RScore (entry "bob" 2 41)] |}.

Definition fs_wrapped : FS :=
  {[ "scoreboard.json"%string := Json (JDict board_bob) ]}.

(** ** The order of the leaderboard *)

(** [a] ranks no later than [b]: a higher score, or the same score and
    no more time. *)
Definition rank_le (a b : ScoreEntry) : Prop :=
  e_score b < e_score a \/
  (e_score a = e_score b /\ (e_total_time a <= e_total_time b)%Q).

Definition rank_lt (a b : ScoreEntry) : Prop :=
  e_score b < e_score a \/
  (e_score a = e_score b /\ (e_total_time a < e_total_time b)%Q).

(** Same score and same total time. *)
Definition same_key (a b : ScoreEntry) : bool :=
  (e_score a =? e_score b) && Qeq_bool (e_total_time a) (e_total_time b).

(** [best] is an entry of [es] that no entry of [es] outranks. *)
Definition is_best (best : ScoreEntry) (es : list ScoreEntry) : Prop :=
  best ∈ es /\ forall e, e ∈ es -> rank_le best e.

Definition cursor0 : Cursor := {| n_time := 0; n_key := 0 |}.

(** A clock that advances 16 seconds between readings; no key is pressed. *)
Definition idle_world : World :=
  {| time_time := fun n => inject_Z (16 * Z.of_nat n);
     getch := fun _ => NO_KEY |}.

(** A clock that advances one second between readings; the player
    presses [DOWN] at the first poll and [ENTER] at the second. *)
Definition typing_world : World :=
  {| time_time := fun n => inject_Z (Z.of_nat n);
     getch := fun n => match n with
                       | O => KEY_DOWN
                       | 1%nat => ord_newline
                       | _ => NO_KEY
                       end |}.

Definition meta30 : Metadata :=
  {| m_title := Some "Demo"%string; m_description := None;
     m_questions_per_game := Some 2; m_time_per_question := Some 30%Q;
     m_scoreboard_file := None; m_stats_file := None |}.

Definition alice : Player :=
  {| p_name := "alice"; p_email := "alice@example.org";
     p_marketing_consent := false; p_score := 0; p_total_time := 0%Q;
     p_timestamp := "2024-01-01T00:00:00"; p_question_details := [] |}.

(** ** Further vocabulary: keys of the question loop *)

(** The key codes tested by the [if/elif] chain of lines 497-553. *)
Definition recognised_keys : list Z :=
  [KEY_UP; KEY_DOWN; ord_newline; ord_space;
   ord_a; ord_a + 1; ord_a + 2; ord_a + 3; ord_a + 4; ord_a + 5;
   ord_A; ord_A + 1; ord_A + 2; ord_A + 3; ord_A + 4; ord_A + 5;
   ord_1; ord_1 + 1; ord_1 + 2; ord_1 + 3; ord_1 + 4; ord_1 + 5].

(** A key that ends the question: ENTER, the space bar, or a letter or
    digit whose index is below the option count of [q]. *)
Definition is_commit_key (q : Question) (key : Z) : bool :=
  (key =? ord_newline) || (key =? ord_space) ||
  existsb (fun n => (n <? len (q_options q)) &&
                    ((key =? ord_a + n) || (key =? ord_A + n) || (key =? ord_1 + n)))
          [0; 1; 2; 3; 4; 5].

(** The highlighted index and the committed answer are option indices. *)
Definition in_range (q : Question) (s : LoopState) : Prop :=
  0 <= selected_idx s < len (q_options q) /\
  forall a, answer s = Some a -> 0 <= a < len (q_options q).

(** A clock that advances 16 seconds between readings while the player
    keeps pressing [DOWN]. *)
Definition fidget_world : World :=
  {| time_time := fun n => inject_Z (16 * Z.of_nat n);
     getch := fun _ => KEY_DOWN |}.

(** A clock that advances one second between readings; the player
    presses [ENTER] at once. *)
Definition hasty_world : World :=
  {| time_time := fun n => inject_Z (Z.of_nat n);
     getch := fun _ => ord_newline |}.

(** [d] is the detail recorded for question [q]: it carries the
    question's id, text, options and correct index, is flagged timed out
    exactly when it has no answer, and is correct exactly when its answer
    is the correct index. *)
Definition detail_for (q : Question) (d : QuestionDetail) : Prop :=
  question_id d = q_id q /\
  question_text d = q_question q /\
  d_options d = q_options q /\
  correct_answer d = q_correct q /\
  timed_out d = match player_answer d with Some _ => false | None => true end /\
  is_correct d = match player_answer d with
                 | Some a => a =? q_correct q
                 | None => false
                 end.

(** ** Further concrete inputs: stores *)

(** A stats file that is not JSON; no scoreboard file. *)
Definition fs_stats_corrupt : FS := {[ "stats.json"%string := Corrupt ]}.

(** A configuration that names one file for both stores. *)
Definition meta_same_file : Metadata :=
  {| m_title := None; m_description := None; m_questions_per_game := None;
     m_time_per_question := None;
     m_scoreboard_file := Some "data.json"%string;
     m_stats_file := Some "data.json"%string |}.

(** The document [save_game_stats] writes when the records read were [old]. *)
Definition written_stats (questions : list Question) (player : Player)
    (old : list row) : file :=
  Json (JList (old ++ [RStats (game_stats player questions)])).

(** ** Loading the configuration, [load_quiz_config], lines 47-77 *)

(** An element of the ["questions"] list of the configuration file; a
    key may be absent. *)
Record QuestionData : Type := {
  qd_id : option Z;
  qd_question : option string;
  qd_options : option (list string);
  qd_correct_answer : option Z;
  qd_explanation : option string
}.

(** The configuration document: its two top-level keys may be absent. *)
Record Config : Type := {
  cfg_quiz_metadata : option Metadata;
  cfg_questions : option (list QuestionData)
}.

(** The configuration file as [json.load] finds it ([main] has checked
    that the file exists). *)
Inductive config_file : Type :=
  | ConfigCorrupt
  | ConfigJson (config : Config).

(** [{}]: a metadata dictionary without any key. *)
Definition empty_metadata : Metadata :=
  {| m_title := None; m_description := None; m_questions_per_game := None;
     m_time_per_question := None; m_scoreboard_file := None;
     m_stats_file := None |}.

(** The dictionary built at lines 64-70: [q['question']], [q['options']]
    and [q['correct_answer']] raise [KeyError] when absent. *)
Definition load_question (q : QuestionData) : result Question :=
  match qd_question q, qd_options q, qd_correct_answer q with
  | Some text, Some opts, Some correct =>
      Done {| q_id := get_default (qd_id q) 0;
              q_question := text;
              q_options := opts;
              q_correct := correct;
              q_explanation := get_default (qd_explanation q) ""%string |}
  | _, _, _ => Raised KeyError
  end.

(** The loop of lines 63-70. *)
Fixpoint load_questions (questions_data : list QuestionData) : result (list Question) :=
  match questions_data with
  | [] => Done []
  | q :: rest =>
      match load_question q with
      | Done question =>
          match load_questions rest with
          | Done l => Done (question :: l)
          | r => r
          end
      | Raised e => Raised e
      | OutOfFuel => OutOfFuel
      end
  end.

(** [load_quiz_config]: the metadata and [self.all_questions]; the
    [except] clause shows the error and raises it again. *)
Definition load_quiz_config (f : config_file) : result (Metadata * list Question) :=
  match f with
  | ConfigCorrupt => Raised JSONDecodeError
  | ConfigJson config =>
      let quiz_metadata := get_default (cfg_quiz_metadata config) empty_metadata in
      let questions_data := get_default (cfg_questions config) [] in
      match load_questions questions_data with
      | Done [] => Raised ValueError
      | Done all_questions => Done (quiz_metadata, all_questions)
      | Raised e => Raised e
      | OutOfFuel => OutOfFuel
      end
  end.

(** [qd] has the three keys that are read without a default. *)
Definition has_required_keys (qd : QuestionData) : Prop :=
  is_Some (qd_question qd) /\ is_Some (qd_options qd) /\
  is_Some (qd_correct_answer qd).

(** [q] is [qd] with the defaults filled in. *)
Definition loaded_from (qd : QuestionData) (q : Question) : Prop :=
  q_id q = get_default (qd_id qd) 0 /\
  qd_question qd = Some (q_question q) /\
  qd_options qd = Some (q_options q) /\
  qd_correct_answer qd = Some (q_correct q) /\
  q_explanation q = get_default (qd_explanation qd) ""%string.

(** A configuration whose only question names a correct answer that is
    not an index of its two options. *)
Definition config_bad_index : Config :=
  {| cfg_quiz_metadata := None;
     cfg_questions :=
       Some [ {| qd_id := None; qd_question := Some "?"%string;
                 qd_options := Some ["a"; "b"]%string;
                 qd_correct_answer := Some 7; qd_explanation := None |} ] |}.

(** A configuration whose only question has no option; it loads as
    [q_none]. *)
Definition config_no_options : Config :=
  {| cfg_quiz_metadata := None;
     cfg_questions :=
       Some [ {| qd_id := Some 3; qd_question := Some "?"%string;
                 qd_options := Some [];
                 qd_correct_answer := Some 0; qd_explanation := None |} ] |}.

(** The question loaded from [config_bad_index]. *)
Definition q_bad_index : Question :=
  {| q_id := 0; q_question := "?"; q_options := ["a"; "b"]%string;
     q_correct := 7; q_explanation := "" |}.

(** A question whose correct answer is the last option, written as -1. *)
Definition q_negative : Question :=
  {| q_id := 5; q_question := "?"; q_options := ["a"; "b"]%string;
     q_correct := -1; q_explanation := "" |}.

(** ** Text: characters and whitespace *)

(** A Python [str] is a Rocq [string], one [ascii] per character (code
    points below 256). *)
Definition chars (s : string) : list ascii := String.list_ascii_of_string s.

Definition code (c : ascii) : N := N_of_ascii c.

Definition in_span (lo hi : N) (c : ascii) : bool :=
  ((lo <=? code c) && (code c <=? hi))%N.

Definition is_lower (c : ascii) : bool := in_span 97 122 c.   (* a-z *)
Definition is_upper (c : ascii) : bool := in_span 65 90 c.    (* A-Z *)
Definition is_digit (c : ascii) : bool := in_span 48 57 c.    (* 0-9 *)
Definition is_letter (c : ascii) : bool := is_lower c || is_upper c.
Definition is_alnum (c : ascii) : bool := is_letter c || is_digit c.

Definition one_of (l : list ascii) (c : ascii) : bool := existsb (Ascii.eqb c) l.

(** [str.isspace] on one character: tab to carriage return, the four
    separators 28-31, the space, NEL and the no-break space. *)
Definition is_space (c : ascii) : bool :=
  in_span 9 13 c || in_span 28 32 c || (code c =? 133)%N || (code c =? 160)%N.

(** [str.lstrip()] on the characters. *)
Fixpoint lstrip (l : list ascii) : list ascii :=
  match l with
  | [] => []
  | c :: l' => if is_space c then lstrip l' else l
  end.

(** [str.strip()] *)
Definition py_strip (s : string) : string :=
  String.string_of_list_ascii (rev (lstrip (rev (lstrip (chars s))))).

(** ** Regular expressions, as far as [validate_email] uses them *)

Inductive regex : Type :=
  | RNone                       (* matches nothing *)
  | REps                        (* the empty string *)
  | RChar (p : ascii -> bool)   (* one character of a class *)
  | RSeq (r1 r2 : regex)
  | RAlt (r1 r2 : regex)
  | RStar (r : regex).

(** [r+] *)
Definition RPlus (r : regex) : regex := RSeq r (RStar r).

Fixpoint nullable (r : regex) : bool :=
  match r with
  | RNone => false
  | REps => true
  | RChar _ => false
  | RSeq r1 r2 => nullable r1 && nullable r2
  | RAlt r1 r2 => nullable r1 || nullable r2
  | RStar _ => true
  end.

(** The expression matching what [r] matches after a leading [c]. *)
Fixpoint deriv (c : ascii) (r : regex) : regex :=
  match r with
  | RNone => RNone
  | REps => RNone
  | RChar p => if p c then REps else RNone
  | RSeq r1 r2 =>
      if nullable r1 then RAlt (RSeq (deriv c r1) r2) (deriv c r2)
      else RSeq (deriv c r1) r2
  | RAlt r1 r2 => RAlt (deriv c r1) (deriv c r2)
  | RStar r1 => RSeq (deriv c r1) (RStar r1)
  end.

(** Does [r] match the whole of [s]? *)
Fixpoint re_fullmatch (r : regex) (s : list ascii) : bool :=
  match s with
  | [] => nullable r
  | c :: s' => re_fullmatch (deriv c r) s'
  end.

(** [re.match('^' + body + '$', s)]: without [re.MULTILINE], [$] holds
    at the end of the string and just before a newline that ends it. *)
Definition re_match_anchored (body : regex) (s : list ascii) : bool :=
  re_fullmatch body s ||
  match rev s with
  | c :: before => Ascii.eqb c "010" && re_fullmatch body (rev before)
  | [] => false
  end.

(** The strings a regular expression denotes. *)
Inductive in_lang : regex -> list ascii -> Prop :=
  | in_eps : in_lang REps []
  | in_char p c : p c = true -> in_lang (RChar p) [c]
  | in_seq r1 r2 s1 s2 :
      in_lang r1 s1 -> in_lang r2 s2 -> in_lang (RSeq r1 r2) (s1 ++ s2)
  | in_alt_l r1 r2 s : in_lang r1 s -> in_lang (RAlt r1 r2) s
  | in_alt_r r1 r2 s : in_lang r2 s -> in_lang (RAlt r1 r2) s
  | in_star_nil r : in_lang (RStar r) []
  | in_star_app r s1 s2 :
      in_lang r s1 -> in_lang (RStar r) s2 -> in_lang (RStar r) (s1 ++ s2).

(** ** [validate_email] and [validate_name], lines 222-235 *)

(** [[a-zA-Z0-9._%+-]] *)
Definition local_char (c : ascii) : bool :=
  is_alnum c || one_of ["."; "_"; "%"; "+"; "-"]%char c.

(** [[a-zA-Z0-9.-]] *)
Definition domain_char (c : ascii) : bool :=
  is_alnum c || one_of ["."; "-"]%char c.

(** [[a-zA-Z0-9._%+-]+@[a-zA-Z0-9.-]+\.[a-zA-Z]{2,}] *)
Definition email_pattern : regex :=
  RSeq (RPlus (RChar local_char))
    (RSeq (RChar (Ascii.eqb "@"))
       (RSeq (RPlus (RChar domain_char))
          (RSeq (RChar (Ascii.eqb "."))
             (RSeq (RChar is_letter)
                (RSeq (RChar is_letter) (RStar (RChar is_letter))))))).

Definition validate_email (email : string) : bool * string :=
  if String.eqb email "" then (false, "Email cannot be empty"%string)
  else if re_match_anchored email_pattern (chars email) then (true, ""%string)
  else (false, "Invalid email format"%string).

Definition validate_name (name : string) : bool * string :=
  if (2 <=? String.length name)%nat then (true, ""%string)
  else (false, "Name must be at least 2 characters"%string).

(** [local@domain.tld]: a non-empty local part, a non-empty domain and
    a final label of at least two letters. *)
Definition email_shape (s : list ascii) : Prop :=
  exists loc dom tld,
    s = loc ++ "@"%char :: dom ++ "."%char :: tld /\
    loc <> [] /\ Forall (fun c => local_char c = true) loc /\
    dom <> [] /\ Forall (fun c => domain_char c = true) dom /\
    (2 <= length tld)%nat /\ Forall (fun c => is_letter c = true) tld.

(** ** Registration: [get_input], [get_consent], [register_player] *)

Definition KEY_LEFT : Z := 260.
Definition KEY_RIGHT : Z := 261.
Definition ord_n : Z := 110.
Definition ord_N : Z := 78.
Definition ord_y : Z := 121.
Definition ord_Y : Z := 89.

(** The [i]-th value of [user_input]: the line read by [getstr],
    decoded and stripped, or the empty string when that raised
    ([lines i = None]). *)
Definition input_at (lines : nat -> option string) (i : nat) : string :=
  match lines i with
  | Some raw => py_strip raw
  | None => ""%string
  end.

(** [get_input], lines 189-220, from the [i]-th line on; the result is
    the accepted input and the number of the next line. *)
Fixpoint get_input (fuel : nat) (validator : option (string -> bool * string))
    (lines : nat -> option string) (i : nat) : result (string * nat) :=
  match fuel with
  | O => OutOfFuel
  | S fuel' =>
      let user_input := input_at lines i in
      match validator with
      | Some v =>
          if fst (v user_input) then Done (user_input, S i)
          else get_input fuel' validator lines (S i)
      | None =>
          if String.eqb user_input "" then get_input fuel' validator lines (S i)
          else Done (user_input, S i)
      end
  end.

(** [get_consent], lines 237-283. *)
Fixpoint get_consent (fuel : nat) (selected : Z) : M bool :=
  match fuel with
  | O => diverge
  | S fuel' =>
      let* key := read_key in
      if key =? KEY_LEFT then get_consent fuel' 0
      else if key =? KEY_RIGHT then get_consent fuel' 1
      else if key_in key [ord_n; ord_N] then get_consent fuel' 0
      else if key_in key [ord_y; ord_Y] then get_consent fuel' 1
      else if key =? ord_newline then ret (selected =? 1)
      else get_consent fuel' selected
  end.

(** [Player(name, email, marketing_consent)]; [timestamp] is
    [datetime.now().isoformat()]. *)
Definition new_player (name email : string) (marketing_consent : bool)
    (timestamp : string) : Player :=
  {| p_name := name; p_email := email;
     p_marketing_consent := marketing_consent;
     p_score := 0; p_total_time := 0%Q;
     p_timestamp := timestamp; p_question_details := [] |}.

(** [register_player], lines 285-305. *)
Definition register_player (fuel : nat) (lines : nat -> option string)
    (timestamp : string) (i : nat) : M (Player * nat) :=
  let* name := lift (get_input fuel (Some validate_name) lines i) in
  let* email := lift (get_input fuel (Some validate_email) lines (snd name)) in
  let* marketing_consent := get_consent fuel 0 in
  ret (new_player (fst name) (fst email) marketing_consent timestamp, snd email).

(** A key that selects YES, and one that selects NO. *)
Definition is_yes_key (key : Z) : bool :=
  (key =? KEY_RIGHT) || (key =? ord_y) || (key =? ord_Y).

Definition is_no_key (key : Z) : bool :=
  (key =? KEY_LEFT) || (key =? ord_n) || (key =? ord_N).

(** ** Further concrete inputs: registration *)

(** What the player types at the two prompts: a name that is too short,
    a name, a malformed address, an address. *)
Definition typed_lines (n : nat) : option string :=
  match n with
  | 0%nat => Some " a "%string
  | 1%nat => Some "  alice "%string
  | 2%nat => Some "alice.example.org"%string
  | 3%nat => Some "alice@example.org "%string
  | _ => None
  end.

(** The player presses [y], then [n], then [y] again, then [ENTER]. *)
Definition consent_world : World :=
  {| time_time := fun n => inject_Z (Z.of_nat n);
     getch := fun n => match n with
                       | 0%nat => ord_y
                       | 1%nat => ord_n
                       | 2%nat => ord_Y
                       | _ => ord_newline
                       end |}.

(** The [n] keys read from the [k0]-th on. *)
Definition keys_from (w : World) (k0 n : nat) : list Z :=
  map (fun i => getch w (k0 + i)%nat) (seq 0 n).

(** The option highlighted after the keys [keys], starting from [selected]. *)
Definition final_choice (selected : Z) (keys : list Z) : Z :=
  fold_left (fun s key => if is_no_key key then 0
                          else if is_yes_key key then 1 else s) keys selected.

(** ** [wrap_text], lines 379-399 *)

(** [text.split()]: the maximal runs of characters that are not
    whitespace; [cur] holds the run being read, last character first. *)
Fixpoint split_words_go (cur : list ascii) (l : list ascii) : list (list ascii) :=
  match l with
  | [] => match cur with [] => [] | _ => [rev cur] end
  | c :: l' =>
      if is_space c then
        match cur with
        | [] => split_words_go [] l'
        | _ => rev cur :: split_words_go [] l'
        end
      else split_words_go (c :: cur) l'
  end.

Definition py_split (text : string) : list string :=
  map String.string_of_list_ascii (split_words_go [] (chars text)).

(** [" ".join(words)] *)
Definition join_space (words : list string) : string := String.concat " " words.

(** [len(s)] for a string *)
Definition slen (s : string) : Z := Z.of_nat (String.length s).

(** [if current_line: lines.append(" ".join(current_line))] *)
Definition flush_line (lines current_line : list string) : list string :=
  match current_line with
  | [] => lines
  | _ => lines ++ [join_space current_line]
  end.

(** The [for] loop of lines 386-394 and the final flush of lines 396-397. *)
Fixpoint wrap_loop (width : Z) (words lines current_line : list string)
    (current_length : Z) : list string :=
  match words with
  | [] => flush_line lines current_line
  | word :: rest =>
      if current_length + slen word + len current_line <=? width then
        wrap_loop width rest lines (current_line ++ [word])
                  (current_length + slen word)
      else
        wrap_loop width rest (flush_line lines current_line) [word] (slen word)
  end.

Definition wrap_text (text : string) (width : Z) : list string :=
  wrap_loop width (py_split text) [] [] 0.

(** The words of a line fit the width, or the line is a single word. *)
Definition line_ok (width : Z) (g : list string) : Prop :=
  slen (join_space g) <= width \/ exists w, g = [w].

(** ** [center_text], lines 116-121 *)

(** The position at which [center_text] draws [text] on a screen of
    [h] lines and [w] columns, if it draws. *)
Definition center_text (h w y : Z) (text : string) : option (Z * Z) :=
  let x := (w - slen text) / 2 in
  if (0 <=? y) && (y <? h) && (0 <=? x) && (x <? w) then Some (y, x) else None.

(** ** [draw_timer_bar], lines 307-325 *)

(** [int(x)]: truncation toward zero. *)
Definition py_int (x : Q) : Z := Z.quot (Qnum x) (Z.pos (Qden x)).

(** A cell of the bar: the full block or the light shade. *)
Inductive cell : Set := Full | Shade.

(** ["c" * n]: empty for a negative [n]. *)
Definition cells (c : cell) (n : Z) : list cell := repeat c (Z.to_nat n).

(** The bar, the number of the colour pair and the seconds shown. *)
Definition draw_timer_bar (width : Z) (elapsed timeout : Q)
    : result (list cell * Z * Z) :=
  let remaining := if Qlt_bool 0 (timeout - elapsed)
                   then (timeout - elapsed)%Q else 0%Q in     (* max(0, ...) *)
  if Qeq_bool timeout 0 then Raised ZeroDivisionError
  else
    let percentage := (remaining / timeout)%Q in
    let filled := py_int (inject_Z width * percentage) in
    let bar := cells Full filled ++ cells Shade (width - filled) in
    let color := if Qlt_bool (1 # 2) percentage then 4
                 else if Qlt_bool (1 # 4) percentage then 2
                 else 5 in
    Done (bar, color, py_int remaining).

(** ** [display_question], lines 327-377, and the loop with its frames *)

(** What [display_question] computes from its arguments before it
    draws: the timer bar, the wrapped lines of the question and one row
    per option, flagged when it is the highlighted one. *)
Record Frame : Type := {
  f_timer : list cell * Z * Z;
  f_lines : list string;
  f_rows : list (bool * string)
}.

(** The calls of curses are taken to succeed (the screen of [screen_w]
    columns is large enough); the exception the computation itself can
    raise is the [ZeroDivisionError] of [draw_timer_bar], line 341. *)
Definition display_question (screen_w : Z) (question_data : Question)
    (selected : Z) (elapsed_time timeout : Q) : result Frame :=
  match draw_timer_bar (screen_w - 10) elapsed_time timeout with
  | Done bar =>
      Done {| f_timer := bar;
              f_lines := wrap_text (q_question question_data) (screen_w - 10);
              f_rows := imap (fun i option => (Z.of_nat i =? selected, option))
                             (q_options question_data) |}
  | Raised e => Raised e
  | OutOfFuel => OutOfFuel
  end.

(** The loop of lines 485-557 with the call of line 492: the frame is
    drawn after the deadline test, outside the [try]. *)
Fixpoint question_loop_drawn (fuel : nat) (screen_w : Z) (q : Question)
    (time_per_question start_time : Q) (s : LoopState) : M LoopState :=
  if answered s then ret s
  else match fuel with
       | O => diverge
       | S fuel' =>
           let* t := now in
           let elapsed := (t - start_time)%Q in
           if Qle_bool time_per_question elapsed then ret s   (* break *)
           else
             let* frame := lift (display_question screen_w q (selected_idx s)
                                   elapsed time_per_question) in
             let* key := read_key in
             question_loop_drawn fuel' screen_w q time_per_question start_time
                                 (try_handle_key q key s)
       end.

Definition play_question_drawn (fuel : nat) (screen_w : Z) (time_per_question : Q)
    (q : Question) (acc : Session) : M Session :=
  let* start_time := now in
  let* s := question_loop_drawn fuel screen_w q time_per_question start_time
              init_state in
  let* t_end := now in
  let taken := (t_end - start_time)%Q in
  let* correct_text := lift (py_index (q_options q) (q_correct q)) in
  ret (record_answer time_per_question q acc (answer s) taken).

Fixpoint play_questions_drawn (fuel : nat) (screen_w : Z) (time_per_question : Q)
    (qs : list Question) (acc : Session) : M Session :=
  match qs with
  | [] => ret acc
  | q :: qs' =>
      let* acc' := play_question_drawn fuel screen_w time_per_question q acc in
      play_questions_drawn fuel screen_w time_per_question qs' acc'
  end.

Definition play_session_drawn (fuel : nat) (screen_w : Z) (meta : Metadata)
    (questions : list Question) (player : Player) : M Player :=
  let time_per_question := get_default (m_time_per_question meta) 30%Q in
  let* acc := play_questions_drawn fuel screen_w time_per_question questions
                {| total_time := 0%Q; correct_answers := 0;
                   question_details := p_question_details player |} in
  ret {| p_name := p_name player;
         p_email := p_email player;
         p_marketing_consent := p_marketing_consent player;
         p_score := correct_answers acc;
         p_total_time := total_time acc;
         p_timestamp := p_timestamp player;
         p_question_details := question_details acc |}.

(** A clock that runs backwards, one second per reading; no key. *)
Definition backward_world : World :=
  {| time_time := fun n => inject_Z (- Z.of_nat n);
     getch := fun _ => NO_KEY |}.

(** ** [random.sample] for a population of any size *)

(** [setsize] of [random.sample]: [21], plus
    [4 ** ceil(log(3 * k, 4))], the least power of four that is at least
    [3 * k], when [k > 5]. *)
Definition setsize (k : Z) : Z :=
  if 5 <? k then 21 + 4 ^ ((Z.log2_up (3 * k) + 1) / 2) else 21.

(** [j = randbelow(n); while j in selected: j = randbelow(n)]: the
    first draw from number [i] on that is not in [selected], with the
    number of the next draw. *)
Fixpoint draw_fresh (fuel : nat) (rnd : nat -> nat) (i n : nat)
    (selected : gset nat) : result (nat * nat) :=
  match fuel with
  | O => OutOfFuel
  | S fuel' =>
      let j := (rnd i mod n)%nat in
      if decide (j ∈ selected) then draw_fresh fuel' rnd (S i) n selected
      else Done (j, S i)
  end.

(** The second algorithm of [random.sample], for a population of more
    than [setsize] elements: the positions chosen so far are kept in a
    set and a draw that is already there is repeated. *)
Fixpoint sample_set {A : Type} (fuel : nat) (rnd : nat -> nat) (i : nat)
    (population : list A) (selected : gset nat) (k : nat) : result (list A) :=
  match k with
  | O => Done []
  | S k' =>
      match draw_fresh fuel rnd i (length population) selected with
      | Done (j, i') =>
          match population !! j with
          | Some x =>
              match sample_set fuel rnd i' population ({[ j ]} ∪ selected) k' with
              | Done l => Done (x :: l)
              | r => r
              end
          | None => Raised IndexError
          end
      | Raised e => Raised e
      | OutOfFuel => OutOfFuel
      end
  end.

(** [random.sample(population, k)]: [ValueError] when [k] is negative or
    larger than the population, the pool algorithm for a population of
    at most [setsize k] elements, the set algorithm otherwise. *)
Definition sample {A : Type} (fuel : nat) (rnd : nat -> nat) (population : list A)
    (k : Z) : result (list A) :=
  if (k <? 0) || (len population <? k) then Raised ValueError
  else if len population <=? setsize k
       then Done (sample_pool rnd 0 population (length population) (Z.to_nat k))
       else sample_set fuel rnd 0 population ∅ (Z.to_nat k).

(** [self.quiz_metadata.get('questions_per_game', 5)] *)
Definition questions_per_game (meta : Metadata) : Z :=
  get_default (m_questions_per_game meta) 5.

(** [select_random_questions], lines 79-87, for a bank of any size;
    [select_random_questions] above is this function for a bank of at
    most 21 questions, where no draw is ever repeated. *)
Definition select_random_questions_full (fuel : nat) (meta : Metadata)
    (rnd : nat -> nat) (all_questions : list Question) : result (list Question) :=
  if len all_questions <=? questions_per_game meta then Done all_questions
  else sample fuel rnd all_questions (questions_per_game meta).

(** The questions [qs] are those at the positions [js] of the bank. *)
Definition picked_at (bank : list Question) (js : list nat) (qs : list Question)
    : Prop :=
  Forall2 (fun j q => bank !! j = Some q) js qs.

(** From every draw on, each of the [n] positions is drawn within
    [fuel] draws. *)
Definition draws_cover (rnd : nat -> nat) (n fuel : nat) : Prop :=
  forall i j, (j < n)%nat -> exists d, (d < fuel)%nat /\ (rnd (i + d) mod n)%nat = j.

(** A bank of 22 questions, numbered from 0. *)
Definition numbered (i : nat) : Question :=
  {| q_id := Z.of_nat i; q_question := "?"; q_options := ["a"; "b"]%string;
     q_correct := 0; q_explanation := "" |}.

Definition bank22 : list Question := map numbered (seq 0 22).

(** ** [play_game] as a whole, lines 431-596 *)

(** The ready screen, lines 469-472: keys are read until the space bar. *)
Fixpoint wait_for_space (fuel : nat) : M unit :=
  match fuel with
  | O => diverge
  | S fuel' =>
      let* key := read_key in
      if key =? ord_space then ret tt else wait_for_space fuel'
  end.

(** Lines 598-649: the high-score test, then the screen waits for a key. *)
Definition show_game_over_screen (meta : Metadata) (player : Player) (fs : FS)
    : M bool :=
  let* is_high := lift (show_game_over meta player fs) in
  let* key := read_key in
  ret is_high.

(** [play_game]: selection, ready screen, the questions, then the
    game-over screen and the two stores.  The result is what
    [show_game_over] found, or the exception that ended the game, with
    the file system and the terminal as they are left. *)
Definition play_game (fuel : nat) (screen_w : Z) (meta : Metadata)
    (rnd : nat -> nat) (all_questions : list Question) (now_iso : string)
    (player : Player) (fs : FS) (w : World) (c : Cursor)
    : result bool * FS * Cursor :=
  match select_random_questions_full fuel meta rnd all_questions with
  | Done questions =>
      match wait_for_space fuel w c with
      | (Done _, c1) =>
          match play_session_drawn fuel screen_w meta questions player w c1 with
          | (Done player', c2) =>
              match show_game_over_screen meta player' fs w c2 with
              | (Done is_high, c3) =>
                  match save_score meta now_iso player' fs with
                  | Done fs1 =>
                      match save_game_stats meta questions player' fs1 with
                      | Done fs2 => (Done is_high, fs2, c3)
                      | Raised e => (Raised e, fs1, c3)
                      | OutOfFuel => (OutOfFuel, fs1, c3)
                      end
                  | Raised e => (Raised e, fs, c3)
                  | OutOfFuel => (OutOfFuel, fs, c3)
                  end
              | (Raised e, c3) => (Raised e, fs, c3)
              | (OutOfFuel, c3) => (OutOfFuel, fs, c3)
              end
          | (Raised e, c2) => (Raised e, fs, c2)
          | (OutOfFuel, c2) => (OutOfFuel, fs, c2)
          end
      | (Raised e, c1) => (Raised e, fs, c1)
      | (OutOfFuel, c1) => (OutOfFuel, fs, c1)
      end
  | Raised e => (Raised e, fs, c)
  | OutOfFuel => (OutOfFuel, fs, c)
  end.

(** The player presses the space bar, then [DOWN] and [ENTER]; the
    clock advances one second between readings. *)
Definition game_world : World :=
  {| time_time := fun n => inject_Z (Z.of_nat n);
     getch := fun n => match n with
                       | 0%nat => ord_space
                       | 1%nat => KEY_DOWN
                       | 2%nat => ord_newline
                       | _ => NO_KEY
                       end |}.

(** ** Further vocabulary: questions with few options *)

(** With at most one option the highlight stays on 0 and only 0 can be
    committed. *)
Definition few_options_state (s : LoopState) : Prop :=
  selected_idx s = 0 /\ (answer s = None \/ answer s = Some 0).

(** * Properties *)

(** ** Key handling *)

Section KeyHandling.

Variable q : Question.

Lemma select_if_in_range (s : LoopState) (n : Z) :
  n < len (q_options q) -> select_if q s n = commit s n.
Proof. intros H. unfold select_if. by rewrite (proj2 (Z.ltb_lt _ _) H). Qed.

Lemma select_if_out_of_range (s : LoopState) (n : Z) :
  len (q_options q) <= n -> select_if q s n = s.
Proof. intros H. unfold select_if. by rewrite (proj2 (Z.ltb_ge _ _) H). Qed.

Lemma handle_key_letter (s : LoopState) (n : Z) :
  0 <= n <= 5 ->
  handle_key q (ord_a + n) s = Done (select_if q s n) /\
  handle_key q (ord_A + n) s = Done (select_if q s n).
Proof.
  intros Hn.
  assert (n = 0 \/ n = 1 \/ n = 2 \/ n = 3 \/ n = 4 \/ n = 5) as Hcases by lia.
  destruct Hcases as [->|[->|[->|[->|[->| ->]]]]]; split; reflexivity.
Qed.

Lemma handle_key_digit (s : LoopState) (n : Z) :
  0 <= n <= 5 -> handle_key q (ord_1 + n) s = Done (select_if q s n).
Proof.
  intros Hn.
  assert (n = 0 \/ n = 1 \/ n = 2 \/ n = 3 \/ n = 4 \/ n = 5) as Hcases by lia.
  destruct Hcases as [->|[->|[->|[->|[->| ->]]]]]; reflexivity.
Qed.

Lemma handle_key_no_key (s : LoopState) : handle_key q NO_KEY s = Done s.
Proof. reflexivity. Qed.

Lemma try_handle_no_key (s : LoopState) : try_handle_key q NO_KEY s = s.
Proof. reflexivity. Qed.

End KeyHandling.

(** C10: the spacebar confirms the highlighted index, and the letters
    a-f / A-F commit the indices 0-5 when the index is below the option
    count and change nothing otherwise.  A commit sets [answered], which
    ends the loop, and stores the index in [answer]; the highlighted
    index stays as it is. *)
Theorem letter_and_space_keys (q : Question) (s : LoopState) (n : Z) :
  0 <= n <= 5 ->
  handle_key q ord_space s =
    Done {| selected_idx := selected_idx s; answered := true;
            answer := Some (selected_idx s) |} /\
  (n < len (q_options q) ->
     handle_key q (ord_a + n) s =
       Done {| selected_idx := selected_idx s; answered := true;
               answer := Some n |} /\
     handle_key q (ord_A + n) s =
       Done {| selected_idx := selected_idx s; answered := true;
               answer := Some n |}) /\
  (len (q_options q) <= n ->
     handle_key q (ord_a + n) s = Done s /\
     handle_key q (ord_A + n) s = Done s).
Proof.
  intros Hn. split; [reflexivity|].
  destruct (handle_key_letter q s n Hn) as [Ha HA].
  split; intros Hlen.
  - rewrite Ha, HA. by rewrite select_if_in_range.
  - rewrite Ha, HA. by rewrite select_if_out_of_range.
Qed.

(** ** The question loop *)

Lemma handle_key_shape (q : Question) (key : Z) (s s' : LoopState) :
  handle_key q key s = Done s' ->
  s' = s \/ (exists i, s' = set_selected s i) \/ (exists i, s' = commit s i).
Proof.
  unfold handle_key, select_if, py_mod.
  repeat case_match; intros [= <-]; eauto.
Qed.

Lemma handle_key_raises (q : Question) (key : Z) (s : LoopState) (e : exn) :
  handle_key q key s = Raised e -> e = ZeroDivisionError /\ q_options q = [].
Proof.
  unfold handle_key, select_if, py_mod.
  repeat case_match; intros [= <-]; simplify_eq; split; try done;
    match goal with
    | H : (len ?l =? 0) = true |- _ =>
        apply Z.eqb_eq in H; unfold len in H; by destruct l
    end.
Qed.

Lemma try_handle_key_ok (q : Question) (key : Z) (s : LoopState) :
  state_ok s -> state_ok (try_handle_key q key s).
Proof.
  intros Hs. unfold try_handle_key.
  destruct (handle_key q key s) as [s'| |] eqn:Hk; try done.
  apply handle_key_shape in Hk as [->|[[i ->]|[i ->]]]; done.
Qed.

Section Loop.

Variables (w : World) (q : Question) (time_per_question start_time : Q).

Lemma question_loop_answered (fuel : nat) (s : LoopState) (c : Cursor) :
  answered s = true ->
  question_loop fuel q time_per_question start_time s w c = (Done s, c).
Proof. intros H. destruct fuel; simpl; by rewrite H. Qed.

Lemma question_loop_step (fuel : nat) (s : LoopState) (c : Cursor) :
  answered s = false ->
  question_loop (S fuel) q time_per_question start_time s w c =
    if Qle_bool time_per_question (time_time w (n_time c) - start_time)
    then (Done s, {| n_time := S (n_time c); n_key := n_key c |})
    else question_loop fuel q time_per_question start_time
           (try_handle_key q (getch w (n_key c)) s) w
           {| n_time := S (n_time c); n_key := S (n_key c) |}.
Proof.
  intros H. simpl. rewrite H. unfold bind, now, read_key, ret. simpl.
  by destruct (Qle_bool _ _).
Qed.

(** The loop never lets an exception escape. *)
Lemma question_loop_no_raise (fuel : nat) (s : LoopState) (c : Cursor) (e : exn) :
  (question_loop fuel q time_per_question start_time s w c).1 <> Raised e.
Proof.
  revert s c. induction fuel as [|fuel IH]; intros s c.
  - simpl. by destruct (answered s).
  - destruct (answered s) eqn:Ha.
    + by rewrite question_loop_answered.
    + rewrite question_loop_step by done.
      destruct (Qle_bool _ _); [done | apply IH].
Qed.

(** Once some later clock reading reaches the deadline, the loop ends in
    one of its two terminal states. *)
Lemma question_loop_terminates (k fuel : nat) (s : LoopState) (c : Cursor) :
  (k < fuel)%nat ->
  state_ok s ->
  reached w time_per_question start_time (n_time c + k) ->
  exists s' c',
    question_loop fuel q time_per_question start_time s w c = (Done s', c') /\
    state_ok s' /\
    (answered s' = true \/
     (answered s' = false /\ (n_time c < n_time c')%nat /\
      reached w time_per_question start_time (n_time c' - 1))).
Proof.
  revert fuel s c. induction k as [|k IH]; intros fuel s c Hf Hs Hr.
  - destruct fuel as [|fuel]; [lia|].
    destruct (answered s) eqn:Ha.
    + rewrite question_loop_answered by done.
      eexists _, _. split; [done|]. split; [done|]. by left.
    + rewrite question_loop_step by done.
      rewrite Nat.add_0_r in Hr. unfold reached in Hr. rewrite Hr.
      eexists _, _. split; [done|]. split; [done|]. right. simpl.
      rewrite Nat.sub_0_r. split; [done|]. split; [lia|done].
  - destruct fuel as [|fuel]; [lia|].
    destruct (answered s) eqn:Ha.
    + rewrite question_loop_answered by done.
      eexists _, _. split; [done|]. split; [done|]. by left.
    + rewrite question_loop_step by done.
      destruct (Qle_bool _ _) eqn:Hd.
      * eexists _, _. split; [done|]. split; [done|]. right. simpl.
        rewrite Nat.sub_0_r. split; [done|]. split; [lia|done].
      * destruct (IH fuel (try_handle_key q (getch w (n_key c)) s)
                    {| n_time := S (n_time c); n_key := S (n_key c) |})
          as (s' & c' & Hrun & Hok & Hpost).
        { lia. }
        { by apply try_handle_key_ok. }
        { unfold reached in *. simpl. by rewrite <- Nat.add_succ_r. }
        exists s', c'. split; [done|]. split; [done|].
        destruct Hpost as [?|(? & Hlt & ?)]; [by left|right].
        simpl in Hlt. split; [done|]. split; [lia|done].
Qed.

(** With no key pressed before the deadline, the loop leaves its
    variables untouched and stops at the first reading that reaches the
    deadline. *)
Lemma question_loop_no_input (k fuel : nat) (s : LoopState) (c : Cursor) :
  (k < fuel)%nat ->
  answered s = false ->
  reached w time_per_question start_time (n_time c + k) ->
  (forall i, (i < k)%nat -> getch w (n_key c + i) = NO_KEY) ->
  exists c',
    question_loop fuel q time_per_question start_time s w c = (Done s, c') /\
    (n_time c < n_time c')%nat /\
    reached w time_per_question start_time (n_time c' - 1).
Proof.
  revert fuel c. induction k as [|k IH]; intros fuel c Hf Ha Hr Hkeys.
  - destruct fuel as [|fuel]; [lia|].
    rewrite question_loop_step by done.
    rewrite Nat.add_0_r in Hr. unfold reached in Hr. rewrite Hr.
    eexists. split; [done|]. simpl. rewrite Nat.sub_0_r. split; [lia|done].
  - destruct fuel as [|fuel]; [lia|].
    rewrite question_loop_step by done.
    destruct (Qle_bool _ _) eqn:Hd.
    + eexists. split; [done|]. simpl. rewrite Nat.sub_0_r. split; [lia|done].
    + rewrite <- (Nat.add_0_r (n_key c)), (Hkeys 0%nat) by lia.
      rewrite try_handle_no_key.
      destruct (IH fuel {| n_time := S (n_time c); n_key := S (n_key c + 0) |})
        as (c' & Hrun & Hlt & Hpost).
      { lia. }
      { done. }
      { unfold reached in *. simpl. by rewrite <- Nat.add_succ_r. }
      { intros i Hi. simpl. rewrite Nat.add_0_r, <- Nat.add_succ_r.
        apply Hkeys. lia. }
      exists c'. split; [done|]. simpl in Hlt. split; [lia|done].
Qed.

End Loop.

(** ** The loop with its frames *)

Lemma display_question_done (screen_w : Z) (q : Question) (selected : Z)
    (elapsed tpq : Q) :
  ~ (tpq == 0)%Q ->
  exists frame, display_question screen_w q selected elapsed tpq = Done frame.
Proof.
  intros Hpos. unfold display_question, draw_timer_bar.
  destruct (Qeq_bool tpq 0) eqn:Hz; [|eauto].
  by apply Qeq_bool_iff in Hz.
Qed.

(** With a limit of 0 the timer bar divides by zero. *)
Lemma display_question_zero (screen_w : Z) (q : Question) (selected : Z)
    (elapsed tpq : Q) :
  (tpq == 0)%Q ->
  display_question screen_w q selected elapsed tpq = Raised ZeroDivisionError.
Proof.
  intros Hz. unfold display_question, draw_timer_bar.
  by rewrite (proj2 (Qeq_bool_iff _ _) Hz).
Qed.

(** Unless the limit is 0, drawing the frames changes nothing in the
    run of the loop. *)
Lemma question_loop_drawn_eq (w : World) (screen_w : Z) (q : Question)
    (tpq start_time : Q) (fuel : nat) :
  ~ (tpq == 0)%Q ->
  forall (s : LoopState) (c : Cursor),
    question_loop_drawn fuel screen_w q tpq start_time s w c =
    question_loop fuel q tpq start_time s w c.
Proof.
  intros Hpos. induction fuel as [|fuel IH]; intros s c; [done|].
  simpl. destruct (answered s); [done|].
  unfold bind, now, lift, read_key. simpl.
  destruct (Qle_bool _ _); [done|].
  destruct (display_question_done screen_w q (selected_idx s)
              (time_time w (n_time c) - start_time) tpq Hpos) as [frame ->].
  apply IH.
Qed.

Lemma play_question_drawn_eq (w : World) (screen_w : Z) (q : Question) (tpq : Q)
    (fuel : nat) (acc : Session) (c : Cursor) :
  ~ (tpq == 0)%Q ->
  play_question_drawn fuel screen_w tpq q acc w c = play_question fuel tpq q acc w c.
Proof.
  intros Hpos. unfold play_question_drawn, play_question, bind, now. simpl.
  by rewrite question_loop_drawn_eq.
Qed.

Lemma play_questions_drawn_eq (w : World) (screen_w : Z) (tpq : Q) (fuel : nat)
    (qs : list Question) :
  ~ (tpq == 0)%Q ->
  forall (acc : Session) (c : Cursor),
    play_questions_drawn fuel screen_w tpq qs acc w c =
    play_questions fuel tpq qs acc w c.
Proof.
  intros Hpos. induction qs as [|q qs IH]; intros acc c; [done|].
  simpl. unfold bind. rewrite play_question_drawn_eq by done.
  destruct (play_question fuel tpq q acc w c) as [[acc'| |] c'];
    [apply IH | done | done].
Qed.

Lemma play_session_drawn_eq (w : World) (screen_w : Z) (meta : Metadata)
    (fuel : nat) (qs : list Question) (player : Player) (c : Cursor) :
  ~ (get_default (m_time_per_question meta) 30 == 0)%Q ->
  play_session_drawn fuel screen_w meta qs player w c =
  play_session fuel meta qs player w c.
Proof.
  intros Hpos. unfold play_session_drawn, play_session, bind.
  by rewrite play_questions_drawn_eq.
Qed.

(** With a limit of 0 and a clock that steps back, the frame is drawn
    and the question ends in [ZeroDivisionError]. *)
Example zero_limit_backward_clock :
  play_question_drawn 5 80 0 q_two new_session backward_world cursor0 =
    (Raised ZeroDivisionError, {| n_time := 2; n_key := 0 |}) /\
  play_question 5 0 q_two new_session backward_world cursor0 =
    (OutOfFuel, {| n_time := 6; n_key := 5 |}).
Proof. split; reflexivity. Qed.

(** A run of the loop that completes is the same run without the
    frames, whatever the limit. *)
Lemma question_loop_drawn_done (w : World) (screen_w : Z) (q : Question)
    (tpq start_time : Q) (fuel : nat) :
  forall (s s' : LoopState) (c c' : Cursor),
    question_loop_drawn fuel screen_w q tpq start_time s w c = (Done s', c') ->
    question_loop fuel q tpq start_time s w c = (Done s', c').
Proof.
  induction fuel as [|fuel IH]; intros s s' c c' Hrun; [done|].
  simpl in Hrun |- *. destruct (answered s); [done|].
  unfold bind, now, lift, read_key in Hrun |- *. simpl in Hrun |- *.
  destruct (Qle_bool _ _); [done|].
  destruct (display_question _ _ _ _ _); [|done|done].
  by apply IH.
Qed.

Lemma play_question_drawn_inv (fuel : nat) (screen_w : Z) (tpq : Q) (q : Question)
    (acc acc' : Session) (w : World) (c c' : Cursor) :
  play_question_drawn fuel screen_w tpq q acc w c = (Done acc', c') ->
  exists s c1,
    question_loop_drawn fuel screen_w q tpq (time_time w (n_time c)) init_state w
      {| n_time := S (n_time c); n_key := n_key c |} = (Done s, c1) /\
    play_question fuel tpq q acc w c = (Done acc', c').
Proof.
  unfold play_question_drawn, play_question, bind, now, lift, ret. simpl.
  destruct (question_loop_drawn _ _ _ _ _ _ _ _) as [[s| |] c1] eqn:Hrun; try done.
  rewrite (question_loop_drawn_done _ _ _ _ _ _ _ _ _ _ Hrun). eauto.
Qed.

Lemma play_questions_drawn_done (w : World) (screen_w : Z) (tpq : Q) (fuel : nat)
    (qs : list Question) :
  forall (acc acc' : Session) (c c' : Cursor),
    play_questions_drawn fuel screen_w tpq qs acc w c = (Done acc', c') ->
    play_questions fuel tpq qs acc w c = (Done acc', c').
Proof.
  induction qs as [|q qs IH]; intros acc acc' c c' Hrun; [done|].
  simpl in Hrun |- *. unfold bind in Hrun |- *.
  destruct (play_question_drawn fuel screen_w tpq q acc w c) as [[acc1| |] c1]
    eqn:Hq; try done.
  apply play_question_drawn_inv in Hq as (s & c2 & _ & ->). by apply IH.
Qed.

Lemma play_session_drawn_done (w : World) (screen_w : Z) (meta : Metadata)
    (fuel : nat) (qs : list Question) (player player' : Player) (c c' : Cursor) :
  play_session_drawn fuel screen_w meta qs player w c = (Done player', c') ->
  play_session fuel meta qs player w c = (Done player', c').
Proof.
  unfold play_session_drawn, play_session, bind.
  destruct (play_questions_drawn _ _ _ _ _ _ _) as [[acc| |] c1] eqn:Hqs; try done.
  by rewrite (play_questions_drawn_done _ _ _ _ _ _ _ _ _ Hqs).
Qed.

(** ** One question *)

Lemma record_answer_details (tpq : Q) (q : Question) (acc : Session)
    (ans : option Z) (taken : Q) :
  exists ok,
    question_details (record_answer tpq q acc ans taken) =
      question_details acc ++ [make_detail q ans ok taken] /\
    ok = match ans with Some a => a =? q_correct q | None => false end /\
    correct_answers (record_answer tpq q acc ans taken) =
      correct_answers acc + (if ok then 1 else 0) /\
    total_time (record_answer tpq q acc ans taken) =
      (total_time acc + charged tpq (make_detail q ans ok taken))%Q.
Proof.
  destruct ans as [a|]; simpl.
  - destruct (a =? q_correct q) eqn:Ha; simpl.
    + by exists true.
    + exists false. by rewrite Z.add_0_r.
  - exists false. by rewrite Z.add_0_r.
Qed.

(** [play_question] in terms of the run of its loop. *)
Lemma play_question_run (fuel : nat) (tpq : Q) (q : Question) (acc : Session)
    (w : World) (c c1 : Cursor) (s : LoopState) :
  question_loop fuel q tpq (time_time w (n_time c)) init_state w
    {| n_time := S (n_time c); n_key := n_key c |} = (Done s, c1) ->
  play_question fuel tpq q acc w c =
    (match py_index (q_options q) (q_correct q) with
     | Done _ =>
         Done (record_answer tpq q acc (answer s)
                 (time_time w (n_time c1) - time_time w (n_time c))%Q)
     | Raised e => Raised e
     | OutOfFuel => OutOfFuel
     end,
     {| n_time := S (n_time c1); n_key := n_key c1 |}).
Proof.
  intros Hrun. unfold play_question, bind, now, lift, ret. simpl.
  rewrite Hrun. simpl. by destruct (py_index _ _).
Qed.

Lemma play_question_inv (fuel : nat) (tpq : Q) (q : Question) (acc acc' : Session)
    (w : World) (c c' : Cursor) :
  play_question fuel tpq q acc w c = (Done acc', c') ->
  exists s c1,
    question_loop fuel q tpq (time_time w (n_time c)) init_state w
      {| n_time := S (n_time c); n_key := n_key c |} = (Done s, c1) /\
    acc' = record_answer tpq q acc (answer s)
             (time_time w (n_time c1) - time_time w (n_time c))%Q.
Proof.
  unfold play_question, bind, now, lift, ret. simpl.
  destruct (question_loop _ _ _ _ _ _ _) as [[s| |] c1] eqn:Hrun; try done.
  simpl. destruct (py_index _ _); try done.
  intros [= <- <-]. eauto.
Qed.

(** C1, as the code has it: with no key before the deadline the question
    ends timed out, its detail has no answer and is not correct,
    [total_time] grows by exactly [time_per_question], and the detail's
    [time_taken] is the clock reading taken after the loop minus the
    start, which is at least [time_per_question] on a monotone clock. *)
Theorem timeout_outcome (w : World) (q : Question) (tpq : Q) (fuel k : nat)
    (acc : Session) (c : Cursor) (txt : string) :
  (k < fuel)%nat ->
  py_index (q_options q) (q_correct q) = Done txt ->
  reached w tpq (time_time w (n_time c)) (S (n_time c) + k) ->
  (forall i, (i < k)%nat -> getch w (n_key c + i) = NO_KEY) ->
  exists acc' c' d,
    play_question fuel tpq q acc w c = (Done acc', c') /\
    question_details acc' = question_details acc ++ [d] /\
    player_answer d = None /\
    is_correct d = false /\
    timed_out d = true /\
    time_taken d = (time_time w (n_time c' - 1) - time_time w (n_time c))%Q /\
    total_time acc' = (total_time acc + tpq)%Q /\
    ((forall i j, (i <= j)%nat -> (time_time w i <= time_time w j)%Q) ->
     (tpq <= time_taken d)%Q).
Proof.
  intros Hf Hidx Hr Hkeys.
  destruct (question_loop_no_input w q tpq (time_time w (n_time c)) k fuel
              init_state {| n_time := S (n_time c); n_key := n_key c |})
    as (c1 & Hrun & Hlt & Hdead); try done.
  rewrite (play_question_run _ _ _ acc _ _ _ _ Hrun), Hidx.
  eexists _, _, _. split; [done|]. simpl.
  split; [done|]. do 3 (split; [done|]).
  rewrite Nat.sub_0_r. split; [done|]. split; [done|].
  intros Hmono. unfold reached in Hdead. apply Qle_bool_iff in Hdead.
  pose proof (Hmono (n_time c1 - 1)%nat (n_time c1) ltac:(lia)) as Hm.
  simpl. lra.
Qed.

(** The loop keeps [answered] and [answer] in step. *)
Lemma question_loop_state_ok (w : World) (q : Question) (tpq start_time : Q)
    (fuel : nat) :
  forall (s s' : LoopState) (c c' : Cursor),
    state_ok s ->
    question_loop fuel q tpq start_time s w c = (Done s', c') ->
    state_ok s'.
Proof.
  induction fuel as [|fuel IH]; intros s s' c c' Hs Hrun.
  - simpl in Hrun. destruct (answered s) eqn:Ha; [|done].
    by injection Hrun as <- <-.
  - destruct (answered s) eqn:Ha.
    + rewrite question_loop_answered in Hrun by done. by injection Hrun as <- <-.
    + rewrite question_loop_step in Hrun by done.
      destruct (Qle_bool _ _).
      * by injection Hrun as <- <-.
      * eapply IH; [|exact Hrun]. by apply try_handle_key_ok.
Qed.

(** C3: the detail recorded for a question carries the answer the loop
    committed: it has an answer exactly when the loop ended answered,
    and then it is that answer; it is recorded as correct exactly when
    the answer is the question's correct index, in which case (and only
    then) [correct_answers] grows by one; the time recorded is the clock
    reading taken after the loop minus the start time, and it is what an
    answered question adds to [total_time]. *)
Theorem answered_outcome_correctness (fuel : nat) (screen_w : Z) (tpq : Q)
    (q : Question) (acc acc' : Session) (w : World) (c c' : Cursor) :
  play_question_drawn fuel screen_w tpq q acc w c = (Done acc', c') ->
  exists s c1 d,
    question_loop_drawn fuel screen_w q tpq (time_time w (n_time c)) init_state w
      {| n_time := S (n_time c); n_key := n_key c |} = (Done s, c1) /\
    question_details acc' = question_details acc ++ [d] /\
    player_answer d = answer s /\
    (answered s = true <-> exists a, player_answer d = Some a) /\
    correct_answer d = q_correct q /\
    (forall a, player_answer d = Some a ->
       (is_correct d = true <-> a = correct_answer d) /\
       (a <> correct_answer d -> is_correct d = false)) /\
    (player_answer d = None -> is_correct d = false) /\
    correct_answers acc' = correct_answers acc + (if is_correct d then 1 else 0) /\
    time_taken d = (time_time w (n_time c1) - time_time w (n_time c))%Q /\
    (answered s = true -> total_time acc' = (total_time acc + time_taken d)%Q).
Proof.
  intros Hplay.
  apply play_question_drawn_inv in Hplay as (s & c1 & Hdrawn & Hplay).
  pose proof (question_loop_drawn_done _ _ _ _ _ _ _ _ _ _ Hdrawn) as Hrun.
  apply play_question_inv in Hplay as (s0 & c0 & Hrun0 & ->).
  rewrite Hrun in Hrun0. injection Hrun0 as <- <-.
  assert (state_ok s) as Hok by (by eapply question_loop_state_ok; [|exact Hrun]).
  exists s, c1.
  destruct (record_answer_details tpq q acc (answer s)
              (time_time w (n_time c1) - time_time w (n_time c))%Q)
    as (ok & Hd & Hcorrect & Hc & Ht).
  eexists. split; [exact Hdrawn|]. split; [exact Hd|]. simpl.
  split; [done|]. split.
  { unfold state_ok in Hok. destruct (answer s) as [a|].
    - split; [eauto | done].
    - split; [congruence | by intros [a Ha]]. }
  split; [done|]. split.
  { intros a Ha. rewrite Ha in Hcorrect. subst ok. split.
    - by rewrite Z.eqb_eq.
    - intros Hne. by apply Z.eqb_neq. }
  split.
  { intros Ha. rewrite Ha in Hcorrect. by subst ok. }
  split; [exact Hc|]. split; [done|].
  intros Ha. rewrite Ht. unfold charged. simpl.
  unfold state_ok in Hok. destruct (answer s); [done | congruence].
Qed.

Lemma timeout_outcome_witness :
  exists acc' c' d,
    play_question 5 30 q_two new_session idle_world cursor0 = (Done acc', c') /\
    question_details acc' = question_details new_session ++ [d] /\
    player_answer d = None /\
    is_correct d = false /\
    timed_out d = true /\
    time_taken d = (time_time idle_world (n_time c' - 1)
                    - time_time idle_world (n_time cursor0))%Q /\
    total_time acc' = (total_time new_session + 30)%Q /\
    ((forall i j, (i <= j)%nat ->
        (time_time idle_world i <= time_time idle_world j)%Q) ->
     (30 <= time_taken d)%Q).
Proof.
  apply (timeout_outcome idle_world q_two 30 5 1 new_session cursor0 "4").
  - lia.
  - reflexivity.
  - reflexivity.
  - intros i Hi. reflexivity.
Defined.

(** C1 as stated fails: here no key is pressed, the limit is 30 seconds,
    and the recorded [time_taken] is 48, not 30. *)
Lemma timeout_time_taken_counterexample :
  exists acc' c' d,
    play_question 5 30 q_two new_session idle_world cursor0 = (Done acc', c') /\
    question_details acc' = [d] /\
    player_answer d = None /\
    timed_out d = true /\
    ~ (time_taken d == 30)%Q.
Proof.
  eexists _, _, _. split; [vm_compute; reflexivity|].
  split; [reflexivity|]. split; [reflexivity|]. split; [reflexivity|].
  simpl. intros H. unfold Qeq in H. simpl in H. discriminate H.
Qed.

(** On this run the player moves down to option 1 and confirms it: the
    detail records answer 1, which is the correct index. *)
(** On this run the player moves down to option 1 and confirms it: the
    detail records answer 1, which is the correct index. *)
Lemma answered_outcome_correctness_witness :
  exists acc' d,
    play_question_drawn 5 80 30 q_two new_session typing_world cursor0 =
      (Done acc', {| n_time := 4; n_key := 2 |}) /\
    question_details acc' = [d] /\
    player_answer d = Some 1 /\
    is_correct d = true /\
    correct_answers acc' = 1 /\
    time_taken d = 3%Q /\
    total_time acc' = (total_time new_session + time_taken d)%Q.
Proof.
  exists (record_answer 30 q_two new_session (Some 1) 3).
  destruct (answered_outcome_correctness 5 80 30 q_two new_session
              (record_answer 30 q_two new_session (Some 1) 3) typing_world cursor0
              {| n_time := 4; n_key := 2 |})
    as (s & c1 & d & Hrun & Hd & Hans & Hiff & Hidx & Hcorrect & _ & Hcount & Htime & Htotal).
  { vm_compute. reflexivity. }
  assert (s = {| selected_idx := 1; answered := true; answer := Some 1 |} /\
          c1 = {| n_time := 3; n_key := 2 |}) as [-> ->].
  { vm_compute in Hrun. by injection Hrun as <- <-. }
  exists d. split; [vm_compute; reflexivity|].
  split; [exact Hd|]. split; [exact Hans|].
  assert (is_correct d = true) as Hyes.
  { apply (Hcorrect 1 Hans). by rewrite Hidx. }
  split; [exact Hyes|]. split.
  { rewrite Hcount, Hyes. reflexivity. }
  split; [exact Htime|]. apply Htotal. reflexivity.
Defined.

Lemma letter_and_space_keys_witness :
  handle_key q_two ord_space init_state =
    Done {| selected_idx := 0; answered := true; answer := Some 0 |} /\
  handle_key q_two (ord_a + 1) init_state =
    Done {| selected_idx := 0; answered := true; answer := Some 1 |} /\
  handle_key q_two (ord_A + 1) init_state =
    Done {| selected_idx := 0; answered := true; answer := Some 1 |} /\
  handle_key q_two (ord_a + 2) init_state = Done init_state /\
  handle_key q_two (ord_A + 2) init_state = Done init_state.
Proof.
  destruct (letter_and_space_keys q_two init_state 1) as (H1 & H2 & _); [lia|].
  destruct (letter_and_space_keys q_two init_state 2) as (_ & _ & H3); [lia|].
  destruct H2 as [H2 H2']; [reflexivity|].
  destruct H3 as [H3 H3']; [discriminate|].
  split; [exact H1|]. split; [exact H2|]. split; [exact H2'|].
  split; [exact H3 | exact H3'].
Defined.

(** ** Questions with at most one option *)

Lemma few_options_move (q : Question) (key : Z) (s : LoopState) :
  (length (q_options q) <= 1)%nat ->
  selected_idx s = 0 ->
  key = KEY_UP \/ key = KEY_DOWN ->
  try_handle_key q key s = s.
Proof.
  intros Hlen Hsel Hkey. unfold try_handle_key, handle_key, py_mod, len.
  destruct s as [sel a b]. simpl in Hsel. subst sel.
  destruct (q_options q) as [|o [|o' l]]; simpl in Hlen; [| |lia];
    destruct Hkey as [-> | ->]; reflexivity.
Qed.

(** With no option at all the question still ends, but the result screen
    is given [question['options'][question['correct']]], which raises. *)
Lemma no_option_result_raises (fuel : nat) (tpq : Q) (q : Question) (acc : Session)
    (w : World) (c : Cursor) (r : Session) (c' : Cursor) :
  q_options q = [] ->
  play_question fuel tpq q acc w c <> (Done r, c').
Proof.
  intros Hq Hplay. unfold play_question, bind, now, lift, ret in Hplay.
  simpl in Hplay.
  destruct (question_loop _ _ _ _ _ _ _) as [[s| |] c1]; try done.
  simpl in Hplay. unfold py_index in Hplay. rewrite Hq in Hplay. simpl in Hplay.
  by destruct (_ || _).
Qed.

Lemma few_options_step (q : Question) (key : Z) (s : LoopState) :
  (length (q_options q) <= 1)%nat ->
  few_options_state s -> few_options_state (try_handle_key q key s).
Proof.
  intros Hlen [Hsel Hans]. unfold try_handle_key.
  destruct (handle_key q key s) as [s'| |] eqn:Hk; [|done|done].
  destruct s as [sel a b]. simpl in Hsel. subst sel.
  unfold handle_key, select_if, py_mod, len in Hk.
  destruct (q_options q) as [|o [|o' l]]; simpl in Hlen; [| |lia]; simpl in Hk;
    repeat case_match; simplify_eq; unfold few_options_state, commit, set_selected;
    simpl; eauto.
Qed.

Lemma question_loop_few_options (w : World) (q : Question) (tpq start_time : Q)
    (fuel : nat) :
  (length (q_options q) <= 1)%nat ->
  forall (s s' : LoopState) (c c' : Cursor),
    few_options_state s ->
    question_loop fuel q tpq start_time s w c = (Done s', c') ->
    few_options_state s'.
Proof.
  intros Hlen. induction fuel as [|fuel IH]; intros s s' c c' Hs Hrun.
  - simpl in Hrun. destruct (answered s) eqn:Ha; [|done].
    by injection Hrun as <- <-.
  - destruct (answered s) eqn:Ha.
    + rewrite question_loop_answered in Hrun by done. by injection Hrun as <- <-.
    + rewrite question_loop_step in Hrun by done.
      destruct (Qle_bool _ _).
      * by injection Hrun as <- <-.
      * eapply IH; [|exact Hrun]. by apply few_options_step.
Qed.

(** C8: for a question with no option or a single one and a time limit
    that is not 0, no exception escapes the loop, moving the selection
    up or down leaves the loop variables as they are, and the loop ends
    answered (with index 0) or timed out once a clock reading reaches
    the deadline.  With one option and a valid correct index the outcome
    is then recorded.  With no option the argument
    [question['options'][question['correct']]] of the result screen
    raises [IndexError]: no outcome is recorded. *)
Theorem few_options_loop (w : World) (q : Question) (tpq : Q) (screen_w : Z) :
  (length (q_options q) <= 1)%nat ->
  ~ (tpq == 0)%Q ->
  (forall fuel start_time s c e,
     (question_loop_drawn fuel screen_w q tpq start_time s w c).1 <> Raised e) /\
  (forall s key, selected_idx s = 0 -> key = KEY_UP \/ key = KEY_DOWN ->
     try_handle_key q key s = s) /\
  (forall k fuel start_time c,
     (k < fuel)%nat ->
     reached w tpq start_time (n_time c + k) ->
     exists s' c',
       question_loop_drawn fuel screen_w q tpq start_time init_state w c
         = (Done s', c') /\
       ((answered s' = true /\ answer s' = Some 0) \/
        (answered s' = false /\ answer s' = None /\
         reached w tpq start_time (n_time c' - 1)))) /\
  (forall k fuel acc c,
     (k < fuel)%nat ->
     reached w tpq (time_time w (n_time c)) (S (n_time c) + k) ->
     (forall o, q_options q = [o] -> valid_question q ->
        exists acc' c' d,
          play_question_drawn fuel screen_w tpq q acc w c = (Done acc', c') /\
          question_details acc' = question_details acc ++ [d] /\
          (player_answer d = None \/ player_answer d = Some 0)) /\
     (q_options q = [] ->
        exists c',
          play_question_drawn fuel screen_w tpq q acc w c = (Raised IndexError, c'))).
Proof.
  intros Hlen Hpos.
  assert (forall k fuel start_time c,
            (k < fuel)%nat ->
            reached w tpq start_time (n_time c + k) ->
            exists s' c',
              question_loop fuel q tpq start_time init_state w c = (Done s', c') /\
              ((answered s' = true /\ answer s' = Some 0) \/
               (answered s' = false /\ answer s' = None /\
                reached w tpq start_time (n_time c' - 1)))) as Hends.
  { intros k fuel start_time c Hf Hr.
    destruct (question_loop_terminates w q tpq start_time k fuel init_state c)
      as (s' & c' & Hrun & Hok & Hpost); try done.
    exists s', c'. split; [done|]. unfold state_ok in Hok.
    destruct (question_loop_few_options w q tpq start_time fuel Hlen
                init_state s' c c') as [_ Hans]; [by split; [|left] | done |].
    destruct Hpost as [Ha|(Ha & _ & Hd)].
    - left. split; [done|]. destruct Hans as [Hans|Hans]; [|done].
      rewrite Hans in Hok. congruence.
    - right. split; [done|]. split; [|done].
      destruct (answer s'); [congruence | done]. }
  split_and!.
  - intros fuel start_time s c e. rewrite question_loop_drawn_eq by done.
    apply question_loop_no_raise.
  - intros s key Hsel Hkey. by apply few_options_move.
  - intros k fuel start_time c Hf Hr. rewrite question_loop_drawn_eq by done.
    by apply (Hends k).
  - intros k fuel acc c Hf Hr.
    rewrite play_question_drawn_eq by done.
    destruct (Hends k fuel (time_time w (n_time c))
                {| n_time := S (n_time c); n_key := n_key c |} Hf Hr)
      as (s' & c1 & Hrun & Hpost).
    rewrite (play_question_run _ _ _ acc _ _ _ _ Hrun).
    split.
    + intros o Ho [txt Hvalid]. rewrite Hvalid.
      destruct (record_answer_details tpq q acc (answer s')
                  (time_time w (n_time c1) - time_time w (n_time c))%Q)
        as (ok & Hd & _).
      eexists _, _, _. split; [done|]. split; [exact Hd|]. simpl.
      destruct Hpost as [[_ ->]|(_ & -> & _)]; [by right | by left].
    + intros Ho. unfold py_index. rewrite Ho. simpl.
      eexists. by destruct (_ || _).
Qed.

(** The player presses ENTER at once on a question without options:
    the loop ends answered with index 0, and the question ends in
    [IndexError]. *)
Lemma few_options_loop_witness :
  (exists s' c',
     question_loop_drawn 40 80 q_none 30 0 init_state hasty_world
       {| n_time := 1; n_key := 0 |} = (Done s', c') /\
     ((answered s' = true /\ answer s' = Some 0) \/
      (answered s' = false /\ answer s' = None /\
       reached hasty_world 30 0 (n_time c' - 1)))) /\
  (exists c',
     play_question_drawn 40 80 30 q_none new_session hasty_world cursor0
       = (Raised IndexError, c')) /\
  try_handle_key q_none KEY_UP init_state = init_state.
Proof.
  destruct (few_options_loop hasty_world q_none 30 80)
    as (_ & Hmove & Hends & Hafter).
  { simpl. lia. }
  { intros H. discriminate H. }
  split; [|split].
  - apply (Hends 30%nat 40%nat 0%Q {| n_time := 1; n_key := 0 |}); [lia | reflexivity].
  - destruct (Hafter 30%nat 40%nat new_session cursor0) as [_ Hnone];
      [lia | reflexivity |].
    by apply Hnone.
  - apply Hmove; [reflexivity | by left].
Defined.

(** A question without options is accepted by [load_quiz_config].  When
    it is played, UP raises [ZeroDivisionError] inside the [try] and is
    ignored, the letter a is ignored by its guard, ENTER commits index
    0 all the same, and whether the question is answered or times out
    the result screen is never reached: [play_game] ends in
    [IndexError] and no detail is recorded. *)
Example no_option_question_runs :
  load_quiz_config (ConfigJson config_no_options) = Done (empty_metadata, [q_none]) /\
  handle_key q_none KEY_UP init_state = Raised ZeroDivisionError /\
  try_handle_key q_none KEY_UP init_state = init_state /\
  handle_key q_none ord_a init_state = Done init_state /\
  handle_key q_none ord_newline init_state =
    Done {| selected_idx := 0; answered := true; answer := Some 0 |} /\
  play_question_drawn 40 80 30 q_none new_session hasty_world cursor0 =
    (Raised IndexError, {| n_time := 3; n_key := 1 |}) /\
  play_question_drawn 40 80 30 q_none new_session idle_world cursor0 =
    (Raised IndexError, {| n_time := 4; n_key := 1 |}) /\
  play_game 40 80 meta30 (fun i => i) [q_none] "t" alice ∅ game_world cursor0 =
    (Raised IndexError, ∅, {| n_time := 4; n_key := 3 |}).
Proof. repeat split; vm_compute; reflexivity. Qed.

(** The same keys on a question with one option: the answer 0 is
    recorded and the game goes on. *)
Example one_option_question_runs :
  handle_key q_one KEY_UP init_state = Done init_state /\
  play_question_drawn 40 80 30 q_one new_session hasty_world cursor0 =
    (Done {| total_time := 2; correct_answers := 1;
             question_details :=
               [{| question_id := 2; question_text := "yes?";
                   d_options := ["yes"%string]; correct_answer := 0;
                   player_answer := Some 0; is_correct := true;
                   time_taken := 2; timed_out := false |}] |},
     {| n_time := 3; n_key := 1 |}).
Proof. repeat split; vm_compute; reflexivity. Qed.

(** ** A whole session *)

Lemma count_correct_cons (d : QuestionDetail) (ds : list QuestionDetail) :
  count_correct (d :: ds) = (if is_correct d then 1 else 0) + count_correct ds.
Proof.
  unfold count_correct, len. simpl. destruct (is_correct d); simpl; lia.
Qed.

Lemma play_question_detail (fuel : nat) (tpq : Q) (q : Question) (acc acc' : Session)
    (w : World) (c c' : Cursor) :
  play_question fuel tpq q acc w c = (Done acc', c') ->
  exists d,
    question_details acc' = question_details acc ++ [d] /\
    correct_answers acc' = correct_answers acc + (if is_correct d then 1 else 0) /\
    total_time acc' = (total_time acc + charged tpq d)%Q.
Proof.
  intros Hplay. apply play_question_inv in Hplay as (s & c1 & _ & ->).
  destruct (record_answer_details tpq q acc (answer s)
              (time_time w (n_time c1) - time_time w (n_time c))%Q)
    as (ok & Hd & _ & Hc & Ht).
  eexists. split; [exact Hd|]. split; [exact Hc | exact Ht].
Qed.

Lemma play_questions_totals (fuel : nat) (tpq : Q) (qs : list Question) :
  forall (acc acc' : Session) (w : World) (c c' : Cursor),
    play_questions fuel tpq qs acc w c = (Done acc', c') ->
    exists ds,
      question_details acc' = question_details acc ++ ds /\
      length ds = length qs /\
      correct_answers acc' = correct_answers acc + count_correct ds /\
      total_time acc' = fold_left Qplus (map (charged tpq) ds) (total_time acc).
Proof.
  induction qs as [|q qs IH]; intros acc acc' w c c' Hrun.
  - injection Hrun as <- <-. exists []. rewrite app_nil_r.
    unfold count_correct, len. simpl. rewrite Z.add_0_r. done.
  - simpl in Hrun. unfold bind in Hrun.
    destruct (play_question fuel tpq q acc w c) as [[acc1| |] c1] eqn:Hq; try done.
    apply play_question_detail in Hq as (d & Hd & Hc & Ht).
    apply IH in Hrun as (ds & Hds & Hlen & Hcs & Hts).
    exists (d :: ds). rewrite Hds, Hd, <- app_assoc. split; [done|].
    split; [simpl; lia|]. split.
    + rewrite Hcs, Hc, count_correct_cons. lia.
    + rewrite Hts, Ht. done.
Qed.

Lemma sum_charged_no_timeout (tpq : Q) (ds : list QuestionDetail) (t0 : Q) :
  (forall d, d ∈ ds -> timed_out d = false) ->
  fold_left Qplus (map (charged tpq) ds) t0 = fold_left Qplus (map time_taken ds) t0.
Proof.
  revert t0. induction ds as [|d ds IH]; intros t0 Hall; [done|].
  simpl. unfold charged at 2. rewrite (Hall d) by set_solver.
  apply IH. intros d' Hd'. apply Hall. set_solver.
Qed.

(** C2, as the code has it: the score is the number of correct outcomes,
    and [total_time] is the sum, over the outcomes, of the time limit for
    a timed-out question and of [time_taken] for an answered one; it is
    the sum of [time_taken] when no question timed out. *)
Theorem session_totals (fuel : nat) (meta : Metadata) (questions : list Question)
    (player player' : Player) (w : World) (c c' : Cursor) :
  p_question_details player = [] ->
  play_session fuel meta questions player w c = (Done player', c') ->
  length (p_question_details player') = length questions /\
  p_score player' = count_correct (p_question_details player') /\
  p_total_time player' =
    sum_charged (get_default (m_time_per_question meta) 30%Q)
      (p_question_details player') /\
  ((forall d, d ∈ p_question_details player' -> timed_out d = false) ->
   p_total_time player' = sum_time_taken (p_question_details player')).
Proof.
  intros Hnew Hrun. unfold play_session, bind, ret in Hrun.
  destruct (play_questions _ _ _ _ _ _) as [[acc| |] c1] eqn:Hqs; try done.
  injection Hrun as <- <-. simpl.
  apply play_questions_totals in Hqs as (ds & Hds & Hlen & Hcs & Hts).
  simpl in Hds, Hcs, Hts. rewrite Hnew in Hds. simpl in Hds. rewrite Hds.
  split; [done|]. split; [lia|]. split; [done|].
  intros Hall. rewrite Hts. by apply sum_charged_no_timeout.
Qed.

Lemma session_totals_witness :
  exists player',
    play_session 40 meta30 [q_two; q_one] alice typing_world cursor0 =
      (Done player', {| n_time := 36; n_key := 31 |}) /\
    length (p_question_details player') = 2%nat /\
    p_score player' = count_correct (p_question_details player') /\
    p_total_time player' = sum_charged 30 (p_question_details player') /\
    ((forall d, d ∈ p_question_details player' -> timed_out d = false) ->
     p_total_time player' = sum_time_taken (p_question_details player')).
Proof.
  eexists. split; [vm_compute; reflexivity|].
  apply (session_totals 40 meta30 [q_two; q_one] alice _ typing_world cursor0
           {| n_time := 36; n_key := 31 |}).
  - reflexivity.
  - vm_compute. reflexivity.
Defined.

(** C2 as stated fails: in this one-question session no key is pressed;
    [total_time] is 30 while the recorded [time_taken] is 48. *)
Lemma session_sum_counterexample :
  exists player' c',
    play_session 5 meta30 [q_two] alice idle_world cursor0 = (Done player', c') /\
    p_score player' = count_correct (p_question_details player') /\
    ~ (sum_time_taken (p_question_details player') == p_total_time player')%Q.
Proof.
  eexists _, _. split; [vm_compute; reflexivity|].
  split; [reflexivity|].
  vm_compute. discriminate.
Qed.

(** ** Question selection *)

Section Sampling.

Context {A : Type}.

(** Taking slot [j] out of a list and putting [y] there instead. *)
Lemma pick_and_replace (l : list A) (j : nat) (x y : A) :
  l !! j = Some x -> x :: <[j := y]> l ≡ₚ y :: l.
Proof.
  revert j. induction l as [|a l IH]; intros j Hj; [done|].
  destruct j as [|j]; simpl in *.
  - injection Hj as ->. apply perm_swap.
  - rewrite perm_swap, (IH j Hj). apply perm_swap.
Qed.

(** One step of the pool algorithm keeps the multiset of the live pool. *)
Lemma pool_step (pool : list A) (m j : nat) (x y : A) :
  (j < m)%nat ->
  pool !! j = Some x ->
  pool !! (m - 1)%nat = Some y ->
  x :: take (m - 1) (<[j := y]> pool) ≡ₚ take m pool.
Proof.
  intros Hj Hx Hy.
  replace (take m pool) with (take (m - 1) pool ++ [y]).
  2:{ rewrite <- (take_S_r _ _ _ Hy). f_equal. lia. }
  destruct (decide (j = m - 1)%nat) as [->|Hne].
  - rewrite take_insert_ge by lia. simplify_eq.
    by rewrite Permutation_cons_append.
  - rewrite take_insert_lt by lia.
    rewrite (pick_and_replace (take (m - 1) pool) j x y).
    + by rewrite Permutation_cons_append.
    + rewrite lookup_take_lt by lia. done.
Qed.

Lemma sample_pool_spec (rnd : nat -> nat) (k : nat) :
  forall (i : nat) (pool : list A) (m : nat),
    (k <= m)%nat -> (m <= length pool)%nat ->
    length (sample_pool rnd i pool m k) = k /\
    sample_pool rnd i pool m k ⊆+ take m pool.
Proof.
  induction k as [|k IH]; intros i pool m Hk Hm.
  - split; [done|]. apply submseteq_nil_l.
  - simpl.
    assert (rnd i mod m < m)%nat as Hj by (apply Nat.mod_upper_bound; lia).
    destruct (lookup_lt_is_Some_2 pool (rnd i mod m)%nat) as [x Hx]; [lia|].
    destruct (lookup_lt_is_Some_2 pool (m - 1)%nat) as [y Hy]; [lia|].
    rewrite Hx, Hy.
    destruct (IH (S i) (<[(rnd i mod m)%nat := y]> pool) (m - 1)%nat) as [Hlen Hsub].
    { lia. }
    { rewrite length_insert. lia. }
    split; [simpl; by rewrite Hlen|].
    rewrite <- (pool_step pool m (rnd i mod m)%nat x y Hj Hx Hy).
    by apply submseteq_skip.
Qed.

Lemma submseteq_NoDup_l (l1 l2 : list A) : l1 ⊆+ l2 -> NoDup l2 -> NoDup l1.
Proof.
  intros Hsub Hnd. apply submseteq_Permutation in Hsub as [k Hk].
  rewrite Hk in Hnd. by apply NoDup_app in Hnd as [? _].
Qed.

Lemma random_sample_spec (rnd : nat -> nat) (population : list A) (k : Z) :
  0 <= k <= len population ->
  exists l,
    random_sample rnd population k = Done l /\
    len l = k /\ l ⊆+ population.
Proof.
  intros Hk. unfold random_sample, len in *.
  rewrite (proj2 (Z.ltb_ge _ _)), (proj2 (Z.ltb_ge _ _)) by lia. simpl.
  destruct (sample_pool_spec rnd (Z.to_nat k) 0 population (length population))
    as [Hlen Hsub]; [lia | lia |].
  eexists. split; [done|]. rewrite Hlen. split; [lia|].
  by rewrite firstn_all in Hsub.
Qed.

End Sampling.

(** The pool algorithm does not look at the elements of the pool. *)
Lemma sample_pool_fmap {A B : Type} (f : A -> B) (rnd : nat -> nat) (k : nat) :
  forall (i : nat) (pool : list A) (m : nat),
    sample_pool rnd i (f <$> pool) m k = f <$> sample_pool rnd i pool m k.
Proof.
  induction k as [|k IH]; intros i pool m; [done|].
  simpl. rewrite !list_lookup_fmap.
  destruct (pool !! (rnd i mod m)%nat) as [x|]; [|done]. simpl.
  destruct (pool !! (m - 1)%nat) as [y|]; [|done]. simpl.
  by rewrite <- list_fmap_insert, IH.
Qed.

Section SamplingPositions.

Context {A : Type}.

(** It uses the draws from number [i] on only. *)
Lemma sample_pool_ext (rnd1 rnd2 : nat -> nat) (k : nat) :
  forall (i : nat) (pool : list A) (m : nat),
    (forall x, (i <= x)%nat -> rnd1 x = rnd2 x) ->
    sample_pool rnd1 i pool m k = sample_pool rnd2 i pool m k.
Proof.
  induction k as [|k IH]; intros i pool m Hext; [done|].
  simpl. rewrite (Hext i) by lia.
  destruct (pool !! _) as [x|]; [|done].
  destruct (pool !! _) as [y|]; [|done].
  f_equal. apply IH. intros x' Hx'. apply Hext. lia.
Qed.

(** A list paired with the positions of its elements. *)
Lemma elem_of_zip_seq (l : list A) (j : nat) (x : A) :
  (j, x) ∈ zip (seq 0 (length l)) l <-> l !! j = Some x.
Proof.
  rewrite list_elem_of_lookup. split.
  - intros [i Hi]. apply lookup_zip_with_Some in Hi as (j' & x' & Heq & Hj & Hx).
    apply lookup_seq in Hj as [-> _]. by simplify_eq.
  - intros Hx. exists j. apply lookup_zip_with_Some. exists j, x.
    split; [done|]. split; [|done]. apply lookup_seq. split; [done|].
    by eapply lookup_lt_Some.
Qed.

(** Elements taken at distinct positions form a sub-multiset. *)
Lemma picked_submseteq (l : list A) (js : list nat) (xs : list A) :
  Forall2 (fun j x => l !! j = Some x) js xs -> NoDup js -> xs ⊆+ l.
Proof.
  intros Hpick Hnd.
  assert ((zip js xs).*1 = js) as Hfst
    by (apply fst_zip; by rewrite (Forall2_length _ _ _ Hpick)).
  assert ((zip js xs).*2 = xs) as Hsnd
    by (apply snd_zip; by rewrite (Forall2_length _ _ _ Hpick)).
  rewrite <- Hsnd, <- (snd_zip (seq 0 (length l)) l) at 1
    by (by rewrite length_seq).
  apply fmap_submseteq. apply NoDup_submseteq.
  - apply (NoDup_fmap_1 fst). by rewrite Hfst.
  - intros [j x] Hin. apply elem_of_zip_seq.
    clear Hfst Hsnd Hnd. induction Hpick as [|j' x' js xs Hjx Hrest IH].
    + by apply elem_of_nil in Hin.
    + simpl in Hin. apply elem_of_cons in Hin as [Heq|Hin]; [by simplify_eq|].
      by apply IH.
Qed.

(** The pool algorithm picks at distinct positions: the positions are
    what it returns on the list of all positions. *)
Lemma sample_pool_positions (rnd : nat -> nat) (l : list A) (k : nat) :
  (k <= length l)%nat ->
  NoDup (sample_pool rnd 0 (seq 0 (length l)) (length l) k) /\
  Forall2 (fun j x => l !! j = Some x)
    (sample_pool rnd 0 (seq 0 (length l)) (length l) k)
    (sample_pool rnd 0 l (length l) k).
Proof.
  intros Hk.
  set (pairs := zip (seq 0 (length l)) l).
  assert (length pairs = length l) as Hlen.
  { unfold pairs. rewrite length_zip, length_seq. lia. }
  assert (pairs.*1 = seq 0 (length l)) as Hfst
    by (apply fst_zip; by rewrite length_seq).
  assert (pairs.*2 = l) as Hsnd by (apply snd_zip; by rewrite length_seq).
  destruct (sample_pool_spec rnd k 0 pairs (length l)) as [_ Hsub]; [lia | lia |].
  rewrite take_ge in Hsub by lia.
  rewrite <- Hfst at 1 2. rewrite <- Hsnd at 3.
  rewrite !sample_pool_fmap.
  set (ps := sample_pool rnd 0 pairs (length l) k) in *.
  split.
  - eapply submseteq_NoDup_l; [by apply fmap_submseteq|].
    rewrite Hfst. apply NoDup_seq.
  - apply Forall2_fmap, Forall2_same_length_lookup. split; [done|].
    intros i [j x] [j' x'] H1 H2. simplify_eq. simpl.
    apply elem_of_zip_seq. eapply elem_of_submseteq; [|exact Hsub].
    by eapply list_elem_of_lookup_2.
Qed.

(** Every arrangement of distinct elements of the live pool is what the
    pool algorithm returns for some draws. *)
Lemma sample_pool_reachable (xs : list A) :
  forall (i : nat) (pool : list A) (m : nat),
    (m <= length pool)%nat ->
    NoDup (take m pool) ->
    NoDup xs ->
    (forall x, x ∈ xs -> x ∈ take m pool) ->
    exists rnd, sample_pool rnd i pool m (length xs) = xs.
Proof.
  induction xs as [|a xs IH]; intros i pool m Hm Hpool Hnd Hin.
  - by exists (fun _ => 0%nat).
  - apply NoDup_cons in Hnd as [Ha Hnd].
    destruct (proj1 (elem_of_take a m pool) (Hin a (list_elem_of_here _ _)))
      as (d & Hd & Hdm).
    destruct (lookup_lt_is_Some_2 pool (m - 1)%nat) as [y Hy]; [lia|].
    pose proof (pool_step pool m d a y Hdm Hd Hy) as Hstep.
    destruct (IH (S i) (<[d := y]> pool) (m - 1)%nat) as [rnd Hrnd].
    + rewrite length_insert. lia.
    + rewrite <- Hstep in Hpool. by apply NoDup_cons in Hpool as [_ ?].
    + done.
    + intros x Hx.
      assert (x ∈ a :: take (m - 1) (<[d := y]> pool)) as Hx'.
      { rewrite Hstep. apply Hin. by apply list_elem_of_further. }
      apply elem_of_cons in Hx' as [->|Hx']; [done | exact Hx'].
    + exists (fun x => if decide (x = i) then d else rnd x).
      simpl. rewrite decide_True by done.
      rewrite Nat.mod_small by done. rewrite Hd, Hy. f_equal.
      rewrite <- Hrnd at 2. apply sample_pool_ext.
      intros x Hx. by rewrite decide_False by lia.
Qed.

(** The set algorithm: a draw that is returned is new. *)
Lemma draw_fresh_spec (rnd : nat -> nat) (n : nat) (selected : gset nat)
    (fuel : nat) :
  forall (i j i' : nat),
    draw_fresh fuel rnd i n selected = Done (j, i') ->
    (j ∉ selected) /\ (i < i')%nat /\ j = (rnd (i' - 1) mod n)%nat.
Proof.
  induction fuel as [|fuel IH]; intros i j i' Hrun; [done|].
  simpl in Hrun. destruct (decide _) as [Hin|Hout].
  - apply IH in Hrun as (? & ? & ?). split; [done|]. split; [lia|done].
  - injection Hrun as <- <-. split; [done|]. split; [lia|].
    simpl. by rewrite Nat.sub_0_r.
Qed.

Lemma draw_fresh_no_raise (rnd : nat -> nat) (n : nat) (selected : gset nat)
    (fuel i : nat) (e : exn) :
  draw_fresh fuel rnd i n selected <> Raised e.
Proof.
  revert i. induction fuel as [|fuel IH]; intros i; [done|].
  simpl. destruct (decide _); [apply IH | done].
Qed.

(** A draw is returned as soon as a new position comes up. *)
Lemma draw_fresh_found (rnd : nat -> nat) (n : nat) (selected : gset nat) (d : nat) :
  forall (fuel i : nat),
    (d < fuel)%nat ->
    (rnd (i + d) mod n)%nat ∉ selected ->
    exists j i', draw_fresh fuel rnd i n selected = Done (j, i').
Proof.
  induction d as [|d IH]; intros fuel i Hf Hnew.
  - destruct fuel as [|fuel]; [lia|]. simpl.
    rewrite Nat.add_0_r in Hnew. rewrite decide_False by done. eauto.
  - destruct fuel as [|fuel]; [lia|]. simpl.
    destruct (decide _); [|eauto].
    apply IH; [lia|]. by rewrite Nat.add_succ_comm.
Qed.

(** Fewer than [n] chosen positions leave one of the first [n] free. *)
Lemma free_position (selected : gset nat) (n : nat) :
  (size selected < n)%nat -> exists j, (j < n)%nat /\ j ∉ selected.
Proof.
  intros Hsize.
  destruct (Forall_Exists_dec (fun j => j ∈ selected) (fun j => j ∉ selected)
              (fun j => decide (j ∈ selected)) (seq 0 n)) as [Hall|Hex].
  - exfalso.
    assert (set_seq (C:=gset nat) 0 n ⊆ selected) as Hsub.
    { intros j Hj. apply elem_of_set_seq in Hj.
      rewrite Forall_forall in Hall. apply Hall. apply elem_of_seq. lia. }
    apply subseteq_size in Hsub. rewrite size_set_seq in Hsub. lia.
  - apply Exists_exists in Hex as (j & Hj & Hout). exists j. split; [|done].
    apply elem_of_seq in Hj. lia.
Qed.

(** What the set algorithm returns was taken at distinct, new positions. *)
Lemma sample_set_spec (fuel : nat) (rnd : nat -> nat) (population : list A)
    (k : nat) :
  forall (i : nat) (selected : gset nat) (l : list A),
    sample_set fuel rnd i population selected k = Done l ->
    exists js,
      length js = k /\
      Forall2 (fun j x => population !! j = Some x) js l /\
      NoDup js /\
      (forall j, j ∈ js -> j ∉ selected).
Proof.
  induction k as [|k IH]; intros i selected l Hrun.
  - injection Hrun as <-. exists []. split; [done|]. split; [done|].
    split; [apply NoDup_nil_2|]. intros j Hj. by apply elem_of_nil in Hj.
  - simpl in Hrun.
    destruct (draw_fresh _ _ _ _ _) as [[j i']| |] eqn:Hdraw; [|done|done].
    destruct (population !! j) as [x|] eqn:Hx; [|done].
    destruct (sample_set _ _ _ _ _ _) as [l'| |] eqn:Hrest; [|done|done].
    injection Hrun as <-.
    apply draw_fresh_spec in Hdraw as (Hnew & _ & _).
    apply IH in Hrest as (js & Hlen & Hpick & Hnd & Hout).
    exists (j :: js). split; [simpl; by rewrite Hlen|].
    split; [by constructor|]. split.
    + apply NoDup_cons. split; [|done]. intros Hj. apply Hout in Hj.
      apply Hj, elem_of_union_l. by apply elem_of_singleton.
    + intros j' Hj'. apply elem_of_cons in Hj' as [->|Hj']; [done|].
      apply Hout in Hj'. intros Hsel. by apply Hj', elem_of_union_r.
Qed.

Lemma sample_set_no_raise (fuel : nat) (rnd : nat -> nat) (population : list A)
    (k : nat) (e : exn) :
  (0 < length population)%nat ->
  forall (i : nat) (selected : gset nat),
    sample_set fuel rnd i population selected k <> Raised e.
Proof.
  intros Hpos. induction k as [|k IH]; intros i selected; [done|].
  simpl.
  destruct (draw_fresh _ _ _ _ _) as [[j i']| |] eqn:Hdraw; [| |done].
  - apply draw_fresh_spec in Hdraw as (_ & _ & ->).
    destruct (lookup_lt_is_Some_2 population
                (rnd (i' - 1) mod length population)%nat) as [x ->].
    { apply Nat.mod_upper_bound. lia. }
    specialize (IH i' ({[(rnd (i' - 1) mod length population)%nat]} ∪ selected)).
    by destruct (sample_set _ _ _ _ _ _).
  - by apply draw_fresh_no_raise in Hdraw.
Qed.

(** The set algorithm returns when every position keeps coming up. *)
Lemma sample_set_terminates (fuel : nat) (rnd : nat -> nat) (population : list A)
    (k : nat) :
  draws_cover rnd (length population) fuel ->
  forall (i : nat) (selected : gset nat),
    (size selected + k <= length population)%nat ->
    exists l, sample_set fuel rnd i population selected k = Done l.
Proof.
  intros Hcover. induction k as [|k IH]; intros i selected Hsize; [by eexists|].
  simpl.
  destruct (free_position selected (length population)) as (j0 & Hj0 & Hnew);
    [lia|].
  destruct (Hcover i j0 Hj0) as (d & Hd & Hdraw).
  destruct (draw_fresh_found rnd (length population) selected d fuel i Hd)
    as (j & i' & Hfresh); [by rewrite Hdraw|].
  rewrite Hfresh.
  apply draw_fresh_spec in Hfresh as (Hj & _ & Heq).
  destruct (lookup_lt_is_Some_2 population j) as [x ->].
  { rewrite Heq. apply Nat.mod_upper_bound. lia. }
  destruct (IH i' ({[j]} ∪ selected)) as [l ->]; [|by eexists].
  rewrite size_union by set_solver. rewrite size_singleton. lia.
Qed.

(** Every arrangement of distinct new positions is what the set
    algorithm returns when the draws are these positions. *)
Lemma sample_set_reachable (fuel : nat) (rnd : nat -> nat) (population : list A)
    (js : list nat) :
  forall (xs : list A) (i : nat) (selected : gset nat),
    Forall2 (fun j x => population !! j = Some x) js xs ->
    NoDup js ->
    (forall j, j ∈ js -> j ∉ selected) ->
    (forall t j, js !! t = Some j ->
       (rnd (i + t) mod length population)%nat = j) ->
    sample_set (S fuel) rnd i population selected (length js) = Done xs.
Proof.
  induction js as [|j js IH]; intros xs i selected Hpick Hnd Hnew Hdraws.
  - by apply Forall2_nil_inv_l in Hpick as ->.
  - apply Forall2_cons_inv_l in Hpick as (x & xs' & Hx & Hpick & ->).
    apply NoDup_cons in Hnd as [Hj Hnd].
    cbn [length sample_set draw_fresh].
    pose proof (Hdraws 0%nat j eq_refl) as H0. rewrite Nat.add_0_r in H0.
    rewrite H0. rewrite decide_False by (apply Hnew, list_elem_of_here).
    rewrite Hx. rewrite (IH xs' (S i) ({[j]} ∪ selected)); [done|done|done| |].
    + intros j' Hj' Hsel.
      apply elem_of_union in Hsel as [Hsel|Hsel].
      * apply elem_of_singleton in Hsel as ->. done.
      * by apply (Hnew j' (list_elem_of_further _ _ _ Hj')).
    + intros t j' Ht. rewrite Nat.add_succ_comm. by apply (Hdraws (S t)).
Qed.

(** The first pick of either algorithm is at the first draw. *)
Lemma sample_pool_head (rnd : nat -> nat) (l : list A) (k : nat) :
  (0 < k <= length l)%nat ->
  head (sample_pool rnd 0 l (length l) k) = l !! (rnd 0%nat mod length l)%nat.
Proof.
  intros Hk. destruct k as [|k]; [lia|]. simpl.
  destruct (lookup_lt_is_Some_2 l (rnd 0%nat mod length l)%nat) as [x ->].
  { apply Nat.mod_upper_bound. lia. }
  destruct (lookup_lt_is_Some_2 l (length l - 1)%nat) as [y ->]; [lia|]. done.
Qed.

Lemma sample_set_head (fuel : nat) (rnd : nat -> nat) (l xs : list A) (k : nat) :
  (0 < k)%nat ->
  sample_set fuel rnd 0 l ∅ k = Done xs ->
  head xs = l !! (rnd 0%nat mod length l)%nat.
Proof.
  intros Hk Hrun. destruct k as [|k]; [lia|]. simpl in Hrun.
  destruct fuel as [|fuel]; [done|]. simpl in Hrun.
  rewrite decide_False in Hrun by set_solver.
  destruct (l !! _) as [x|]; [|done].
  destruct (sample_set _ _ _ _ _ _); [|done|done].
  by injection Hrun as <-.
Qed.

End SamplingPositions.

Lemma setsize_ge (k : Z) : 21 <= setsize k.
Proof.
  unfold setsize. destruct (5 <? k); [|lia].
  pose proof (Z.pow_nonneg 4 ((Z.log2_up (3 * k) + 1) / 2)). lia.
Qed.

(** For a bank of at most 21 questions the selection is made by the
    pool algorithm, whatever the count. *)
Lemma select_random_questions_small (fuel : nat) (meta : Metadata)
    (rnd : nat -> nat) (bank : list Question) :
  len bank <= 21 ->
  select_random_questions_full fuel meta rnd bank =
  select_random_questions meta rnd bank.
Proof.
  intros Hsmall.
  unfold select_random_questions_full, select_random_questions, sample,
    random_sample, questions_per_game.
  destruct (_ <=? _); [done|]. destruct (_ || _); [done|].
  pose proof (setsize_ge (get_default (m_questions_per_game meta) 5)).
  by rewrite (proj2 (Z.leb_le _ _)) by lia.
Qed.

Lemma picked_at_all (bank : list Question) :
  picked_at bank (seq 0 (length bank)) bank.
Proof.
  apply Forall2_same_length_lookup. split; [by rewrite length_seq|].
  intros i j q Hj Hq. by apply lookup_seq in Hj as [-> _].
Qed.

Lemma picked_at_exists (bank : list Question) (js : list nat) :
  (forall j, j ∈ js -> (j < length bank)%nat) ->
  exists qs, picked_at bank js qs.
Proof.
  induction js as [|j js IH]; intros Hjs; [exists []; constructor|].
  destruct (lookup_lt_is_Some_2 bank j) as [q Hq];
    [apply Hjs, list_elem_of_here|].
  destruct IH as [qs Hqs];
    [intros j' Hj'; by apply Hjs, list_elem_of_further|].
  exists (q :: qs). by constructor.
Qed.

(** C4: for a requested count that is not negative, the selection is the
    bank itself, in bank order, when the count is at least [N]; no
    exception is raised, and a selection is returned (from a bank of
    more than [setsize] questions: provided every position keeps coming
    up among the draws).  What is returned has exactly [min(count, N)]
    questions, taken at distinct positions of the bank, so without
    repeats when the bank has none.  A sample depends on the draws: its
    first question is the one at the first draw, and every arrangement
    of [count] distinct positions is the selection for some draws. *)
Theorem select_random_questions_spec (fuel : nat) (meta : Metadata)
    (rnd : nat -> nat) (bank : list Question) :
  1 <= len bank ->
  0 <= questions_per_game meta ->
  (len bank <= questions_per_game meta ->
     select_random_questions_full fuel meta rnd bank = Done bank) /\
  (forall e, select_random_questions_full fuel meta rnd bank <> Raised e) /\
  (len bank <= questions_per_game meta \/
   len bank <= setsize (questions_per_game meta) \/
   draws_cover rnd (length bank) fuel ->
     exists qs, select_random_questions_full fuel meta rnd bank = Done qs) /\
  (forall qs,
     select_random_questions_full fuel meta rnd bank = Done qs ->
     len qs = Z.min (questions_per_game meta) (len bank) /\
     (exists js, NoDup js /\ picked_at bank js qs) /\
     qs ⊆+ bank /\
     (NoDup bank -> NoDup qs) /\
     (1 <= questions_per_game meta < len bank ->
        head qs = bank !! (rnd 0%nat mod length bank)%nat)) /\
  (questions_per_game meta < len bank ->
   (0 < fuel)%nat ->
   forall js,
     NoDup js ->
     len js = questions_per_game meta ->
     (forall j, j ∈ js -> (j < length bank)%nat) ->
     exists rnd' qs,
       select_random_questions_full fuel meta rnd' bank = Done qs /\
       picked_at bank js qs).
Proof.
  intros HN Hcount. unfold select_random_questions_full.
  set (count := questions_per_game meta) in *.
  destruct (len bank <=? count) eqn:Hle.
  { apply Z.leb_le in Hle. split_and!; [done | done | by eauto | | lia].
    intros qs [= <-]. split; [lia|]. split.
    { exists (seq 0 (length bank)). split; [apply NoDup_seq | apply picked_at_all]. }
    split; [done|]. split; [done|]. lia. }
  apply Z.leb_gt in Hle. unfold sample, len in *.
  rewrite (proj2 (Z.ltb_ge _ _)), (proj2 (Z.ltb_ge _ _)) by lia. simpl.
  assert (Z.to_nat count <= length bank)%nat as Hk by lia.
  destruct (Z.of_nat (length bank) <=? setsize count) eqn:Hsmall.
  - (* the pool *)
    destruct (sample_pool_spec rnd (Z.to_nat count) 0 bank (length bank))
      as [Hlen Hsub]; [lia | lia |].
    rewrite take_ge in Hsub by lia.
    destruct (sample_pool_positions rnd bank (Z.to_nat count) Hk) as [Hnd Hpick].
    split_and!; [lia | done | by eauto | |].
    + intros qs [= <-]. split; [rewrite Hlen; lia|].
      split; [by eexists|]. split; [done|].
      split; [by apply submseteq_NoDup_l|].
      intros Hone. apply sample_pool_head. lia.
    + intros _ _ js Hnd' Hlen' Hjs.
      destruct (sample_pool_reachable js 0 (seq 0 (length bank)) (length bank))
        as [rnd' Hrnd'].
      * by rewrite length_seq.
      * rewrite take_ge by (by rewrite length_seq). apply NoDup_seq.
      * done.
      * intros j Hj. rewrite take_ge by (by rewrite length_seq).
        apply elem_of_seq. specialize (Hjs j Hj). lia.
      * exists rnd', (sample_pool rnd' 0 bank (length bank) (Z.to_nat count)).
        split; [done|].
        destruct (sample_pool_positions rnd' bank (Z.to_nat count) Hk) as [_ Hpick'].
        replace (Z.to_nat count) with (length js) in Hpick' |- * by lia.
        by rewrite Hrnd' in Hpick'.
  - (* the set of chosen positions *)
    assert (0 < length bank)%nat as Hpos by lia.
    split_and!; [lia | intros e; by apply sample_set_no_raise | | |].
    + intros [?|[Hs|Hcover]]; [lia | apply Z.leb_gt in Hsmall; lia |].
      apply sample_set_terminates; [done|]. rewrite size_empty. lia.
    + intros qs Hrun.
      destruct (sample_set_spec _ _ _ _ _ _ _ Hrun) as (js & Hlen & Hpick & Hnd & _).
      pose proof (Forall2_length _ _ _ Hpick) as Hlen2.
      pose proof (picked_submseteq _ _ _ Hpick Hnd) as Hsub.
      split; [lia|]. split; [by exists js|]. split; [done|].
      split; [by apply submseteq_NoDup_l|].
      intros Hone. eapply sample_set_head; [|exact Hrun]. lia.
    + intros _ Hfuel js Hnd' Hlen' Hjs.
      destruct (picked_at_exists bank js Hjs) as [qs Hqs].
      exists (fun t => default 0%nat (js !! t)), qs. split; [|done].
      destruct fuel as [|fuel]; [lia|].
      replace (Z.to_nat count) with (length js) by lia.
      apply sample_set_reachable; [done | done | set_solver |].
      intros t j Ht. simpl. rewrite Ht. simpl. apply Nat.mod_small.
      apply Hjs. by eapply list_elem_of_lookup_2.
Qed.

Lemma select_random_questions_spec_witness :
  select_random_questions_full 1 meta30 (fun i => (7 * i + 1)%nat) bank3
    = Done [q_one; q_two] /\
  (forall qs,
     select_random_questions_full 1 meta30 (fun i => (7 * i + 1)%nat) bank3
       = Done qs ->
     len qs = 2 /\
     (exists js, NoDup js /\ picked_at bank3 js qs) /\
     qs ⊆+ bank3 /\
     head qs = Some q_one) /\
  (exists rnd' qs,
     select_random_questions_full 1 meta30 rnd' bank3 = Done qs /\
     picked_at bank3 [2; 0]%nat qs).
Proof.
  destruct (select_random_questions_spec 1 meta30 (fun i => (7 * i + 1)%nat) bank3)
    as (_ & _ & _ & Hret & Hreach).
  { vm_compute. discriminate. }
  { vm_compute. discriminate. }
  split; [reflexivity|]. split.
  - intros qs Hrun. destruct (Hret qs Hrun) as (Hlen & Hpos & Hsub & _ & Hhead).
    split; [exact Hlen|]. split; [exact Hpos|]. split; [exact Hsub|].
    apply Hhead. split; [discriminate | reflexivity].
  - apply Hreach.
    + reflexivity.
    + lia.
    + apply NoDup_cons. split; [|apply NoDup_singleton].
      intros Hin. apply list_elem_of_singleton in Hin. discriminate Hin.
    + reflexivity.
    + intros j Hj. apply elem_of_cons in Hj as [->|Hj]; [simpl; lia|].
      apply list_elem_of_singleton in Hj as ->. simpl. lia.
Defined.

(** From a bank of 22 questions the positions are drawn by the set
    algorithm: the draws 3, 25, 5 give the positions 3 and 5, the second
    draw being position 3 again; two draws are not enough when the
    draws keep repeating. *)
Example select_from_large_bank :
  select_random_questions_full 2 meta30
    (fun i => match i with 0 => 3 | 1 => 25 | _ => 5 end)%nat bank22
    = Done [numbered 3; numbered 5] /\
  select_random_questions_full 2 meta30 (fun _ => 3%nat) bank22 = OutOfFuel.
Proof. split; vm_compute; reflexivity. Qed.

Example select_two_of_three :
  select_random_questions meta30 (fun i => (7 * i + 1)%nat) bank3
  = Done [q_one; q_two].
Proof. reflexivity. Qed.

(** A negative count is refused by [random.sample]. *)
Example select_negative_count :
  select_random_questions
    {| m_title := None; m_description := None; m_questions_per_game := Some (-1);
       m_time_per_question := None; m_scoreboard_file := None;
       m_stats_file := None |} (fun i => i) bank3
  = Raised ValueError.
Proof. reflexivity. Qed.

(** ** Ranking *)

Lemma Qlt_bool_iff (a b : Q) : Qlt_bool a b = true <-> (a < b)%Q.
Proof.
  unfold Qlt_bool. rewrite negb_true_iff, <- not_true_iff_false, Qle_bool_iff.
  split; [apply Qnot_le_lt | apply Qlt_not_le].
Qed.

Lemma key_lt_iff (a b : ScoreEntry) :
  key_lt (entry_key a) (entry_key b) = true <-> rank_lt a b.
Proof.
  unfold key_lt, entry_key, rank_lt. simpl.
  destruct (- e_score a =? - e_score b) eqn:He; simpl.
  - apply Z.eqb_eq in He. rewrite Qlt_bool_iff. split.
    + intros H. right. split; [lia | done].
    + intros [H|[_ H]]; [lia | done].
  - apply Z.eqb_neq in He. rewrite Z.ltb_lt. split.
    + intros H. left. lia.
    + intros [H|[H _]]; lia.
Qed.

Lemma key_lt_false_iff (a b : ScoreEntry) :
  key_lt (entry_key a) (entry_key b) = false <-> rank_le b a.
Proof.
  rewrite <- not_true_iff_false, key_lt_iff. unfold rank_lt, rank_le. split.
  - intros H.
    destruct (Z.lt_trichotomy (e_score a) (e_score b)) as [Hs|[Hs|Hs]].
    + by left.
    + right. split; [done|]. apply Qnot_lt_le. intros Hq. apply H. by right.
    + exfalso. apply H. by left.
  - intros [H|[H1 H2]] [H'|[H1' H2']]; try lia.
    by apply Qle_not_lt in H2.
Qed.

Lemma rank_lt_le (a b : ScoreEntry) : rank_lt a b -> rank_le a b.
Proof.
  intros [H|[H1 H2]]; [by left | right]. split; [done | by apply Qlt_le_weak].
Qed.

Lemma rank_le_refl (a : ScoreEntry) : rank_le a a.
Proof. right. split; [done | apply Qle_refl]. Qed.

Lemma rank_le_trans (a b c : ScoreEntry) : rank_le a b -> rank_le b c -> rank_le a c.
Proof.
  intros [H|[H1 H2]] [H'|[H1' H2']]; unfold rank_le; try (left; lia).
  right. split; [lia | by eapply Qle_trans].
Qed.

(** Two entries that rank no later than each other have the same key. *)
Lemma rank_le_antisym (a b : ScoreEntry) :
  rank_le a b -> rank_le b a ->
  e_score a = e_score b /\ (e_total_time a == e_total_time b)%Q.
Proof.
  intros [H|[H1 H2]] [H'|[H1' H2']]; try lia.
  split; [done | by apply Qle_antisym].
Qed.

Lemma same_key_iff (a b : ScoreEntry) :
  same_key a b = true <->
  e_score a = e_score b /\ (e_total_time a == e_total_time b)%Q.
Proof.
  unfold same_key. by rewrite andb_true_iff, Z.eqb_eq, Qeq_bool_iff.
Qed.

Lemma insert_by_key_perm (x : ScoreEntry) (l : list ScoreEntry) :
  insert_by_key x l ≡ₚ x :: l.
Proof.
  induction l as [|y l IH]; [done|]. simpl.
  destruct (key_lt _ _); [|done]. rewrite IH. apply perm_swap.
Qed.

Lemma sort_entries_perm (l : list ScoreEntry) : sort_entries l ≡ₚ l.
Proof.
  induction l as [|x l IH]; [done|]. simpl.
  by rewrite insert_by_key_perm, IH.
Qed.

Lemma insert_by_key_sorted (x : ScoreEntry) (l : list ScoreEntry) :
  StronglySorted rank_le l -> StronglySorted rank_le (insert_by_key x l).
Proof.
  induction l as [|y l IH]; intros Hs; simpl.
  - constructor; [constructor | done].
  - apply StronglySorted_inv in Hs as [Hs Hy].
    destruct (key_lt _ _) eqn:Hk.
    + apply key_lt_iff, rank_lt_le in Hk.
      constructor; [by apply IH|].
      rewrite insert_by_key_perm. by constructor.
    + apply key_lt_false_iff in Hk.
      constructor; [by constructor|].
      constructor; [done|].
      eapply Forall_impl; [exact Hy|]. intros z Hz. by eapply rank_le_trans.
Qed.

Lemma sort_entries_sorted (l : list ScoreEntry) :
  StronglySorted rank_le (sort_entries l).
Proof.
  induction l as [|x l IH]; simpl; [constructor | by apply insert_by_key_sorted].
Qed.

(** Insertion only moves [x] past entries whose key differs from its own,
    so the entries of any one key keep their order. *)
Lemma insert_by_key_filter (k x : ScoreEntry) (l : list ScoreEntry) :
  List.filter (same_key k) (insert_by_key x l) = List.filter (same_key k) (x :: l).
Proof.
  induction l as [|y l IH]; [done|].
  cbn [insert_by_key]. destruct (key_lt _ _) eqn:Hk; [|done].
  cbn [List.filter]. rewrite IH. cbn [List.filter].
  destruct (same_key k y) eqn:Hy, (same_key k x) eqn:Hx; try done.
  exfalso. apply same_key_iff in Hy as [Hy1 Hy2], Hx as [Hx1 Hx2].
  apply key_lt_iff in Hk as [Hk|[_ Hk]]; [lia|].
  rewrite <- Hy2, <- Hx2 in Hk. by apply Qlt_irrefl in Hk.
Qed.

Lemma sort_entries_stable (k : ScoreEntry) (l : list ScoreEntry) :
  List.filter (same_key k) (sort_entries l) = List.filter (same_key k) l.
Proof.
  induction l as [|x l IH]; [done|].
  cbn [sort_entries foldr]. fold (sort_entries l).
  rewrite insert_by_key_filter. cbn [List.filter]. by rewrite IH.
Qed.

Lemma entries_of_scores (es : list ScoreEntry) : entries_of (map RScore es) = Done es.
Proof. induction es as [|e es IH]; [done|]. simpl. by rewrite IH. Qed.

Lemma sorted_scores_entries (es : list ScoreEntry) :
  sorted_scores (map RScore es) = Done (sort_entries es).
Proof. unfold sorted_scores. by rewrite entries_of_scores. Qed.

(** The first entry of the sorted list is a best entry. *)
Lemma sort_entries_head (es : list ScoreEntry) (best : ScoreEntry)
    (rest : list ScoreEntry) :
  sort_entries es = best :: rest -> is_best best es.
Proof.
  intros Hsort.
  pose proof (sort_entries_perm es) as Hperm.
  pose proof (sort_entries_sorted es) as Hs.
  rewrite Hsort in Hperm, Hs. apply StronglySorted_inv in Hs as [_ Hall].
  split.
  - rewrite <- Hperm. set_solver.
  - intros e He. rewrite <- Hperm in He.
    apply elem_of_cons in He as [->|He]; [apply rank_le_refl|].
    rewrite Forall_forall in Hall. by apply Hall.
Qed.

Lemma is_best_same (es : list ScoreEntry) (b1 b2 : ScoreEntry) :
  is_best b1 es -> is_best b2 es ->
  e_score b1 = e_score b2 /\ (e_total_time b1 == e_total_time b2)%Q.
Proof.
  intros [H1 H1'] [H2 H2']. apply rank_le_antisym; auto.
Qed.

(** C5: the high-score test is true exactly when the scoreboard is empty,
    or the player's score exceeds that of the best entry, or equals it
    with a strictly lower total time. *)
Theorem high_score_predicate (player : Player) (es : list ScoreEntry) :
  exists b,
    is_high_score player (map RScore es) = Done b /\
    (b = true <->
     es = [] \/
     exists best, is_best best es /\
       (e_score best < p_score player \/
        (p_score player = e_score best /\
         (p_total_time player < e_total_time best)%Q))).
Proof.
  destruct es as [|e0 es'].
  { exists true. split; [done|]. split; [by left | done]. }
  set (es := e0 :: es').
  assert (exists best rest, sort_entries es = best :: rest) as (best & rest & Hsort).
  { destruct (sort_entries es) as [|b r] eqn:Hs; [|eauto].
    pose proof (sort_entries_perm es) as Hp. rewrite Hs in Hp.
    by apply Permutation_nil_l in Hp. }
  pose proof (sort_entries_head es best rest Hsort) as Hbest.
  assert (is_high_score player (map RScore es) =
          Done ((e_score best <? p_score player)
                || ((p_score player =? e_score best)
                    && Qlt_bool (p_total_time player) (e_total_time best)))) as Hrun.
  { unfold is_high_score. rewrite sorted_scores_entries, Hsort. simpl.
    destruct (e_score best <? p_score player); [done|]. simpl.
    by destruct (_ && _). }
  eexists. split; [exact Hrun|].
  rewrite orb_true_iff, andb_true_iff, Z.ltb_lt, Z.eqb_eq, Qlt_bool_iff.
  split.
  - intros H. right. exists best. by split.
  - intros [H|(b' & Hb' & H)]; [done|].
    destruct (is_best_same es best b' Hbest Hb') as [Hs Ht].
    rewrite Hs, Ht. done.
Qed.

(** The three cases of the high-score test given with the specification. *)
Example high_score_empty :
  is_high_score
    {| p_name := "p"; p_email := ""; p_marketing_consent := false; p_score := 3;
       p_total_time := 20; p_timestamp := ""; p_question_details := [] |} []
  = Done true.
Proof. reflexivity. Qed.

Example high_score_faster :
  is_high_score
    {| p_name := "p"; p_email := ""; p_marketing_consent := false; p_score := 3;
       p_total_time := 10; p_timestamp := ""; p_question_details := [] |}
    [RScore (entry "best" 3 15)]
  = Done true.
Proof. reflexivity. Qed.

Example high_score_slower :
  is_high_score
    {| p_name := "p"; p_email := ""; p_marketing_consent := false; p_score := 3;
       p_total_time := 20; p_timestamp := ""; p_question_details := [] |}
    [RScore (entry "best" 3 15)]
  = Done false.
Proof. reflexivity. Qed.

(** C6: the ranking is the first [limit] entries of the scores sorted by
    descending score, then ascending total time; entries with the same
    score and time keep their order of insertion. *)
Theorem rankings_sorted_stable (limit : nat) (es : list ScoreEntry) :
  exists sorted,
    top_scores limit (map RScore es) = Done (take limit sorted) /\
    (length (take limit sorted) <= limit)%nat /\
    sorted ≡ₚ es /\
    StronglySorted rank_le sorted /\
    (forall k, List.filter (same_key k) sorted = List.filter (same_key k) es) /\
    display_scoreboard_rows (map RScore es) = Done (take 10 sorted) /\
    display_top5_rows (map RScore es) = Done (take 5 sorted) /\
    top_scores 10 [RScore (entry "a" 5 10); RScore (entry "b" 5 8);
                   RScore (entry "c" 3 1)]
    = Done [entry "b" 5 8; entry "a" 5 10; entry "c" 3 1].
Proof.
  exists (sort_entries es).
  unfold display_scoreboard_rows, display_top5_rows, top_scores.
  rewrite sorted_scores_entries.
  split; [done|]. split; [rewrite length_take; lia|].
  split; [apply sort_entries_perm|]. split; [apply sort_entries_sorted|].
  split; [intros k; apply sort_entries_stable|]. done.
Qed.

(** Equal keys: the earlier entry stays first. *)
Example ranking_keeps_insertion_order :
  top_scores 10 [RScore (entry "first" 5 8); RScore (entry "low" 3 1);
                 RScore (entry "second" 5 8)]
  = Done [entry "first" 5 8; entry "second" 5 8; entry "low" 3 1].
Proof. reflexivity. Qed.

(** ** The stores *)

Section Stores.

Variables (meta : Metadata) (now_iso : string) (questions : list Question)
          (player : Player).

Lemma save_score_loaded (fs : FS) (d : Scoreboard) :
  load_scoreboard fs (scoreboard_path meta) = Done d ->
  save_score meta now_iso player fs =
    Done (<[scoreboard_path meta :=
              written_scoreboard meta now_iso player (get_scores d)]> fs).
Proof. intros H. unfold save_score. by rewrite H. Qed.

Lemma save_score_raises (fs : FS) (e : exn) :
  load_scoreboard fs (scoreboard_path meta) = Raised e ->
  save_score meta now_iso player fs = Raised e.
Proof. intros H. unfold save_score. by rewrite H. Qed.

Lemma record_session_raises (fs : FS) (e : exn) :
  load_scoreboard fs (scoreboard_path meta) = Raised e ->
  record_session meta now_iso questions player fs = (Raised e, fs).
Proof. intros H. unfold record_session, show_game_over. by rewrite H. Qed.

End Stores.

(** C7, as the code has it: a missing store is read as the empty
    collection and recording writes the collection holding the new entry
    alone; a scoreboard holding an object or a bare list, and a stats
    store holding a list, is rewritten with the new entry appended.  A
    store that is not JSON makes the read raise [JSONDecodeError], which
    nothing catches: for the scoreboard in [show_game_over], before
    anything is written; for the stats store in [save_game_stats], when
    [save_score] has already rewritten the scoreboard, the stats store
    being left as it was.  A stats store holding an object raises
    [AttributeError] at the same point. *)
Theorem record_with_missing_or_corrupt_store (meta : Metadata) (now_iso : string)
    (questions : list Question) (player : Player) (fs : FS) :
  (fs !! scoreboard_path meta = None ->
     (exists d, load_scoreboard fs (scoreboard_path meta) = Done d /\
                get_scores d = []) /\
     save_score meta now_iso player fs =
       Done (<[scoreboard_path meta := written_scoreboard meta now_iso player []]> fs)) /\
  (fs !! stats_path meta = None ->
     load_stats fs (stats_path meta) = Done (JList []) /\
     save_game_stats meta questions player fs =
       Done (<[stats_path meta :=
                 Json (JList [RStats (game_stats player questions)])]> fs)) /\
  (forall d, fs !! scoreboard_path meta = Some (Json (JDict d)) ->
     save_score meta now_iso player fs =
       Done (<[scoreboard_path meta :=
                 written_scoreboard meta now_iso player (get_scores d)]> fs)) /\
  (forall l, fs !! scoreboard_path meta = Some (Json (JList l)) ->
     save_score meta now_iso player fs =
       Done (<[scoreboard_path meta := written_scoreboard meta now_iso player l]> fs)) /\
  (forall l, fs !! stats_path meta = Some (Json (JList l)) ->
     save_game_stats meta questions player fs =
       Done (<[stats_path meta :=
                 Json (JList (l ++ [RStats (game_stats player questions)]))]> fs)) /\
  (forall d, fs !! stats_path meta = Some (Json (JDict d)) ->
     save_game_stats meta questions player fs = Raised AttributeError) /\
  (fs !! scoreboard_path meta = Some Corrupt ->
     load_scoreboard fs (scoreboard_path meta) = Raised JSONDecodeError /\
     show_game_over meta player fs = Raised JSONDecodeError /\
     save_score meta now_iso player fs = Raised JSONDecodeError /\
     record_session meta now_iso questions player fs = (Raised JSONDecodeError, fs)) /\
  (fs !! stats_path meta = Some Corrupt ->
     load_stats fs (stats_path meta) = Raised JSONDecodeError /\
     save_game_stats meta questions player fs = Raised JSONDecodeError /\
     forall d hs,
       scoreboard_path meta <> stats_path meta ->
       load_scoreboard fs (scoreboard_path meta) = Done d ->
       is_high_score player (get_scores d) = Done hs ->
       record_session meta now_iso questions player fs =
         (Raised JSONDecodeError,
          <[scoreboard_path meta :=
              written_scoreboard meta now_iso player (get_scores d)]> fs) /\
       (<[scoreboard_path meta :=
            written_scoreboard meta now_iso player (get_scores d)]> fs)
          !! stats_path meta = Some Corrupt) /\
  (fs !! scoreboard_path meta = None ->
   fs !! stats_path meta = None ->
   scoreboard_path meta <> stats_path meta ->
     record_session meta now_iso questions player fs =
       (Done true,
        <[stats_path meta := Json (JList [RStats (game_stats player questions)])]>
          (<[scoreboard_path meta := written_scoreboard meta now_iso player []]> fs))).
Proof.
  split_and!.
  - intros H. split.
    + eexists. unfold load_scoreboard. by rewrite H.
    + unfold save_score, load_scoreboard. by rewrite H.
  - intros H. unfold save_game_stats, load_stats. by rewrite H.
  - intros d H. apply save_score_loaded. unfold load_scoreboard. by rewrite H.
  - intros l H. unfold save_score, load_scoreboard. by rewrite H.
  - intros l H. unfold save_game_stats, load_stats. by rewrite H.
  - intros d H. unfold save_game_stats, load_stats. by rewrite H.
  - intros H.
    assert (load_scoreboard fs (scoreboard_path meta) = Raised JSONDecodeError)
      as Hload by (unfold load_scoreboard; by rewrite H).
    split; [done|]. split; [unfold show_game_over; by rewrite Hload|]. split.
    + by apply save_score_raises.
    + by apply record_session_raises.
  - intros H. split; [unfold load_stats; by rewrite H|].
    split; [unfold save_game_stats, load_stats; by rewrite H|].
    intros d hs Hne Hload Hhs.
    assert ((<[scoreboard_path meta :=
                 written_scoreboard meta now_iso player (get_scores d)]> fs)
              !! stats_path meta = Some Corrupt) as Hkept
      by (by rewrite lookup_insert_ne).
    split; [|exact Hkept].
    unfold record_session, show_game_over. rewrite Hload, Hhs.
    rewrite (save_score_loaded meta now_iso player fs d Hload).
    unfold save_game_stats, load_stats. by rewrite Hkept.
  - intros Hsb Hst Hne.
    unfold record_session, show_game_over, save_score, load_scoreboard.
    rewrite Hsb. simpl.
    unfold save_game_stats, load_stats.
    rewrite lookup_insert_ne by done. by rewrite Hst.
Qed.

Lemma record_with_missing_or_corrupt_store_witness :
  ((exists d, load_scoreboard ∅ (scoreboard_path meta30) = Done d /\
              get_scores d = []) /\
   save_score meta30 "t" alice ∅ =
     Done (<[scoreboard_path meta30 := written_scoreboard meta30 "t" alice []]> ∅)) /\
  (load_scoreboard fs_corrupt (scoreboard_path meta30) = Raised JSONDecodeError /\
   show_game_over meta30 alice fs_corrupt = Raised JSONDecodeError /\
   save_score meta30 "t" alice fs_corrupt = Raised JSONDecodeError /\
   record_session meta30 "t" [q_two] alice fs_corrupt
     = (Raised JSONDecodeError, fs_corrupt)) /\
  (record_session meta30 "t" [q_two] alice fs_stats_corrupt =
     (Raised JSONDecodeError,
      <[scoreboard_path meta30 := written_scoreboard meta30 "t" alice []]>
        fs_stats_corrupt) /\
   (<[scoreboard_path meta30 := written_scoreboard meta30 "t" alice []]>
      fs_stats_corrupt) !! stats_path meta30 = Some Corrupt) /\
  record_session meta30 "t" [q_two] alice ∅ =
    (Done true,
     <[stats_path meta30 := Json (JList [RStats (game_stats alice [q_two])])]>
       (<[scoreboard_path meta30 := written_scoreboard meta30 "t" alice []]> ∅)).
Proof.
  split; [|split; [|split]].
  - apply (record_with_missing_or_corrupt_store meta30 "t" [q_two] alice ∅).
    reflexivity.
  - apply (record_with_missing_or_corrupt_store meta30 "t" [q_two] alice fs_corrupt).
    reflexivity.
  - destruct (record_with_missing_or_corrupt_store meta30 "t" [q_two] alice
                fs_stats_corrupt) as (_ & _ & _ & _ & _ & _ & _ & Hstats & _).
    destruct Hstats as (_ & _ & Hrec); [reflexivity|].
    apply (Hrec {| quiz_title := None; quiz_description := None;
                   last_updated := None; scores := Some [] |} true).
    + discriminate.
    + reflexivity.
    + reflexivity.
  - apply (record_with_missing_or_corrupt_store meta30 "t" [q_two] alice ∅).
    + reflexivity.
    + reflexivity.
    + discriminate.
Defined.

(** C7 as stated fails: with a scoreboard file that is not JSON the read
    yields no collection at all, and recording raises before any write. *)
Lemma corrupt_store_counterexample :
  ~ (exists d, load_scoreboard fs_corrupt (scoreboard_path meta30) = Done d /\
               get_scores d = []) /\
  ~ (exists fs', save_score meta30 "t" alice fs_corrupt = Done fs') /\
  record_session meta30 "t" [q_two] alice fs_corrupt
    = (Raised JSONDecodeError, fs_corrupt).
Proof.
  assert (load_scoreboard fs_corrupt (scoreboard_path meta30)
          = Raised JSONDecodeError) as Hload by reflexivity.
  split; [|split].
  - intros (d & Hd & _). rewrite Hload in Hd. discriminate Hd.
  - intros (fs' & Hs). rewrite (save_score_raises _ _ _ _ _ Hload) in Hs.
    discriminate Hs.
  - by apply record_session_raises.
Qed.

(** ** The legacy scoreboard format *)

(** C9: a bare list of entries and the same entries under a metadata
    header load to the same scores, and recording a session rewrites
    both stores to the same document. *)
Theorem legacy_scoreboard_loads_identically (fs1 fs2 : FS) (path : string)
    (es : list row) (d : Scoreboard) :
  fs1 !! path = Some (Json (JList es)) ->
  fs2 !! path = Some (Json (JDict d)) ->
  scores d = Some es ->
  exists d1 d2,
    load_scoreboard fs1 path = Done d1 /\
    load_scoreboard fs2 path = Done d2 /\
    get_scores d1 = es /\
    get_scores d2 = es /\
    d1 = {| quiz_title := None; quiz_description := None;
            last_updated := None; scores := Some es |} /\
    (forall meta now_iso player, scoreboard_path meta = path ->
       save_score meta now_iso player fs1 =
         Done (<[path := written_scoreboard meta now_iso player es]> fs1) /\
       save_score meta now_iso player fs2 =
         Done (<[path := written_scoreboard meta now_iso player es]> fs2)).
Proof.
  intros H1 H2 Hd.
  assert (load_scoreboard fs1 path =
          Done {| quiz_title := None; quiz_description := None;
                  last_updated := None; scores := Some es |}) as Hl1.
  { unfold load_scoreboard. by rewrite H1. }
  assert (load_scoreboard fs2 path = Done d) as Hl2.
  { unfold load_scoreboard. by rewrite H2. }
  assert (get_scores d = es) as Hg by (unfold get_scores; by rewrite Hd).
  eexists _, _. split; [exact Hl1|]. split; [exact Hl2|].
  split; [done|]. split; [done|]. split; [done|].
  intros meta now_iso player <-. split.
  - by rewrite (save_score_loaded _ _ _ _ _ Hl1).
  - by rewrite (save_score_loaded _ _ _ _ _ Hl2), Hg.
Qed.

Lemma legacy_scoreboard_loads_identically_witness :
  exists d1 d2,
    load_scoreboard fs_legacy "scoreboard.json" = Done d1 /\
    load_scoreboard fs_wrapped "scoreboard.json" = Done d2 /\
    get_scores d1 = [RScore (entry "bob" 2 41)] /\
    get_scores d2 = [RScore (entry "bob" 2 41)] /\
    d1 = {| quiz_title := None; quiz_description := None; last_updated := None;
            scores := Some [RScore (entry "bob" 2 41)] |} /\
    (forall meta now_iso player, scoreboard_path meta = "scoreboard.json"%string ->
       save_score meta now_iso player fs_legacy =
         Done (<["scoreboard.json"%string :=
                   written_scoreboard meta now_iso player
                     [RScore (entry "bob" 2 41)]]> fs_legacy) /\
       save_score meta now_iso player fs_wrapped =
         Done (<["scoreboard.json"%string :=
                   written_scoreboard meta now_iso player
                     [RScore (entry "bob" 2 41)]]> fs_wrapped)).
Proof.
  apply (legacy_scoreboard_loads_identically fs_legacy fs_wrapped
           "scoreboard.json" [RScore (entry "bob" 2 41)] board_bob);
    reflexivity.
Defined.

(** ** Sessions complete *)

Lemma play_question_completes (fuel : nat) (tpq : Q) (q : Question) (acc : Session)
    (w : World) (c : Cursor) :
  clock_advances w tpq fuel ->
  valid_question q ->
  exists acc' c', play_question fuel tpq q acc w c = (Done acc', c').
Proof.
  intros Hclock [txt Hidx].
  destruct (Hclock (n_time c)) as (k & Hk & Hr).
  destruct (question_loop_terminates w q tpq (time_time w (n_time c)) k fuel
              init_state {| n_time := S (n_time c); n_key := n_key c |})
    as (s & c1 & Hrun & _); try done.
  rewrite (play_question_run _ _ _ acc _ _ _ _ Hrun), Hidx. eauto.
Qed.

Lemma play_questions_complete (fuel : nat) (tpq : Q) (w : World) (qs : list Question) :
  clock_advances w tpq fuel ->
  Forall valid_question qs ->
  forall acc c, exists acc' c',
    play_questions fuel tpq qs acc w c = (Done acc', c').
Proof.
  intros Hclock Hqs. induction Hqs as [|q qs Hq _ IH]; intros acc c.
  - by eexists _, _.
  - destruct (play_question_completes fuel tpq q acc w c Hclock Hq)
      as (acc1 & c1 & Hrun).
    destruct (IH acc1 c1) as (acc' & c' & Hrest).
    exists acc', c'. simpl. unfold bind. by rewrite Hrun.
Qed.

(** A session over valid questions ends, whatever the player types. *)
Lemma play_session_completes (fuel : nat) (meta : Metadata) (w : World)
    (qs : list Question) (player : Player) (c : Cursor) :
  clock_advances w (get_default (m_time_per_question meta) 30%Q) fuel ->
  Forall valid_question qs ->
  exists player' c', play_session fuel meta qs player w c = (Done player', c').
Proof.
  intros Hclock Hqs. unfold play_session, bind, ret.
  destruct (play_questions_complete fuel _ w qs Hclock Hqs
              {| total_time := 0%Q; correct_answers := 0;
                 question_details := p_question_details player |} c)
    as (acc & c1 & Hrun).
  rewrite Hrun. by eexists _, _.
Qed.

(** * Further properties *)

(** ** Keys of the question loop *)

(** X1: The digit keys 1-6 act as the letter keys a-f: digit [n + 1] commits
    index [n] when [n] is below the option count, which sets [answered]
    and stores [n] in [answer], and changes nothing otherwise. *)
Theorem digit_keys (q : Question) (s : LoopState) (n : Z) :
  0 <= n <= 5 ->
  handle_key q (ord_1 + n) s = handle_key q (ord_a + n) s /\
  (n < len (q_options q) ->
     handle_key q (ord_1 + n) s =
       Done {| selected_idx := selected_idx s; answered := true;
               answer := Some n |}) /\
  (len (q_options q) <= n -> handle_key q (ord_1 + n) s = Done s).
Proof.
  intros Hn.
  destruct (handle_key_letter q s n Hn) as [Ha _].
  pose proof (handle_key_digit q s n Hn) as Hd.
  split; [by rewrite Ha, Hd|]. split; intros Hlen; rewrite Hd.
  - by rewrite select_if_in_range.
  - by rewrite select_if_out_of_range.
Qed.

Lemma digit_keys_witness :
  handle_key q_two (ord_1 + 1) init_state = handle_key q_two (ord_a + 1) init_state /\
  handle_key q_two (ord_1 + 1) init_state =
    Done {| selected_idx := 0; answered := true; answer := Some 1 |} /\
  handle_key q_two (ord_1 + 2) init_state = Done init_state.
Proof.
  destruct (digit_keys q_two init_state 1) as (H1 & H2 & _); [lia|].
  destruct (digit_keys q_two init_state 2) as (_ & _ & H3); [lia|].
  split; [exact H1|]. split; [apply H2; reflexivity | apply H3; discriminate].
Defined.

(** X2: A key code outside the recognised ones changes nothing. *)
Theorem unrecognised_key_ignored (q : Question) (key : Z) (s : LoopState) :
  key ∉ recognised_keys ->
  handle_key q key s = Done s /\ try_handle_key q key s = s.
Proof.
  intros Hnot.
  assert (forall c, c ∈ recognised_keys -> (key =? c) = false) as Hf.
  { intros c Hc. apply Z.eqb_neq. intros ->. by apply Hnot. }
  assert (handle_key q key s = Done s) as Hk.
  { unfold handle_key, key_in, existsb.
    rewrite !Hf
      by (unfold recognised_keys;
          repeat first [apply list_elem_of_here | apply list_elem_of_further]).
    done. }
  split; [done|]. unfold try_handle_key. by rewrite Hk.
Qed.

Lemma unrecognised_key_ignored_witness :
  handle_key q_two 120 init_state = Done init_state /\
  try_handle_key q_two 120 init_state = init_state.
Proof.
  apply (unrecognised_key_ignored q_two 120 init_state).
  unfold recognised_keys. intros H.
  repeat (apply elem_of_cons in H as [H|H]; [discriminate H|]).
  by apply elem_of_nil in H.
Defined.

(** X3: With at least one option the arrow keys move the highlight by one
    position, wrapping at both ends; it stays an option index, and [DOWN]
    undoes [UP] and conversely. *)
Theorem arrow_keys_wrap (q : Question) (s : LoopState) :
  1 <= len (q_options q) ->
  0 <= selected_idx s < len (q_options q) ->
  exists up down,
    handle_key q KEY_UP s = Done (set_selected s up) /\
    handle_key q KEY_DOWN s = Done (set_selected s down) /\
    up = (if selected_idx s =? 0 then len (q_options q) - 1
          else selected_idx s - 1) /\
    down = (if selected_idx s =? len (q_options q) - 1 then 0
            else selected_idx s + 1) /\
    0 <= up < len (q_options q) /\
    0 <= down < len (q_options q) /\
    handle_key q KEY_DOWN (set_selected s up) = Done s /\
    handle_key q KEY_UP (set_selected s down) = Done s.
Proof.
  intros Hn Hsel. destruct s as [sel ans a]. simpl in Hsel.
  unfold set_selected. simpl. set (n := len (q_options q)) in *.
  assert ((n =? 0) = false) as Hn0 by (apply Z.eqb_neq; lia).
  assert (forall i, handle_key q KEY_UP
                      {| selected_idx := i; answered := ans; answer := a |}
                    = Done {| selected_idx := (i - 1) mod n;
                              answered := ans; answer := a |}) as Hup.
  { intros i. unfold handle_key, py_mod. fold n. simpl. by rewrite Hn0. }
  assert (forall i, handle_key q KEY_DOWN
                      {| selected_idx := i; answered := ans; answer := a |}
                    = Done {| selected_idx := (i + 1) mod n;
                              answered := ans; answer := a |}) as Hdown.
  { intros i. unfold handle_key, py_mod. fold n. simpl. by rewrite Hn0. }
  assert ((sel - 1) mod n = (if sel =? 0 then n - 1 else sel - 1)) as Hu.
  { destruct (sel =? 0) eqn:H0.
    - apply Z.eqb_eq in H0. rewrite H0.
      symmetry. apply (Z.mod_unique_pos _ _ (-1)); lia.
    - apply Z.eqb_neq in H0. apply Z.mod_small. lia. }
  assert ((sel + 1) mod n = (if sel =? n - 1 then 0 else sel + 1)) as Hd.
  { destruct (sel =? n - 1) eqn:H0.
    - apply Z.eqb_eq in H0. rewrite H0.
      symmetry. apply (Z.mod_unique_pos _ _ 1); lia.
    - apply Z.eqb_neq in H0. apply Z.mod_small. lia. }
  exists ((sel - 1) mod n), ((sel + 1) mod n).
  split; [apply Hup|]. split; [apply Hdown|].
  split; [done|]. split; [done|].
  split; [apply Z.mod_pos_bound; lia|]. split; [apply Z.mod_pos_bound; lia|].
  rewrite Hup, Hdown. split; do 2 f_equal.
  - rewrite Hu. destruct (sel =? 0) eqn:H0.
    + apply Z.eqb_eq in H0. rewrite H0.
      symmetry. apply (Z.mod_unique_pos _ _ 1); lia.
    + replace (sel - 1 + 1) with sel by lia. apply Z.mod_small. lia.
  - rewrite Hd. destruct (sel =? n - 1) eqn:H0.
    + apply Z.eqb_eq in H0. rewrite H0.
      symmetry. apply (Z.mod_unique_pos _ _ (-1)); lia.
    + replace (sel + 1 - 1) with sel by lia. apply Z.mod_small. lia.
Qed.

Lemma arrow_keys_wrap_witness :
  exists up down,
    handle_key q_three KEY_UP init_state = Done (set_selected init_state up) /\
    handle_key q_three KEY_DOWN init_state = Done (set_selected init_state down) /\
    up = (if selected_idx init_state =? 0 then len (q_options q_three) - 1
          else selected_idx init_state - 1) /\
    down = (if selected_idx init_state =? len (q_options q_three) - 1 then 0
            else selected_idx init_state + 1) /\
    0 <= up < len (q_options q_three) /\
    0 <= down < len (q_options q_three) /\
    handle_key q_three KEY_DOWN (set_selected init_state up) = Done init_state /\
    handle_key q_three KEY_UP (set_selected init_state down) = Done init_state.
Proof.
  apply (arrow_keys_wrap q_three init_state).
  - vm_compute. discriminate.
  - vm_compute. split; [discriminate | reflexivity].
Defined.

(** ** Invariants of the question loop *)

Lemma try_handle_key_in_range (q : Question) (key : Z) (s : LoopState) :
  1 <= len (q_options q) ->
  in_range q s -> in_range q (try_handle_key q key s).
Proof.
  intros Hn [Hsel Hans]. unfold try_handle_key.
  destruct (handle_key q key s) as [s'| |] eqn:Hk; [|done|done].
  revert Hk. unfold handle_key, select_if, py_mod.
  repeat case_match; intros [= <-]; simplify_eq;
    repeat match goal with
    | H : (_ <? _) = true |- _ => apply Z.ltb_lt in H
    end;
    try done;
    try (split; simpl; [lia | intros ? [= <-]; lia]);
    try (split; simpl; [apply Z.mod_pos_bound; lia | done]).
Qed.

Lemma question_loop_in_range (w : World) (q : Question) (tpq start_time : Q)
    (fuel : nat) :
  1 <= len (q_options q) ->
  forall (s s' : LoopState) (c c' : Cursor),
    in_range q s ->
    question_loop fuel q tpq start_time s w c = (Done s', c') ->
    in_range q s'.
Proof.
  intros Hn. induction fuel as [|fuel IH]; intros s s' c c' Hs Hrun.
  - simpl in Hrun. destruct (answered s); [|done].
    by injection Hrun as <- _.
  - destruct (answered s) eqn:Ha.
    + rewrite question_loop_answered in Hrun by done. by injection Hrun as <- _.
    + rewrite question_loop_step in Hrun by done.
      destruct (Qle_bool _ _).
      * by injection Hrun as <- _.
      * eapply IH; [|exact Hrun]. by apply try_handle_key_in_range.
Qed.

(** X4: For a question with at least one option, the answer recorded for it
    is always the index of one of its options. *)
Theorem answer_in_range (fuel : nat) (tpq : Q) (q : Question) (acc acc' : Session)
    (w : World) (c c' : Cursor) :
  1 <= len (q_options q) ->
  play_question fuel tpq q acc w c = (Done acc', c') ->
  exists d,
    question_details acc' = question_details acc ++ [d] /\
    forall a, player_answer d = Some a -> 0 <= a < len (q_options q).
Proof.
  intros Hn Hplay. apply play_question_inv in Hplay as (s & c1 & Hrun & ->).
  assert (in_range q s) as [_ Hans].
  { eapply question_loop_in_range; [done| |exact Hrun].
    split; [simpl; lia | done]. }
  destruct (record_answer_details tpq q acc (answer s)
              (time_time w (n_time c1) - time_time w (n_time c))%Q)
    as (ok & Hd & _).
  eexists. split; [exact Hd|]. simpl. done.
Qed.

Lemma answer_in_range_witness :
  exists d,
    question_details
      (record_answer 30 q_two new_session (Some 1) 3) =
      question_details new_session ++ [d] /\
    forall a, player_answer d = Some a -> 0 <= a < len (q_options q_two).
Proof.
  apply (answer_in_range 5 30 q_two new_session _ typing_world cursor0
           {| n_time := 4; n_key := 2 |}).
  - vm_compute. discriminate.
  - vm_compute. reflexivity.
Defined.

(** Turns the boolean tests on key codes in the context into facts on [Z]. *)
Ltac key_facts :=
  repeat match goal with
  | H : _ || _ = true |- _ => apply orb_true_iff in H as [H|H]
  | H : _ || _ = false |- _ => apply orb_false_iff in H as [? ?]
  | H : _ && _ = true |- _ => apply andb_true_iff in H as [? ?]
  | H : _ && _ = false |- _ => apply andb_false_iff in H as [H|H]
  | H : (_ =? _) = true |- _ => apply Z.eqb_eq in H
  | H : (_ =? _) = false |- _ => apply Z.eqb_neq in H
  | H : (_ <? _) = true |- _ => apply Z.ltb_lt in H
  | H : (_ <? _) = false |- _ => apply Z.ltb_ge in H
  | H : false = true |- _ => discriminate H
  | H : true = false |- _ => discriminate H
  end.

Lemma commit_test_false (n l key : Z) :
  (n <? l) && ((key =? 97 + n) || (key =? 65 + n) || (key =? 49 + n)) = false ->
  n < l -> key <> 97 + n /\ key <> 65 + n /\ key <> 49 + n.
Proof. intros H Hlt. key_facts; lia. Qed.

Lemma not_commit_key_keeps (q : Question) (key : Z) (s : LoopState) :
  is_commit_key q key = false ->
  answered s = false -> answer s = None ->
  answered (try_handle_key q key s) = false /\
  answer (try_handle_key q key s) = None.
Proof.
  intros Hc Ha Hn. unfold is_commit_key, existsb in Hc.
  unfold ord_newline, ord_space, ord_a, ord_A, ord_1 in Hc.
  rewrite !orb_false_iff in Hc.
  destruct Hc as [[He Hs] (C0 & C1 & C2 & C3 & C4 & C5 & _)].
  apply Z.eqb_neq in He, Hs.
  pose proof (commit_test_false _ _ _ C0) as D0.
  pose proof (commit_test_false _ _ _ C1) as D1.
  pose proof (commit_test_false _ _ _ C2) as D2.
  pose proof (commit_test_false _ _ _ C3) as D3.
  pose proof (commit_test_false _ _ _ C4) as D4.
  pose proof (commit_test_false _ _ _ C5) as D5.
  clear C0 C1 C2 C3 C4 C5.
  unfold try_handle_key, handle_key, select_if, key_in, existsb, py_mod.
  unfold KEY_UP, KEY_DOWN, ord_newline, ord_space, ord_a, ord_A, ord_1 in *.
  repeat case_match; simplify_eq; try done; exfalso; key_facts; lia.
Qed.

(** Keys that commit nothing never answer: the loop runs until the
    deadline with no answer set. *)
Lemma question_loop_no_commit (w : World) (q : Question) (tpq start_time : Q)
    (k : nat) :
  forall (fuel : nat) (s : LoopState) (c : Cursor),
    (k < fuel)%nat ->
    answered s = false -> answer s = None ->
    reached w tpq start_time (n_time c + k) ->
    (forall i, (i < k)%nat -> is_commit_key q (getch w (n_key c + i)) = false) ->
    exists s' c',
      question_loop fuel q tpq start_time s w c = (Done s', c') /\
      answer s' = None /\
      reached w tpq start_time (n_time c' - 1).
Proof.
  induction k as [|k IH]; intros fuel s c Hf Ha Hn Hr Hkeys.
  - destruct fuel as [|fuel]; [lia|].
    rewrite question_loop_step by done.
    rewrite Nat.add_0_r in Hr. unfold reached in Hr. rewrite Hr.
    eexists _, _. split; [done|]. split; [done|]. simpl. by rewrite Nat.sub_0_r.
  - destruct fuel as [|fuel]; [lia|].
    rewrite question_loop_step by done.
    destruct (Qle_bool _ _) eqn:Hd.
    + eexists _, _. split; [done|]. split; [done|]. simpl. by rewrite Nat.sub_0_r.
    + destruct (not_commit_key_keeps q (getch w (n_key c)) s) as [Ha' Hn']; try done.
      { rewrite <- (Nat.add_0_r (n_key c)). apply Hkeys. lia. }
      destruct (IH fuel (try_handle_key q (getch w (n_key c)) s)
                  {| n_time := S (n_time c); n_key := S (n_key c) |})
        as (s' & c' & Hrun & Hnone & Hpost); try done.
      { lia. }
      { unfold reached in *. simpl. by rewrite <- Nat.add_succ_r. }
      { intros i Hi. simpl. rewrite <- Nat.add_succ_r. apply Hkeys. lia. }
      by exists s', c'.
Qed.

(** X5: Whatever the player types, as long as no key read before the
    deadline is ENTER, the space bar or an in-range letter or digit, the
    question is recorded as timed out and costs the full time limit. *)
Theorem navigation_never_answers (w : World) (q : Question) (tpq : Q)
    (fuel k : nat) (acc : Session) (c : Cursor) (txt : string) :
  (k < fuel)%nat ->
  py_index (q_options q) (q_correct q) = Done txt ->
  reached w tpq (time_time w (n_time c)) (S (n_time c) + k) ->
  (forall i, (i < k)%nat -> is_commit_key q (getch w (n_key c + i)) = false) ->
  exists acc' c' d,
    play_question fuel tpq q acc w c = (Done acc', c') /\
    question_details acc' = question_details acc ++ [d] /\
    player_answer d = None /\
    is_correct d = false /\
    timed_out d = true /\
    correct_answers acc' = correct_answers acc /\
    total_time acc' = (total_time acc + tpq)%Q.
Proof.
  intros Hf Hidx Hr Hkeys.
  destruct (question_loop_no_commit w q tpq (time_time w (n_time c)) k fuel
              init_state {| n_time := S (n_time c); n_key := n_key c |})
    as (s' & c1 & Hrun & Hnone & _); try done.
  rewrite (play_question_run _ _ _ acc _ _ _ _ Hrun), Hidx, Hnone.
  eexists _, _, _. split; [done|]. simpl. done.
Qed.

Lemma navigation_never_answers_witness :
  exists acc' c' d,
    play_question 5 30 q_two new_session fidget_world cursor0 = (Done acc', c') /\
    question_details acc' = question_details new_session ++ [d] /\
    player_answer d = None /\
    is_correct d = false /\
    timed_out d = true /\
    correct_answers acc' = correct_answers new_session /\
    total_time acc' = (total_time new_session + 30)%Q.
Proof.
  apply (navigation_never_answers fidget_world q_two 30 5 1 new_session cursor0 "4").
  - lia.
  - reflexivity.
  - reflexivity.
  - intros i Hi. reflexivity.
Defined.

(** X6: ENTER or the space bar on the first frame, before any navigation,
    commits option 0: the detail records answer 0, which is correct
    exactly when the question's correct index is 0. *)
Theorem confirm_on_first_frame (w : World) (q : Question) (tpq : Q) (fuel : nat)
    (acc : Session) (c : Cursor) (txt : string) :
  (1 <= fuel)%nat ->
  py_index (q_options q) (q_correct q) = Done txt ->
  Qle_bool tpq (time_time w (S (n_time c)) - time_time w (n_time c)) = false ->
  getch w (n_key c) = ord_newline \/ getch w (n_key c) = ord_space ->
  exists acc' d,
    play_question fuel tpq q acc w c =
      (Done acc', {| n_time := S (S (S (n_time c))); n_key := S (n_key c) |}) /\
    question_details acc' = question_details acc ++ [d] /\
    player_answer d = Some 0 /\
    is_correct d = (0 =? q_correct q) /\
    timed_out d = false /\
    time_taken d = (time_time w (S (S (n_time c))) - time_time w (n_time c))%Q.
Proof.
  intros Hf Hidx Hclock Hkey.
  destruct fuel as [|fuel]; [lia|].
  assert (question_loop (S fuel) q tpq (time_time w (n_time c)) init_state w
            {| n_time := S (n_time c); n_key := n_key c |}
          = (Done (commit init_state 0),
             {| n_time := S (S (n_time c)); n_key := S (n_key c) |})) as Hrun.
  { rewrite question_loop_step by done. simpl. rewrite Hclock.
    assert (try_handle_key q (getch w (n_key c)) init_state = commit init_state 0)
      as -> by (destruct Hkey as [-> | ->]; reflexivity).
    by rewrite question_loop_answered. }
  rewrite (play_question_run _ _ _ acc _ _ _ _ Hrun), Hidx. simpl.
  destruct (record_answer_details tpq q acc (Some 0)
              (time_time w (S (S (n_time c))) - time_time w (n_time c))%Q)
    as (ok & Hd & Hok & _).
  eexists _, _. split; [done|]. split; [exact Hd|]. simpl. by rewrite Hok.
Qed.

Lemma confirm_on_first_frame_witness :
  exists acc' d,
    play_question 5 30 q_one new_session hasty_world cursor0 =
      (Done acc', {| n_time := 3; n_key := 1 |}) /\
    question_details acc' = question_details new_session ++ [d] /\
    player_answer d = Some 0 /\
    is_correct d = (0 =? q_correct q_one) /\
    timed_out d = false /\
    time_taken d = (time_time hasty_world 2 - time_time hasty_world 0)%Q.
Proof.
  apply (confirm_on_first_frame hasty_world q_one 30 5 new_session cursor0 "yes").
  - lia.
  - reflexivity.
  - reflexivity.
  - left. reflexivity.
Defined.

(** ** The recorded details *)

Lemma play_question_detail_for (fuel : nat) (tpq : Q) (q : Question)
    (acc acc' : Session) (w : World) (c c' : Cursor) :
  play_question fuel tpq q acc w c = (Done acc', c') ->
  exists d,
    question_details acc' = question_details acc ++ [d] /\
    detail_for q d /\
    correct_answers acc <= correct_answers acc' <= correct_answers acc + 1.
Proof.
  intros Hplay. apply play_question_inv in Hplay as (s & c1 & _ & ->).
  destruct (record_answer_details tpq q acc (answer s)
              (time_time w (n_time c1) - time_time w (n_time c))%Q)
    as (ok & Hd & Hok & Hc & _).
  eexists. split; [exact Hd|]. split.
  - unfold detail_for. simpl. by destruct (answer s).
  - rewrite Hc. destruct ok; lia.
Qed.

Lemma play_questions_details (fuel : nat) (tpq : Q) (qs : list Question) :
  forall (acc acc' : Session) (w : World) (c c' : Cursor),
    play_questions fuel tpq qs acc w c = (Done acc', c') ->
    exists ds,
      question_details acc' = question_details acc ++ ds /\
      Forall2 detail_for qs ds /\
      correct_answers acc <= correct_answers acc' <= correct_answers acc + len qs.
Proof.
  induction qs as [|q qs IH]; intros acc acc' w c c' Hrun.
  - injection Hrun as <- <-. exists []. rewrite app_nil_r.
    split; [done|]. split; [constructor|]. unfold len. simpl. lia.
  - simpl in Hrun. unfold bind in Hrun.
    destruct (play_question fuel tpq q acc w c) as [[acc1| |] c1] eqn:Hq; try done.
    apply play_question_detail_for in Hq as (d & Hd & Hfor & Hc).
    apply IH in Hrun as (ds & Hds & Hall & Hcs).
    exists (d :: ds). rewrite Hds, Hd, <- app_assoc. split; [done|].
    split; [by constructor|]. unfold len in *. simpl length.
    rewrite Nat2Z.inj_succ. lia.
Qed.

(** X7: A session records exactly one detail per question, in the order of
    the questions, each one carrying its question's id, text, options and
    correct index; the score lies between 0 and the number of questions. *)
Theorem session_details_follow_questions (fuel : nat) (meta : Metadata)
    (questions : list Question) (player player' : Player) (w : World)
    (c c' : Cursor) :
  p_question_details player = [] ->
  play_session fuel meta questions player w c = (Done player', c') ->
  Forall2 detail_for questions (p_question_details player') /\
  0 <= p_score player' <= len questions /\
  p_name player' = p_name player /\
  p_email player' = p_email player /\
  p_marketing_consent player' = p_marketing_consent player /\
  p_timestamp player' = p_timestamp player.
Proof.
  intros Hnew Hrun. unfold play_session, bind, ret in Hrun.
  destruct (play_questions _ _ _ _ _ _) as [[acc| |] c1] eqn:Hqs; try done.
  injection Hrun as <- <-. simpl.
  apply play_questions_details in Hqs as (ds & Hds & Hall & Hcs).
  simpl in Hds, Hcs. rewrite Hnew in Hds. simpl in Hds. rewrite Hds.
  split; [done|]. split; [lia|]. done.
Qed.

Lemma session_details_follow_questions_witness :
  exists player',
    play_session 40 meta30 [q_two; q_one] alice typing_world cursor0 =
      (Done player', {| n_time := 36; n_key := 31 |}) /\
    Forall2 detail_for [q_two; q_one] (p_question_details player') /\
    0 <= p_score player' <= len [q_two; q_one] /\
    p_name player' = p_name alice /\
    p_email player' = p_email alice /\
    p_marketing_consent player' = p_marketing_consent alice /\
    p_timestamp player' = p_timestamp alice.
Proof.
  eexists. split; [vm_compute; reflexivity|].
  apply (session_details_follow_questions 40 meta30 [q_two; q_one] alice _
           typing_world cursor0 {| n_time := 36; n_key := 31 |}).
  - reflexivity.
  - vm_compute. reflexivity.
Defined.

(** ** Writing and reading back the stores *)

(** X8: After [save_score], [load_scoreboard] returns the scores that were
    there before, in their order, followed by the new entry, under the
    header taken from the configuration; no other file is touched. *)
Theorem save_then_load_scoreboard (meta : Metadata) (now_iso : string)
    (player : Player) (fs : FS) (d : Scoreboard) :
  load_scoreboard fs (scoreboard_path meta) = Done d ->
  exists fs' d',
    save_score meta now_iso player fs = Done fs' /\
    load_scoreboard fs' (scoreboard_path meta) = Done d' /\
    get_scores d' = get_scores d ++ [RScore (player_data player)] /\
    quiz_title d' = Some (get_default (m_title meta) "Quiz"%string) /\
    quiz_description d' = Some (get_default (m_description meta) ""%string) /\
    last_updated d' = Some now_iso /\
    (forall p, p <> scoreboard_path meta -> fs' !! p = fs !! p).
Proof.
  intros Hload. eexists _, _.
  split; [by apply save_score_loaded|].
  split; [unfold load_scoreboard; by rewrite lookup_insert_eq|].
  split; [done|]. split; [done|]. split; [done|]. split; [done|].
  intros p Hp. by rewrite lookup_insert_ne.
Qed.

Lemma save_then_load_scoreboard_witness :
  exists fs' d',
    save_score meta30 "t" alice fs_legacy = Done fs' /\
    load_scoreboard fs' (scoreboard_path meta30) = Done d' /\
    get_scores d' = [RScore (entry "bob" 2 41)] ++ [RScore (player_data alice)] /\
    quiz_title d' = Some (get_default (m_title meta30) "Quiz"%string) /\
    quiz_description d' = Some (get_default (m_description meta30) ""%string) /\
    last_updated d' = Some "t"%string /\
    (forall p, p <> scoreboard_path meta30 -> fs' !! p = fs_legacy !! p).
Proof.
  apply (save_then_load_scoreboard meta30 "t" alice fs_legacy
           {| quiz_title := None; quiz_description := None; last_updated := None;
              scores := Some [RScore (entry "bob" 2 41)] |}).
  reflexivity.
Defined.

Lemma save_game_stats_loaded (meta : Metadata) (questions : list Question)
    (player : Player) (fs : FS) (l : list row) :
  load_stats fs (stats_path meta) = Done (JList l) ->
  save_game_stats meta questions player fs =
    Done (<[stats_path meta := written_stats questions player l]> fs).
Proof. intros H. unfold save_game_stats. by rewrite H. Qed.

(** X9: After [save_game_stats], [load_stats] returns the records that were
    there before, in their order, followed by the record of this session;
    no other file is touched. *)
Theorem save_then_load_stats (meta : Metadata) (questions : list Question)
    (player : Player) (fs : FS) (l : list row) :
  load_stats fs (stats_path meta) = Done (JList l) ->
  exists fs',
    save_game_stats meta questions player fs = Done fs' /\
    load_stats fs' (stats_path meta) =
      Done (JList (l ++ [RStats (game_stats player questions)])) /\
    (forall p, p <> stats_path meta -> fs' !! p = fs !! p).
Proof.
  intros Hload. eexists.
  split; [by apply save_game_stats_loaded|].
  split; [unfold load_stats; by rewrite lookup_insert_eq|].
  intros p Hp. by rewrite lookup_insert_ne.
Qed.

Lemma save_then_load_stats_witness :
  exists fs',
    save_game_stats meta30 [q_two] alice ∅ = Done fs' /\
    load_stats fs' (stats_path meta30) =
      Done (JList ([] ++ [RStats (game_stats alice [q_two])])) /\
    (forall p, p <> stats_path meta30 -> fs' !! p = (∅ : FS) !! p).
Proof.
  apply (save_then_load_stats meta30 [q_two] alice ∅ []). reflexivity.
Defined.

(** A stats file that holds a JSON object instead of a list makes
    [save_game_stats] raise [AttributeError]; nothing is written. *)
Theorem stats_store_object_rejected (meta : Metadata) (questions : list Question)
    (player : Player) (fs : FS) (d : Scoreboard) :
  fs !! stats_path meta = Some (Json (JDict d)) ->
  save_game_stats meta questions player fs = Raised AttributeError.
Proof. intros H. unfold save_game_stats, load_stats. by rewrite H. Qed.

Lemma stats_store_object_rejected_witness :
  save_game_stats meta_same_file [q_two] alice
    {[ "data.json"%string := Json (JDict board_bob) ]} = Raised AttributeError.
Proof.
  apply (stats_store_object_rejected meta_same_file [q_two] alice _ board_bob).
  reflexivity.
Defined.

(** ** Recording a session *)

Lemma record_session_saved (meta : Metadata) (now_iso : string)
    (questions : list Question) (player : Player) (fs : FS) (d : Scoreboard)
    (hs : bool) :
  load_scoreboard fs (scoreboard_path meta) = Done d ->
  is_high_score player (get_scores d) = Done hs ->
  record_session meta now_iso questions player fs =
    match save_game_stats meta questions player
            (<[scoreboard_path meta :=
                 written_scoreboard meta now_iso player (get_scores d)]> fs) with
    | Done fs2 => (Done hs, fs2)
    | Raised e =>
        (Raised e,
         <[scoreboard_path meta :=
             written_scoreboard meta now_iso player (get_scores d)]> fs)
    | OutOfFuel =>
        (OutOfFuel,
         <[scoreboard_path meta :=
             written_scoreboard meta now_iso player (get_scores d)]> fs)
    end.
Proof.
  intros Hload Hhs. unfold record_session, show_game_over.
  rewrite Hload, Hhs, (save_score_loaded _ _ _ _ _ Hload). done.
Qed.

(** X10: When both stores can be read and are different files, recording
    appends the entry to the scoreboard and the session record to the
    stats, and reports the high-score test made before the append. *)
Theorem record_session_appends_both (meta : Metadata) (now_iso : string)
    (questions : list Question) (player : Player) (fs : FS) (d : Scoreboard)
    (hs : bool) (l : list row) :
  scoreboard_path meta <> stats_path meta ->
  load_scoreboard fs (scoreboard_path meta) = Done d ->
  is_high_score player (get_scores d) = Done hs ->
  load_stats fs (stats_path meta) = Done (JList l) ->
  record_session meta now_iso questions player fs =
    (Done hs,
     <[stats_path meta := written_stats questions player l]>
       (<[scoreboard_path meta :=
            written_scoreboard meta now_iso player (get_scores d)]> fs)).
Proof.
  intros Hne Hload Hhs Hstats.
  rewrite (record_session_saved _ _ _ _ _ _ _ Hload Hhs).
  rewrite (save_game_stats_loaded _ _ _ _ l); [done|].
  unfold load_stats in *. by rewrite lookup_insert_ne.
Qed.

Lemma record_session_appends_both_witness :
  record_session meta30 "t" [q_two] alice fs_legacy =
    (Done false,
     <[stats_path meta30 := written_stats [q_two] alice []]>
       (<[scoreboard_path meta30 :=
            written_scoreboard meta30 "t" alice [RScore (entry "bob" 2 41)]]>
          fs_legacy)).
Proof.
  apply (record_session_appends_both meta30 "t" [q_two] alice fs_legacy
           {| quiz_title := None; quiz_description := None; last_updated := None;
              scores := Some [RScore (entry "bob" 2 41)] |} false []).
  - discriminate.
  - reflexivity.
  - reflexivity.
  - reflexivity.
Defined.

(** X11: The two writes are independent: when the stats file is not JSON the
    scoreboard has already been rewritten with the new entry, the
    exception propagates, and the session record is lost. *)
Theorem record_session_keeps_score_when_stats_fail (meta : Metadata)
    (now_iso : string) (questions : list Question) (player : Player) (fs : FS)
    (d : Scoreboard) (hs : bool) :
  scoreboard_path meta <> stats_path meta ->
  load_scoreboard fs (scoreboard_path meta) = Done d ->
  is_high_score player (get_scores d) = Done hs ->
  fs !! stats_path meta = Some Corrupt ->
  exists fs',
    record_session meta now_iso questions player fs = (Raised JSONDecodeError, fs') /\
    (exists d', load_scoreboard fs' (scoreboard_path meta) = Done d' /\
                get_scores d' = get_scores d ++ [RScore (player_data player)]) /\
    fs' !! stats_path meta = Some Corrupt.
Proof.
  intros Hne Hload Hhs Hstats.
  rewrite (record_session_saved _ _ _ _ _ _ _ Hload Hhs).
  unfold save_game_stats, load_stats.
  rewrite lookup_insert_ne by done. rewrite Hstats.
  eexists. split; [done|]. split.
  - eexists. unfold load_scoreboard. rewrite lookup_insert_eq. done.
  - by rewrite lookup_insert_ne.
Qed.

Lemma record_session_keeps_score_when_stats_fail_witness :
  exists fs',
    record_session meta30 "t" [q_two] alice fs_stats_corrupt
      = (Raised JSONDecodeError, fs') /\
    (exists d', load_scoreboard fs' (scoreboard_path meta30) = Done d' /\
                get_scores d' = [] ++ [RScore (player_data alice)]) /\
    fs' !! stats_path meta30 = Some Corrupt.
Proof.
  apply (record_session_keeps_score_when_stats_fail meta30 "t" [q_two] alice
           fs_stats_corrupt
           {| quiz_title := None; quiz_description := None; last_updated := None;
              scores := Some [] |} true).
  - discriminate.
  - reflexivity.
  - reflexivity.
  - reflexivity.
Defined.

(** ** The high-score flag and the leaderboard *)

Lemma rank_lt_not_le (a b : ScoreEntry) : rank_lt a b -> ~ rank_le b a.
Proof.
  intros [H|[H1 H2]] [H'|[H1' H2']]; try lia. by apply Qlt_not_le in H2.
Qed.

Lemma rank_lt_le_trans (a b c : ScoreEntry) : rank_lt a b -> rank_le b c -> rank_lt a c.
Proof.
  intros [H|[H1 H2]] [H'|[H1' H2']]; unfold rank_lt; try (left; lia).
  right. split; [lia | by eapply Qlt_le_trans].
Qed.

Lemma not_rank_lt_le (a b : ScoreEntry) : ~ rank_lt a b -> rank_le b a.
Proof.
  intros H. apply key_lt_false_iff. apply not_true_iff_false.
  by rewrite key_lt_iff.
Qed.

Lemma sort_entries_nonempty (es : list ScoreEntry) :
  es <> [] -> exists best rest, sort_entries es = best :: rest.
Proof.
  intros Hne. destruct (sort_entries es) as [|b r] eqn:Hs; [|eauto].
  pose proof (sort_entries_perm es) as Hp. rewrite Hs in Hp.
  apply Permutation_nil_l in Hp. done.
Qed.

(** The test of [show_game_over] in terms of the order of the board. *)
Lemma is_high_score_rank (player : Player) (es : list ScoreEntry)
    (best : ScoreEntry) (rest : list ScoreEntry) :
  sort_entries es = best :: rest ->
  exists b,
    is_high_score player (map RScore es) = Done b /\
    (b = true <-> rank_lt (player_data player) best).
Proof.
  intros Hsort. destruct es as [|e0 es']; [done|].
  exists ((e_score best <? p_score player)
          || ((p_score player =? e_score best)
              && Qlt_bool (p_total_time player) (e_total_time best))).
  split.
  - unfold is_high_score. cbn [map]. rewrite <- (map_cons RScore).
    rewrite sorted_scores_entries, Hsort.
    destruct (e_score best <? p_score player); [done|]. simpl.
    by destruct (_ && _).
  - rewrite orb_true_iff, andb_true_iff, Z.ltb_lt, Z.eqb_eq, Qlt_bool_iff.
    unfold rank_lt. simpl. done.
Qed.

Lemma sorted_scores_snoc (es : list ScoreEntry) (x : ScoreEntry) :
  sorted_scores (map RScore es ++ [RScore x]) = Done (sort_entries (es ++ [x])).
Proof.
  change [RScore x] with (map RScore [x]).
  rewrite <- map_app. apply sorted_scores_entries.
Qed.

(** X13: When the game-over screen announces a new high score, the entry
    that [save_score] appends is the first row of the leaderboard. *)
Theorem high_score_takes_the_lead (player : Player) (es : list ScoreEntry) :
  is_high_score player (map RScore es) = Done true ->
  exists rest,
    sorted_scores (map RScore es ++ [RScore (player_data player)])
      = Done (player_data player :: rest) /\
    display_scoreboard_rows (map RScore es ++ [RScore (player_data player)])
      = Done (player_data player :: take 9 rest).
Proof.
  intros Hhs. set (new := player_data player).
  assert (forall e, e ∈ es -> rank_lt new e) as Hall.
  { destruct (decide (es = [])) as [->|Hne]; [intros e He; by apply elem_of_nil in He|].
    destruct (sort_entries_nonempty es Hne) as (best & rest & Hsort).
    destruct (is_high_score_rank player es best rest Hsort) as (b & Hb & Hiff).
    rewrite Hhs in Hb. injection Hb as <-.
    destruct (sort_entries_head es best rest Hsort) as [_ Hbest].
    intros e He. eapply rank_lt_le_trans; [by apply Hiff | by apply Hbest]. }
  destruct (sort_entries_nonempty (es ++ [new])) as (h & rest & Hsort).
  { by destruct es. }
  destruct (sort_entries_head _ h rest Hsort) as [Hin Hbest].
  assert (h = new) as ->.
  { apply elem_of_app in Hin as [Hin|Hin].
    - exfalso. apply (rank_lt_not_le new h (Hall h Hin)). apply Hbest. set_solver.
    - by apply list_elem_of_singleton in Hin. }
  exists rest. unfold display_scoreboard_rows, top_scores.
  rewrite sorted_scores_snoc, Hsort. done.
Qed.

Lemma high_score_takes_the_lead_witness :
  exists rest,
    sorted_scores (map RScore [entry "bob" 2 41; entry "carol" 0 9]
                   ++ [RScore (player_data
                         {| p_name := "dan"; p_email := ""; p_marketing_consent := false;
                            p_score := 2; p_total_time := 40; p_timestamp := "";
                            p_question_details := [] |})])
      = Done (player_data
                {| p_name := "dan"; p_email := ""; p_marketing_consent := false;
                   p_score := 2; p_total_time := 40; p_timestamp := "";
                   p_question_details := [] |} :: rest) /\
    display_scoreboard_rows
      (map RScore [entry "bob" 2 41; entry "carol" 0 9]
       ++ [RScore (player_data
             {| p_name := "dan"; p_email := ""; p_marketing_consent := false;
                p_score := 2; p_total_time := 40; p_timestamp := "";
                p_question_details := [] |})])
      = Done (player_data
                {| p_name := "dan"; p_email := ""; p_marketing_consent := false;
                   p_score := 2; p_total_time := 40; p_timestamp := "";
                   p_question_details := [] |} :: take 9 rest).
Proof.
  apply (high_score_takes_the_lead
           {| p_name := "dan"; p_email := ""; p_marketing_consent := false;
              p_score := 2; p_total_time := 40; p_timestamp := "";
              p_question_details := [] |}
           [entry "bob" 2 41; entry "carol" 0 9]).
  reflexivity.
Defined.

Lemma filter_same_key_head (k h : ScoreEntry) (l : list ScoreEntry) :
  same_key k h = true ->
  List.filter (same_key k) (h :: l) = h :: List.filter (same_key k) l.
Proof. intros H. simpl. by rewrite H. Qed.

(** X14: When the game-over screen announces no high score, the leader of
    the board stays the leader after [save_score] has appended the entry
    (also when the new entry ties with it). *)
Theorem no_high_score_keeps_the_lead (player : Player) (es : list ScoreEntry)
    (best : ScoreEntry) (rest : list ScoreEntry) :
  is_high_score player (map RScore es) = Done false ->
  sorted_scores (map RScore es) = Done (best :: rest) ->
  exists rest',
    sorted_scores (map RScore es ++ [RScore (player_data player)])
      = Done (best :: rest').
Proof.
  intros Hhs Hsorted. set (new := player_data player).
  rewrite sorted_scores_entries in Hsorted. injection Hsorted as Hsort.
  destruct (is_high_score_rank player es best rest Hsort) as (b & Hb & Hiff).
  rewrite Hhs in Hb. injection Hb as <-.
  assert (rank_le best new) as Hle.
  { apply not_rank_lt_le. intros Hlt. destruct Hiff as [_ Hiff].
    specialize (Hiff Hlt). discriminate Hiff. }
  destruct (sort_entries_head es best rest Hsort) as [Hin Hbest].
  assert (is_best best (es ++ [new])) as Hbest'.
  { split; [apply elem_of_app; by left|]. intros e He.
    apply elem_of_app in He as [He|He]; [by apply Hbest|].
    by apply list_elem_of_singleton in He as ->. }
  destruct (sort_entries_nonempty (es ++ [new])) as (h & rest' & Hsort').
  { by destruct es. }
  pose proof (sort_entries_head _ h rest' Hsort') as Hh.
  assert (same_key best h = true) as Hkey
    by (apply same_key_iff; by eapply is_best_same).
  assert (same_key best best = true) as Hrefl
    by (apply same_key_iff; split; [done | apply Qeq_refl]).
  pose proof (sort_entries_stable best (es ++ [new])) as Hst'.
  pose proof (sort_entries_stable best es) as Hst.
  rewrite Hsort' in Hst'. rewrite Hsort in Hst.
  rewrite filter_same_key_head in Hst' by done.
  rewrite filter_same_key_head in Hst by done.
  rewrite List.filter_app, <- Hst in Hst'. simpl in Hst'.
  injection Hst' as -> _.
  exists rest'. by rewrite sorted_scores_snoc, Hsort'.
Qed.

Lemma no_high_score_keeps_the_lead_witness :
  exists rest',
    sorted_scores (map RScore [entry "bob" 2 41; entry "carol" 0 9]
                   ++ [RScore (player_data
                         {| p_name := "eve"; p_email := ""; p_marketing_consent := false;
                            p_score := 2; p_total_time := 41; p_timestamp := "";
                            p_question_details := [] |})])
      = Done (entry "bob" 2 41 :: rest').
Proof.
  apply (no_high_score_keeps_the_lead
           {| p_name := "eve"; p_email := ""; p_marketing_consent := false;
              p_score := 2; p_total_time := 41; p_timestamp := "";
              p_question_details := [] |}
           [entry "bob" 2 41; entry "carol" 0 9]
           (entry "bob" 2 41) [entry "carol" 0 9]).
  - reflexivity.
  - reflexivity.
Defined.

Lemma is_high_score_done (player : Player) (es : list ScoreEntry) :
  exists b, is_high_score player (map RScore es) = Done b.
Proof.
  destruct (decide (es = [])) as [->|Hne]; [by exists true|].
  destruct (sort_entries_nonempty es Hne) as (best & rest & Hsort).
  destruct (is_high_score_rank player es best rest Hsort) as (b & Hb & _).
  by exists b.
Qed.

(** The rows of a stored list are score entries throughout, or the
    sort key raises [KeyError] on a row that is a stats record. *)
Lemma entries_of_result (l : list row) :
  (exists es, entries_of l = Done es /\ l = map RScore es) \/
  (entries_of l = Raised KeyError /\ exists g, RStats g ∈ l).
Proof.
  induction l as [|[e|g] l IH].
  - left. by exists [].
  - simpl. destruct IH as [(es & -> & ->)|(-> & g & Hg)].
    + left. by exists (e :: es).
    + right. split; [done|]. exists g. by apply list_elem_of_further.
  - right. split; [done|]. exists g. apply list_elem_of_here.
Qed.

(** The high-score test returns, unless the scores hold a stats record. *)
Lemma is_high_score_result (player : Player) (l : list row) :
  (exists hs, is_high_score player l = Done hs) \/
  (is_high_score player l = Raised KeyError /\ exists g, RStats g ∈ l).
Proof.
  destruct (entries_of_result l) as [(es & _ & ->)|(Hraise & Hg)].
  - left. apply is_high_score_done.
  - right. split; [|done]. unfold is_high_score, sorted_scores. rewrite Hraise.
    destruct l; [|done]. destruct Hg as [g Hg]. by apply elem_of_nil in Hg.
Qed.

(** X12: When the configuration names the same file for both stores,
    recording never succeeds.  If the file is missing or holds a
    scoreboard, [save_score] leaves an object in it, on which
    [save_game_stats] raises [AttributeError]; the file keeps the
    scoreboard document with the new entry.  If the file is not JSON the
    game-over screen raises [JSONDecodeError], and if its scores hold a
    stats record the sort key of the high-score test raises [KeyError];
    in both cases nothing is written. *)
Theorem record_session_same_file (meta : Metadata) (now_iso : string)
    (questions : list Question) (player : Player) (fs : FS) :
  scoreboard_path meta = stats_path meta ->
  (exists e fs',
     record_session meta now_iso questions player fs = (Raised e, fs') /\
     e ∈ [AttributeError; JSONDecodeError; KeyError]) /\
  (fs !! scoreboard_path meta = Some Corrupt ->
     record_session meta now_iso questions player fs = (Raised JSONDecodeError, fs)) /\
  (forall d g,
     load_scoreboard fs (scoreboard_path meta) = Done d ->
     RStats g ∈ get_scores d ->
     record_session meta now_iso questions player fs = (Raised KeyError, fs)) /\
  (forall d es,
     load_scoreboard fs (scoreboard_path meta) = Done d ->
     get_scores d = map RScore es ->
     record_session meta now_iso questions player fs =
       (Raised AttributeError,
        <[scoreboard_path meta :=
            written_scoreboard meta now_iso player (get_scores d)]> fs)).
Proof.
  intros Hsame.
  assert (forall d hs,
            load_scoreboard fs (scoreboard_path meta) = Done d ->
            is_high_score player (get_scores d) = Done hs ->
            record_session meta now_iso questions player fs =
              (Raised AttributeError,
               <[scoreboard_path meta :=
                   written_scoreboard meta now_iso player (get_scores d)]> fs))
    as Hobject.
  { intros d hs Hload Hhs.
    rewrite (record_session_saved _ _ _ _ _ _ _ Hload Hhs).
    unfold save_game_stats, load_stats. by rewrite <- Hsame, lookup_insert_eq. }
  assert (forall d,
            load_scoreboard fs (scoreboard_path meta) = Done d ->
            is_high_score player (get_scores d) = Raised KeyError ->
            record_session meta now_iso questions player fs = (Raised KeyError, fs))
    as Hkey.
  { intros d Hload Hhs. unfold record_session, show_game_over.
    by rewrite Hload, Hhs. }
  assert (fs !! scoreboard_path meta = Some Corrupt ->
          record_session meta now_iso questions player fs =
            (Raised JSONDecodeError, fs)) as Hcorrupt.
  { intros Hfile. apply record_session_raises. unfold load_scoreboard.
    by rewrite Hfile. }
  split_and!.
  - destruct (load_scoreboard fs (scoreboard_path meta)) as [d|e|] eqn:Hload.
    + destruct (is_high_score_result player (get_scores d)) as [[hs Hhs]|[Hhs _]].
      * eexists _, _. split; [exact (Hobject d hs eq_refl Hhs)|].
        apply list_elem_of_here.
      * eexists _, _. split; [exact (Hkey d eq_refl Hhs)|].
        do 2 apply list_elem_of_further. apply list_elem_of_here.
    + unfold load_scoreboard in Hload.
      destruct (fs !! scoreboard_path meta) as [[|[l|d]]|] eqn:Hfile; try done.
      eexists _, _. split; [exact (Hcorrupt eq_refl)|].
      apply list_elem_of_further, list_elem_of_here.
    + unfold load_scoreboard in Hload.
      by destruct (fs !! scoreboard_path meta) as [[|[l|d]]|].
  - exact Hcorrupt.
  - intros d g Hload Hg. apply (Hkey d Hload).
    destruct (is_high_score_result player (get_scores d)) as [[hs Hhs]|[Hhs _]];
      [|done].
    exfalso. unfold is_high_score, sorted_scores in Hhs.
    destruct (entries_of_result (get_scores d)) as [(es & _ & Hes)|(Hraise & _)].
    + rewrite Hes in Hg. apply list_elem_of_fmap in Hg as (e & He & _). done.
    + rewrite Hraise in Hhs. destruct (get_scores d); [|done].
      by apply elem_of_nil in Hg.
  - intros d es Hload Hes.
    destruct (is_high_score_done player es) as [hs Hhs].
    rewrite <- Hes in Hhs. by apply (Hobject d hs).
Qed.

Lemma record_session_same_file_witness :
  record_session meta_same_file "t" [q_two] alice ∅ =
    (Raised AttributeError,
     <[scoreboard_path meta_same_file :=
         written_scoreboard meta_same_file "t" alice []]> ∅) /\
  record_session meta_same_file "t" [q_two] alice {[ "data.json"%string := Corrupt ]} =
    (Raised JSONDecodeError, {[ "data.json"%string := Corrupt ]}) /\
  record_session meta_same_file "t" [q_two] alice
    {[ "data.json"%string := Json (JList [RStats (game_stats alice [q_two])]) ]} =
    (Raised KeyError,
     {[ "data.json"%string := Json (JList [RStats (game_stats alice [q_two])]) ]}).
Proof.
  split; [|split].
  - destruct (record_session_same_file meta_same_file "t" [q_two] alice ∅ eq_refl)
      as (_ & _ & _ & Hobject).
    apply (Hobject {| quiz_title := None; quiz_description := None;
                      last_updated := None; scores := Some [] |} []); reflexivity.
  - destruct (record_session_same_file meta_same_file "t" [q_two] alice
                {[ "data.json"%string := Corrupt ]} eq_refl)
      as (_ & Hcorrupt & _).
    apply Hcorrupt. reflexivity.
  - destruct (record_session_same_file meta_same_file "t" [q_two] alice
                {[ "data.json"%string := Json (JList [RStats (game_stats alice [q_two])]) ]}
                eq_refl)
      as (_ & _ & Hkey & _).
    apply (Hkey {| quiz_title := None; quiz_description := None;
                   last_updated := None;
                   scores := Some [RStats (game_stats alice [q_two])] |}
                (game_stats alice [q_two])).
    + reflexivity.
    + apply list_elem_of_here.
Defined.

(** ** Selection with a count that is not positive *)

(** X15: A negative [questions_per_game] makes the selection raise
    [ValueError] for every bank; a count of zero selects no question, and
    the session over no question ends at once with score 0 and total
    time 0, reading neither the clock nor the keyboard. *)
Theorem select_nonpositive_count (meta : Metadata) (rnd : nat -> nat)
    (bank : list Question) :
  (get_default (m_questions_per_game meta) 5 < 0 ->
     select_random_questions meta rnd bank = Raised ValueError) /\
  (get_default (m_questions_per_game meta) 5 = 0 ->
     select_random_questions meta rnd bank = Done [] /\
     forall fuel player w c,
       play_session fuel meta [] player w c =
         (Done {| p_name := p_name player; p_email := p_email player;
                  p_marketing_consent := p_marketing_consent player;
                  p_score := 0; p_total_time := 0%Q;
                  p_timestamp := p_timestamp player;
                  p_question_details := p_question_details player |}, c)).
Proof.
  unfold select_random_questions, random_sample.
  set (count := get_default (m_questions_per_game meta) 5).
  split; intros Hc.
  - assert ((len bank <=? count) = false) as -> by (apply Z.leb_gt; unfold len; lia).
    by assert ((count <? 0) = true) as -> by (apply Z.ltb_lt; lia).
  - rewrite Hc. split; [|done].
    destruct bank as [|q bank]; [done|].
    assert ((len (q :: bank) <=? 0) = false) as ->
      by (apply Z.leb_gt; unfold len; simpl length; lia).
    assert ((len (q :: bank) <? 0) = false) as ->
      by (apply Z.ltb_ge; unfold len; lia).
    done.
Qed.

Lemma select_nonpositive_count_witness :
  select_random_questions
    {| m_title := None; m_description := None; m_questions_per_game := Some (-1);
       m_time_per_question := None; m_scoreboard_file := None;
       m_stats_file := None |} (fun i => i) bank3 = Raised ValueError /\
  select_random_questions
    {| m_title := None; m_description := None; m_questions_per_game := Some 0;
       m_time_per_question := None; m_scoreboard_file := None;
       m_stats_file := None |} (fun i => i) bank3 = Done [].
Proof.
  split.
  - apply (select_nonpositive_count
             {| m_title := None; m_description := None;
                m_questions_per_game := Some (-1);
                m_time_per_question := None; m_scoreboard_file := None;
                m_stats_file := None |} (fun i => i) bank3).
    reflexivity.
  - apply (select_nonpositive_count
             {| m_title := None; m_description := None;
                m_questions_per_game := Some 0;
                m_time_per_question := None; m_scoreboard_file := None;
                m_stats_file := None |} (fun i => i) bank3).
    reflexivity.
Defined.

(** ** Loading the configuration *)

Lemma load_question_spec (qd : QuestionData) :
  (has_required_keys qd ->
     exists q, load_question qd = Done q /\ loaded_from qd q) /\
  (~ has_required_keys qd -> load_question qd = Raised KeyError).
Proof.
  unfold has_required_keys, load_question, loaded_from.
  destruct (qd_question qd) as [t|], (qd_options qd) as [o|],
           (qd_correct_answer qd) as [c|]; split; intros H;
    try (destruct H as (H1 & H2 & H3);
         first [ by apply is_Some_None in H1
               | by apply is_Some_None in H2
               | by apply is_Some_None in H3 ]);
    try done.
  - eexists. split; [done|]. simpl. done.
  - exfalso. apply H. eauto.
Qed.

Lemma load_questions_spec (data : list QuestionData) :
  (Forall has_required_keys data ->
     exists qs, load_questions data = Done qs /\ Forall2 loaded_from data qs) /\
  (~ Forall has_required_keys data -> load_questions data = Raised KeyError).
Proof.
  induction data as [|qd data [IHok IHbad]].
  - split; [intros _; by exists [] | intros H; by destruct H].
  - destruct (load_question_spec qd) as [Hok Hbad]. split.
    + intros Hall. apply Forall_cons in Hall as [Hqd Hall].
      destruct (Hok Hqd) as (q & Hq & Hfrom).
      destruct (IHok Hall) as (qs & Hqs & Hfroms).
      exists (q :: qs). simpl. rewrite Hq, Hqs. split; [done | by constructor].
    + intros Hnot. simpl.
      destruct (load_question qd) as [q| |] eqn:Hq.
      * rewrite IHbad; [done|]. intros Hall. apply Hnot. constructor; [|done].
        destruct (decide (is_Some (qd_question qd) /\ is_Some (qd_options qd)
                          /\ is_Some (qd_correct_answer qd))) as [Hkeys|Hkeys];
          [done|]. by specialize (Hbad Hkeys).
      * unfold load_question in Hq. by repeat case_match; simplify_eq.
      * unfold load_question in Hq. by repeat case_match.
Qed.

(** X16: [load_quiz_config] succeeds exactly on a JSON document with at least
    one question in which every question has the keys [question],
    [options] and [correct_answer]; the questions are then loaded in
    order, with id 0 and an empty explanation where those are absent.
    A question without a required key gives [KeyError], no question
    gives [ValueError], and text that is not JSON [JSONDecodeError].
    Nothing relates [correct_answer] to the options. *)
Theorem load_quiz_config_spec (config : Config) :
  load_quiz_config ConfigCorrupt = Raised JSONDecodeError /\
  (get_default (cfg_questions config) [] = [] ->
     load_quiz_config (ConfigJson config) = Raised ValueError) /\
  (~ Forall has_required_keys (get_default (cfg_questions config) []) ->
     load_quiz_config (ConfigJson config) = Raised KeyError) /\
  (get_default (cfg_questions config) [] <> [] ->
   Forall has_required_keys (get_default (cfg_questions config) []) ->
     exists qs,
       load_quiz_config (ConfigJson config) =
         Done (get_default (cfg_quiz_metadata config) empty_metadata, qs) /\
       Forall2 loaded_from (get_default (cfg_questions config) []) qs /\
       1 <= len qs).
Proof.
  unfold load_quiz_config.
  set (data := get_default (cfg_questions config) []).
  destruct (load_questions_spec data) as [Hok Hbad].
  split; [done|]. split; [|split].
  - intros ->. done.
  - intros Hnot. by rewrite (Hbad Hnot).
  - intros Hne Hall. destruct (Hok Hall) as (qs & Hqs & Hfrom).
    rewrite Hqs. destruct qs as [|q qs].
    + apply Forall2_nil_inv_r in Hfrom. done.
    + eexists. split; [done|]. split; [done|].
      unfold len. simpl length. lia.
Qed.

Lemma load_quiz_config_spec_witness :
  exists qs,
    load_quiz_config (ConfigJson config_bad_index) =
      Done (get_default (cfg_quiz_metadata config_bad_index) empty_metadata, qs) /\
    Forall2 loaded_from (get_default (cfg_questions config_bad_index) []) qs /\
    1 <= len qs.
Proof.
  apply (load_quiz_config_spec config_bad_index).
  - discriminate.
  - repeat constructor; simpl; eauto.
Defined.

(** ** Questions whose correct index is off *)

Lemma py_index_valid {A : Type} (l : list A) (i : Z) :
  (- len l <= i < len l -> exists x, py_index l i = Done x) /\
  (~ (- len l <= i < len l) -> py_index l i = Raised IndexError).
Proof.
  unfold py_index, len. split.
  - intros Hi. destruct (i <? 0) eqn:Hneg.
    + apply Z.ltb_lt in Hneg.
      assert ((i + Z.of_nat (length l) <? 0) = false) as -> by (apply Z.ltb_ge; lia).
      assert ((Z.of_nat (length l) <=? i + Z.of_nat (length l)) = false) as ->
        by (apply Z.leb_gt; lia).
      simpl. destruct (lookup_lt_is_Some_2 l (Z.to_nat (i + Z.of_nat (length l))))
        as [x Hx]; [lia|]. rewrite Hx. eauto.
    + apply Z.ltb_ge in Hneg. rewrite (proj2 (Z.ltb_ge _ _) Hneg).
      assert ((Z.of_nat (length l) <=? i) = false) as -> by (apply Z.leb_gt; lia).
      simpl. destruct (lookup_lt_is_Some_2 l (Z.to_nat i)) as [x Hx]; [lia|].
      rewrite Hx. eauto.
  - intros Hi. destruct (i <? 0) eqn:Hneg.
    + apply Z.ltb_lt in Hneg.
      assert ((i + Z.of_nat (length l) <? 0) = true) as -> by (apply Z.ltb_lt; lia).
      done.
    + apply Z.ltb_ge in Hneg. rewrite (proj2 (Z.ltb_ge _ _) Hneg).
      assert ((Z.of_nat (length l) <=? i) = true) as -> by (apply Z.leb_le; lia).
      done.
Qed.

(** X17: A question whose correct index is outside [-len(options),
    len(options))] is loaded like any other, but playing it raises
    [IndexError] once its loop has ended: no detail is recorded and the
    session stops. *)
Theorem bad_correct_index_raises (w : World) (q : Question) (tpq : Q)
    (fuel k : nat) (acc : Session) (c : Cursor) :
  ~ (- len (q_options q) <= q_correct q < len (q_options q)) ->
  (k < fuel)%nat ->
  reached w tpq (time_time w (n_time c)) (S (n_time c) + k) ->
  exists c', play_question fuel tpq q acc w c = (Raised IndexError, c').
Proof.
  intros Hbad Hf Hr.
  destruct (question_loop_terminates w q tpq (time_time w (n_time c)) k fuel
              init_state {| n_time := S (n_time c); n_key := n_key c |})
    as (s & c1 & Hrun & _); try done.
  rewrite (play_question_run _ _ _ acc _ _ _ _ Hrun).
  destruct (py_index_valid (q_options q) (q_correct q)) as [_ Hraise].
  rewrite (Hraise Hbad). eauto.
Qed.

Lemma bad_correct_index_raises_witness :
  exists c',
    play_question 5 30 q_bad_index new_session idle_world cursor0
      = (Raised IndexError, c').
Proof.
  apply (bad_correct_index_raises idle_world q_bad_index 30 5 1 new_session cursor0).
  - vm_compute. intros [_ H]. discriminate H.
  - lia.
  - reflexivity.
Defined.

Example load_accepts_bad_index :
  load_quiz_config (ConfigJson config_bad_index) = Done (empty_metadata, [q_bad_index]).
Proof. reflexivity. Qed.

(** X18: A negative correct index in [-len(options), -1] is accepted by the
    result screen (it counts from the end), but the answers the loop
    commits are never negative: such a question is never scored correct. *)
Theorem negative_correct_index_never_correct (fuel : nat) (tpq : Q) (q : Question)
    (acc acc' : Session) (w : World) (c c' : Cursor) :
  q_correct q < 0 ->
  play_question fuel tpq q acc w c = (Done acc', c') ->
  correct_answers acc' = correct_answers acc /\
  exists d, question_details acc' = question_details acc ++ [d] /\
            is_correct d = false.
Proof.
  intros Hneg Hplay.
  assert (1 <= len (q_options q)) as Hn.
  { destruct (q_options q) as [|o l] eqn:Hq.
    - exfalso. by eapply no_option_result_raises.
    - unfold len. simpl length. lia. }
  apply play_question_inv in Hplay as (s & c1 & Hrun & ->).
  assert (in_range q s) as [_ Hans].
  { eapply question_loop_in_range; [done| |exact Hrun].
    split; [simpl; lia | done]. }
  destruct (answer s) as [a|] eqn:Ha; simpl.
  - specialize (Hans a eq_refl).
    assert ((a =? q_correct q) = false) as -> by (apply Z.eqb_neq; lia).
    simpl. split; [done|]. by eexists.
  - split; [done|]. by eexists.
Qed.

Lemma negative_correct_index_never_correct_witness :
  exists acc',
    play_question 5 30 q_negative new_session typing_world cursor0 =
      (Done acc', {| n_time := 4; n_key := 2 |}) /\
    correct_answers acc' = correct_answers new_session /\
    exists d, question_details acc' = question_details new_session ++ [d] /\
              is_correct d = false.
Proof.
  eexists. split; [vm_compute; reflexivity|].
  apply (negative_correct_index_never_correct 5 30 q_negative new_session _
           typing_world cursor0 {| n_time := 4; n_key := 2 |}).
  - reflexivity.
  - vm_compute. reflexivity.
Defined.

(** ** Regular expression matching *)

Lemma in_lang_seq_inv (r1 r2 : regex) (s : list ascii) :
  in_lang (RSeq r1 r2) s ->
  exists s1 s2, s = s1 ++ s2 /\ in_lang r1 s1 /\ in_lang r2 s2.
Proof. intros H. inversion H; subst. eauto. Qed.

Lemma in_lang_alt_inv (r1 r2 : regex) (s : list ascii) :
  in_lang (RAlt r1 r2) s -> in_lang r1 s \/ in_lang r2 s.
Proof. intros H. inversion H; subst; eauto. Qed.

Lemma in_lang_char_inv (p : ascii -> bool) (s : list ascii) :
  in_lang (RChar p) s -> exists c, s = [c] /\ p c = true.
Proof. intros H. inversion H; subst. eauto. Qed.

Lemma in_lang_eps_inv (s : list ascii) : in_lang REps s -> s = [].
Proof. intros H. by inversion H. Qed.

Lemma in_lang_none_inv (s : list ascii) : ~ in_lang RNone s.
Proof. intros H. inversion H. Qed.

Lemma nullable_correct (r : regex) : nullable r = true <-> in_lang r [].
Proof.
  induction r as [| |p|r1 IH1 r2 IH2|r1 IH1 r2 IH2|r IH]; simpl.
  - split; [done | intros H; by apply in_lang_none_inv in H].
  - split; [intros _; constructor | done].
  - split; [done|]. intros H. by apply in_lang_char_inv in H as (c & ? & _).
  - rewrite andb_true_iff, IH1, IH2. split.
    + intros [H1 H2]. by apply (in_seq _ _ [] []).
    + intros H. apply in_lang_seq_inv in H as (s1 & s2 & Heq & H1 & H2).
      symmetry in Heq. apply app_eq_nil in Heq as [-> ->]. done.
  - rewrite orb_true_iff, IH1, IH2. split.
    + intros [H|H]; [by apply in_alt_l | by apply in_alt_r].
    + apply in_lang_alt_inv.
  - split; [intros _; constructor | done].
Qed.

(** A non-empty string of a starred expression starts with a non-empty
    string of the expression. *)
Lemma in_lang_star_cons (r : regex) (c : ascii) (s : list ascii) :
  in_lang (RStar r) (c :: s) ->
  exists s1 s2, s = s1 ++ s2 /\ in_lang r (c :: s1) /\ in_lang (RStar r) s2.
Proof.
  intros H. remember (RStar r) as r' eqn:Hr. remember (c :: s) as cs eqn:Hcs.
  revert c s Hcs.
  induction H as [ | | | | | |r0 s1 s2 H1 _ H2 IH2]; intros c0 s0 Hcs; try done.
  injection Hr as ->.
  destruct s1 as [|c1 s1].
  - simpl in Hcs. by apply IH2.
  - simpl in Hcs. injection Hcs as -> <-. eauto.
Qed.

Lemma deriv_correct (c : ascii) (r : regex) :
  forall s, in_lang (deriv c r) s <-> in_lang r (c :: s).
Proof.
  induction r as [| |p|r1 IH1 r2 IH2|r1 IH1 r2 IH2|r IH]; intros s; simpl.
  - split; intros H; by apply in_lang_none_inv in H.
  - split; intros H; [by apply in_lang_none_inv in H|].
    by apply in_lang_eps_inv in H.
  - destruct (p c) eqn:Hp; split; intros H.
    + apply in_lang_eps_inv in H as ->. by constructor.
    + apply in_lang_char_inv in H as (c' & [= -> ->] & _). constructor.
    + by apply in_lang_none_inv in H.
    + apply in_lang_char_inv in H as (c' & [= -> ->] & Hp'). congruence.
  - assert (in_lang (RSeq (deriv c r1) r2) s ->
            in_lang (RSeq r1 r2) (c :: s)) as Hleft.
    { intros H. apply in_lang_seq_inv in H as (s1 & s2 & -> & H1 & H2).
      apply IH1 in H1. by apply (in_seq _ _ (c :: s1) s2). }
    destruct (nullable r1) eqn:Hn; split; intros H.
    + apply in_lang_alt_inv in H as [H|H]; [by apply Hleft|].
      apply IH2 in H. apply nullable_correct in Hn.
      by apply (in_seq _ _ [] (c :: s)).
    + apply in_lang_seq_inv in H as (s1 & s2 & Heq & H1 & H2).
      destruct s1 as [|c1 s1]; simpl in Heq.
      * subst s2. apply in_alt_r. by apply IH2.
      * injection Heq as <- ->. apply in_alt_l. constructor; [by apply IH1 | done].
    + by apply Hleft.
    + apply in_lang_seq_inv in H as (s1 & s2 & Heq & H1 & H2).
      destruct s1 as [|c1 s1]; simpl in Heq.
      * apply nullable_correct in H1. congruence.
      * injection Heq as <- ->. constructor; [by apply IH1 | done].
  - split; intros H.
    + apply in_lang_alt_inv in H as [H|H];
        [apply in_alt_l; by apply IH1 | apply in_alt_r; by apply IH2].
    + apply in_lang_alt_inv in H as [H|H];
        [apply in_alt_l; by apply IH1 | apply in_alt_r; by apply IH2].
  - split; intros H.
    + apply in_lang_seq_inv in H as (s1 & s2 & -> & H1 & H2).
      apply IH in H1. by apply (in_star_app _ (c :: s1) s2).
    + apply in_lang_star_cons in H as (s1 & s2 & -> & H1 & H2).
      constructor; [by apply IH | done].
Qed.

(** The matcher decides membership in the language of the expression. *)
Lemma re_fullmatch_correct (s : list ascii) :
  forall r, re_fullmatch r s = true <-> in_lang r s.
Proof.
  induction s as [|c s IH]; intros r; simpl.
  - apply nullable_correct.
  - by rewrite IH, deriv_correct.
Qed.

Lemma in_lang_star_class (p : ascii -> bool) (s : list ascii) :
  in_lang (RStar (RChar p)) s <-> Forall (fun c => p c = true) s.
Proof.
  split.
  - intros H. remember (RStar (RChar p)) as r eqn:Hr.
    induction H as [ | | | | | |r0 s1 s2 H1 _ H2 IH2]; try done.
    injection Hr as ->. apply in_lang_char_inv in H1 as (c & -> & Hc).
    constructor; [done | by apply IH2].
  - induction 1 as [|c s Hc _ IH]; [constructor|].
    apply (in_star_app _ [c] s); [by constructor | done].
Qed.

Lemma in_lang_plus_class (p : ascii -> bool) (s : list ascii) :
  in_lang (RPlus (RChar p)) s <-> s <> [] /\ Forall (fun c => p c = true) s.
Proof.
  unfold RPlus. split.
  - intros H. apply in_lang_seq_inv in H as (s1 & s2 & -> & H1 & H2).
    apply in_lang_char_inv in H1 as (c & -> & Hc).
    apply in_lang_star_class in H2. split; [done | by constructor].
  - intros [Hne Hall]. destruct s as [|c s]; [done|].
    apply Forall_cons in Hall as [Hc Hall].
    apply (in_seq _ _ [c] s); [by constructor | by apply in_lang_star_class].
Qed.

Lemma in_lang_is_char (x : ascii) (s : list ascii) :
  in_lang (RChar (Ascii.eqb x)) s <-> s = [x].
Proof.
  split.
  - intros H. apply in_lang_char_inv in H as (c & -> & Hc).
    by apply Ascii.eqb_eq in Hc as ->.
  - intros ->. constructor. apply Ascii.eqb_refl.
Qed.

(** The language of the e-mail pattern, spelled out. *)
Lemma email_pattern_shape (s : list ascii) : in_lang email_pattern s <-> email_shape s.
Proof.
  unfold email_pattern, email_shape. split.
  - intros H.
    apply in_lang_seq_inv in H as (loc & s1 & -> & Hloc & H).
    apply in_lang_seq_inv in H as (at_ & s2 & -> & Hat & H).
    apply in_lang_seq_inv in H as (dom & s3 & -> & Hdom & H).
    apply in_lang_seq_inv in H as (dot & s4 & -> & Hdot & H).
    apply in_lang_seq_inv in H as (l1 & s5 & -> & Hl1 & H).
    apply in_lang_seq_inv in H as (l2 & l3 & -> & Hl2 & Hl3).
    apply in_lang_plus_class in Hloc as [Hloc1 Hloc2].
    apply in_lang_plus_class in Hdom as [Hdom1 Hdom2].
    apply in_lang_is_char in Hat as ->. apply in_lang_is_char in Hdot as ->.
    apply in_lang_char_inv in Hl1 as (c1 & -> & Hc1).
    apply in_lang_char_inv in Hl2 as (c2 & -> & Hc2).
    apply in_lang_star_class in Hl3.
    exists loc, dom, (c1 :: c2 :: l3). simpl.
    split; [done|]. split; [done|]. split; [done|]. split; [done|].
    split; [done|]. split; [lia|]. by repeat constructor.
  - intros (loc & dom & tld & -> & Hloc1 & Hloc2 & Hdom1 & Hdom2 & Hlen & Htld).
    destruct tld as [|c1 [|c2 l3]]; simpl in Hlen; [lia|lia|].
    apply Forall_cons in Htld as [Hc1 Htld].
    apply Forall_cons in Htld as [Hc2 Htld].
    constructor; [by apply in_lang_plus_class|].
    apply (in_seq _ _ ["@"%char]); [by apply in_lang_is_char|].
    constructor; [by apply in_lang_plus_class|].
    apply (in_seq _ _ ["."%char]); [by apply in_lang_is_char|].
    apply (in_seq _ _ [c1]); [by constructor|].
    apply (in_seq _ _ [c2]); [by constructor|].
    by apply in_lang_star_class.
Qed.

(** ** [validate_email] *)

Lemma re_match_anchored_correct (body : regex) (s : list ascii) :
  re_match_anchored body s = true <->
  in_lang body s \/ exists s', s = s' ++ ["010"%char] /\ in_lang body s'.
Proof.
  unfold re_match_anchored. rewrite orb_true_iff, re_fullmatch_correct.
  apply or_iff_compat_l.
  destruct (rev s) as [|c before] eqn:Hrev.
  - split; [done|]. intros (s' & -> & _).
    rewrite rev_unit in Hrev. done.
  - assert (s = rev before ++ [c]) as Hs.
    { rewrite <- (rev_involutive s), Hrev. done. }
    rewrite andb_true_iff, Ascii.eqb_eq, re_fullmatch_correct. split.
    + intros [-> H]. eauto.
    + intros (s' & Hs' & H). rewrite Hs' in Hs.
      apply app_inj_tail in Hs as [-> <-]. done.
Qed.

Lemma email_match_shape (s : list ascii) :
  re_match_anchored email_pattern s = true <->
  email_shape s \/ exists s', s = s' ++ ["010"%char] /\ email_shape s'.
Proof.
  rewrite re_match_anchored_correct, email_pattern_shape.
  apply or_iff_compat_l. split; intros (s' & Hs & H); exists s';
    (split; [done | by apply email_pattern_shape]).
Qed.

Lemma validate_email_match (email : string) :
  fst (validate_email email) = true <->
  re_match_anchored email_pattern (chars email) = true.
Proof.
  unfold validate_email. destruct (String.eqb email "") eqn:He.
  - apply String.eqb_eq in He as ->. done.
  - by destruct (re_match_anchored email_pattern (chars email)).
Qed.

(** X19: [validate_email] accepts exactly the addresses of the form
    [local@domain.tld] (local part: letters, digits and [._%+-]; domain:
    letters, digits, [.] and [-]; last label: two letters or more), and
    such an address followed by one newline. *)
Theorem validate_email_accepts (email : string) :
  (fst (validate_email email) = true <->
   email_shape (chars email) \/
   exists s, chars email = s ++ ["010"%char] /\ email_shape s) /\
  (fst (validate_email email) = true -> validate_email email = (true, ""%string)).
Proof.
  split; [by rewrite validate_email_match, email_match_shape|].
  unfold validate_email. destruct (String.eqb email ""); [done|].
  by destruct (re_match_anchored _ _).
Qed.

Example validate_email_plain : validate_email "a.b+c@mail.example.org" = (true, ""%string).
Proof. reflexivity. Qed.

Example validate_email_short_tld :
  validate_email "a@b.c" = (false, "Invalid email format"%string).
Proof. reflexivity. Qed.

Example validate_email_two_ats :
  validate_email "a@b@c.de" = (false, "Invalid email format"%string).
Proof. reflexivity. Qed.

Example validate_email_dots : validate_email ".@-.aa" = (true, ""%string).
Proof. reflexivity. Qed.

(** No character of the three classes of the pattern is an [@] or a
    whitespace character. *)
Lemma pattern_chars_plain (c : ascii) :
  local_char c = true \/ domain_char c = true \/ is_letter c = true ->
  c <> "@"%char /\ is_space c = false.
Proof.
  destruct c as [b0 b1 b2 b3 b4 b5 b6 b7].
  destruct b0, b1, b2, b3, b4, b5, b6, b7; vm_compute;
    intros [H|[H|H]]; first [discriminate H | split; [discriminate | reflexivity]].
Qed.

Lemma count_occ_none (l : list ascii) :
  Forall (fun c => c <> "@"%char) l -> count_occ ascii_dec l "@"%char = 0%nat.
Proof.
  induction 1 as [|c l Hc _ IH]; [done|]. simpl.
  destruct (ascii_dec c "@"); [done | exact IH].
Qed.

(** X20: An accepted address has exactly one [@], at least six characters,
    and no whitespace apart from a newline that may end it. *)
Theorem accepted_email_facts (email : string) :
  fst (validate_email email) = true ->
  exists s,
    (chars email = s \/ chars email = s ++ ["010"%char]) /\
    count_occ ascii_dec s "@"%char = 1%nat /\
    (6 <= length s)%nat /\
    Forall (fun c => is_space c = false) s.
Proof.
  intros Hacc.
  assert (exists s, (chars email = s \/ chars email = s ++ ["010"%char])
                    /\ email_shape s) as (s & Hs & Hshape).
  { apply validate_email_match, email_match_shape in Hacc as [H|(s & Hs & H)];
      eauto. }
  exists s. split; [done|].
  destruct Hshape as (loc & dom & tld & -> & Hl1 & Hl2 & Hd1 & Hd2 & Hlen & Ht).
  assert (forall l, Forall (fun c => local_char c = true) l \/
                    Forall (fun c => domain_char c = true) l \/
                    Forall (fun c => is_letter c = true) l ->
                    Forall (fun c => c <> "@"%char) l /\
                    Forall (fun c => is_space c = false) l) as Hplain.
  { intros l [H|[H|H]]; split; eapply Forall_impl; try exact H;
      intros c Hc; apply pattern_chars_plain; auto. }
  destruct (Hplain loc) as [Ha1 Hs1]; [auto|].
  destruct (Hplain dom) as [Ha2 Hs2]; [auto|].
  destruct (Hplain tld) as [Ha3 Hs3]; [auto|].
  split; [|split].
  - rewrite count_occ_app. simpl. rewrite count_occ_app. simpl.
    rewrite !count_occ_none by done. done.
  - rewrite length_app. simpl. rewrite length_app. simpl.
    destruct loc; [done|]. destruct dom; [done|]. simpl. lia.
  - apply Forall_app. split; [done|]. constructor; [done|].
    apply Forall_app. split; [done|]. by constructor.
Qed.

Lemma accepted_email_facts_witness :
  exists s,
    (chars "a@b.co" = s \/ chars "a@b.co" = s ++ ["010"%char]) /\
    count_occ ascii_dec s "@"%char = 1%nat /\
    (6 <= length s)%nat /\
    Forall (fun c => is_space c = false) s.
Proof. apply (accepted_email_facts "a@b.co"). reflexivity. Defined.

(** ** [strip] and [get_input] *)

Lemma lstrip_head (l : list ascii) (c : ascii) (l' : list ascii) :
  lstrip l = c :: l' -> is_space c = false.
Proof.
  induction l as [|a l IH]; [done|]. simpl.
  destruct (is_space a) eqn:Ha; [done|]. by intros [= <- _].
Qed.

Lemma lstrip_suffix (l : list ascii) : exists pre, l = pre ++ lstrip l.
Proof.
  induction l as [|a l [pre IH]]; [by exists []|]. simpl.
  destruct (is_space a); [|by exists []].
  exists (a :: pre). simpl. by rewrite <- IH.
Qed.

Lemma chars_py_strip (s : string) :
  chars (py_strip s) = rev (lstrip (rev (lstrip (chars s)))).
Proof. unfold py_strip, chars. apply String.list_ascii_of_string_of_list_ascii. Qed.

(** A stripped string neither starts nor ends with whitespace. *)
Lemma py_strip_ends (s : string) :
  (forall c l, chars (py_strip s) = c :: l -> is_space c = false) /\
  (forall c l, chars (py_strip s) = l ++ [c] -> is_space c = false).
Proof.
  rewrite chars_py_strip. set (L := lstrip (chars s)). split; intros c l H.
  - destruct (lstrip_suffix (rev L)) as [pre Hpre].
    assert (L = rev (lstrip (rev L)) ++ rev pre) as HL.
    { rewrite <- (rev_involutive L) at 1. rewrite Hpre at 1.
      by rewrite rev_app_distr. }
    rewrite H in HL. simpl in HL. by apply lstrip_head in HL.
  - assert (lstrip (rev L) = c :: rev l) as Hl.
    { rewrite <- (rev_involutive (lstrip (rev L))), H. by rewrite rev_unit. }
    by apply lstrip_head in Hl.
Qed.

Lemma chars_length (s : string) : length (chars s) = String.length s.
Proof. induction s as [|a s IH]; [done|]. simpl. by rewrite IH. Qed.

Lemma get_input_accepted (v : string -> bool * string) (lines : nat -> option string)
    (fuel : nat) :
  forall i x j,
    get_input fuel (Some v) lines i = Done (x, j) ->
    fst (v x) = true /\ exists m, x = input_at lines m /\ j = S m /\ (i <= m)%nat.
Proof.
  induction fuel as [|fuel IH]; intros i x j Hrun; [done|].
  simpl in Hrun. destruct (fst (v (input_at lines i))) eqn:Hv.
  - injection Hrun as <- <-. split; [done|]. exists i. done.
  - apply IH in Hrun as (Hok & m & -> & -> & Hm). split; [done|].
    exists m. split; [done|]. split; [done|]. lia.
Qed.

(** X21: [get_input] returns the first input, stripped, that the validator
    accepts, after reading exactly the lines up to it. *)
Theorem get_input_first_accepted (v : string -> bool * string)
    (lines : nat -> option string) (k : nat) :
  forall fuel i,
    (k < fuel)%nat ->
    fst (v (input_at lines (i + k))) = true ->
    (forall j, (j < k)%nat -> fst (v (input_at lines (i + j))) = false) ->
    get_input fuel (Some v) lines i = Done (input_at lines (i + k), S (i + k)).
Proof.
  induction k as [|k IH]; intros fuel i Hf Hok Hbad.
  - destruct fuel as [|fuel]; [lia|]. simpl.
    rewrite Nat.add_0_r in Hok. rewrite Hok. by rewrite Nat.add_0_r.
  - destruct fuel as [|fuel]; [lia|]. simpl.
    rewrite <- (Nat.add_0_r i) at 1. rewrite (Hbad 0%nat) by lia.
    rewrite (IH fuel (S i)).
    + by rewrite <- Nat.add_succ_comm.
    + lia.
    + by rewrite Nat.add_succ_comm.
    + intros j Hj. rewrite Nat.add_succ_comm. apply Hbad. lia.
Qed.

Lemma get_input_first_accepted_witness :
  get_input 5 (Some validate_name) typed_lines 0 = Done (input_at typed_lines (0 + 1), 2%nat) /\
  input_at typed_lines 1 = "alice"%string.
Proof.
  split; [|reflexivity].
  apply (get_input_first_accepted validate_name typed_lines 1 5 0).
  - lia.
  - reflexivity.
  - intros j Hj. assert (j = 0%nat) as -> by lia. reflexivity.
Defined.

(** ** [get_consent] *)

Lemma keys_from_S (w : World) (k0 n : nat) :
  keys_from w k0 (S n) = getch w k0 :: keys_from w (S k0) n.
Proof.
  unfold keys_from. simpl. rewrite Nat.add_0_r. f_equal.
  rewrite <- seq_shift, map_map. apply map_ext. intros i. f_equal. lia.
Qed.

Lemma get_consent_step (w : World) (fuel : nat) (selected : Z) (c : Cursor) :
  getch w (n_key c) <> ord_newline ->
  get_consent (S fuel) selected w c =
    get_consent fuel (final_choice selected [getch w (n_key c)]) w
      {| n_time := n_time c; n_key := S (n_key c) |}.
Proof.
  intros Hkey. simpl. unfold bind, read_key. simpl.
  unfold final_choice, is_no_key, is_yes_key, key_in, existsb. simpl.
  set (key := getch w (n_key c)) in *.
  assert ((key =? ord_newline) = false) as Hnl by (by apply Z.eqb_neq).
  unfold KEY_LEFT, KEY_RIGHT, ord_n, ord_N, ord_y, ord_Y, ord_newline in *.
  rewrite Hnl.
  repeat case_match; try done; exfalso; key_facts; lia.
Qed.

Lemma get_consent_run (w : World) (n : nat) :
  forall fuel selected c,
    (n < fuel)%nat ->
    getch w (n_key c + n) = ord_newline ->
    Forall (fun key => key <> ord_newline) (keys_from w (n_key c) n) ->
    get_consent fuel selected w c =
      (Done (final_choice selected (keys_from w (n_key c) n) =? 1),
       {| n_time := n_time c; n_key := n_key c + S n |}).
Proof.
  induction n as [|n IH]; intros fuel selected c Hf Hnl Hkeys.
  - destruct fuel as [|fuel]; [lia|]. rewrite Nat.add_0_r in Hnl.
    simpl. unfold bind, read_key, ret. simpl. rewrite Hnl. simpl.
    by rewrite Nat.add_1_r.
  - destruct fuel as [|fuel]; [lia|].
    rewrite keys_from_S in Hkeys |- *. apply Forall_cons in Hkeys as [Hk Hkeys].
    rewrite get_consent_step by done.
    rewrite (IH fuel); cbn [n_key n_time].
    + unfold final_choice. cbn [fold_left]. do 2 f_equal. lia.
    + lia.
    + by rewrite <- Nat.add_succ_comm in Hnl.
    + done.
Qed.

Lemma yes_key_not_no (key : Z) : is_yes_key key = true -> is_no_key key = false.
Proof.
  unfold is_yes_key, is_no_key, KEY_LEFT, KEY_RIGHT, ord_n, ord_N, ord_y, ord_Y.
  intros H. apply not_true_iff_false. intros H'. key_facts; lia.
Qed.

Lemma final_choice_snoc (selected : Z) (keys : list Z) (key : Z) :
  final_choice selected (keys ++ [key]) =
    if is_no_key key then 0
    else if is_yes_key key then 1 else final_choice selected keys.
Proof. unfold final_choice. by rewrite fold_left_app. Qed.

(** Starting from NO, YES is highlighted at the end exactly when some
    key selects YES and no later key selects NO. *)
Lemma final_choice_yes (keys : list Z) :
  final_choice 0 keys = 1 <->
  exists pre key post,
    keys = pre ++ key :: post /\ is_yes_key key = true /\
    Forall (fun k => is_no_key k = false) post.
Proof.
  induction keys as [|x keys IH] using rev_ind.
  - split; [done|]. intros (pre & key & post & H & _). by destruct pre.
  - rewrite final_choice_snoc.
    destruct (is_no_key x) eqn:Hno; [|destruct (is_yes_key x) eqn:Hyes].
    + split; [done|]. intros (pre & key & post & Heq & Hk & Hpost). exfalso.
      destruct post as [|p post _] using rev_ind.
      * apply app_inj_tail in Heq as [_ ->].
        apply yes_key_not_no in Hk. congruence.
      * rewrite app_comm_cons, app_assoc in Heq.
        apply app_inj_tail in Heq as [_ ->].
        apply Forall_app in Hpost as [_ Hp]. apply Forall_cons in Hp as [Hp _].
        congruence.
    + split; [|done]. intros _. exists keys, x, []. by repeat split.
    + rewrite IH. split.
      * intros (pre & key & post & -> & Hk & Hpost).
        exists pre, key, (post ++ [x]). rewrite <- app_assoc. simpl.
        split; [done|]. split; [done|]. apply Forall_app. by repeat constructor.
      * intros (pre & key & post & Heq & Hk & Hpost).
        destruct post as [|p post _] using rev_ind.
        -- apply app_inj_tail in Heq as [_ ->]. congruence.
        -- rewrite app_comm_cons, app_assoc in Heq.
           apply app_inj_tail in Heq as [-> ->].
           apply Forall_app in Hpost as [Hpost _].
           exists pre, key, post. done.
Qed.

(** X22: [get_consent] reads keys up to the first ENTER and returns True
    exactly when, among the keys before it, some key selects YES (right
    arrow, y, Y) and no later key selects NO (left arrow, n, N): the
    default is NO and the last choice wins. *)
Theorem consent_last_choice (w : World) (c : Cursor) (n fuel : nat) :
  (n < fuel)%nat ->
  getch w (n_key c + n) = ord_newline ->
  Forall (fun key => key <> ord_newline) (keys_from w (n_key c) n) ->
  exists b,
    get_consent fuel 0 w c =
      (Done b, {| n_time := n_time c; n_key := n_key c + S n |}) /\
    (b = true <->
     exists pre key post,
       keys_from w (n_key c) n = pre ++ key :: post /\
       is_yes_key key = true /\
       Forall (fun k => is_no_key k = false) post).
Proof.
  intros Hf Hnl Hkeys. eexists. split; [by apply get_consent_run|].
  by rewrite Z.eqb_eq, final_choice_yes.
Qed.

Lemma consent_last_choice_witness :
  exists b,
    get_consent 10 0 consent_world cursor0 =
      (Done b, {| n_time := n_time cursor0; n_key := n_key cursor0 + 4 |}) /\
    (b = true <->
     exists pre key post,
       keys_from consent_world (n_key cursor0) 3 = pre ++ key :: post /\
       is_yes_key key = true /\
       Forall (fun k => is_no_key k = false) post).
Proof.
  apply (consent_last_choice consent_world cursor0 3 10).
  - lia.
  - reflexivity.
  - repeat constructor; discriminate.
Defined.

Example consent_given : get_consent 10 0 consent_world cursor0
                        = (Done true, {| n_time := 0; n_key := 4 |}).
Proof. reflexivity. Qed.

Example consent_default_no : get_consent 10 0 hasty_world cursor0
                             = (Done false, {| n_time := 0; n_key := 1 |}).
Proof. reflexivity. Qed.

(** ** [register_player] *)

Lemma get_consent_clock (w : World) (fuel : nat) :
  forall selected c r c',
    get_consent fuel selected w c = (r, c') -> n_time c' = n_time c.
Proof.
  induction fuel as [|fuel IH]; intros selected c r c' Hrun.
  - by injection Hrun as _ <-.
  - simpl in Hrun. unfold bind, read_key, ret in Hrun. simpl in Hrun.
    repeat case_match; try (apply IH in Hrun; by rewrite Hrun).
    by injection Hrun as _ <-.
Qed.

Lemma stripped_input_no_final_newline (lines : nat -> option string) (m : nat)
    (s : list ascii) :
  chars (input_at lines m) <> s ++ ["010"%char].
Proof.
  unfold input_at. destruct (lines m) as [raw|]; intros H.
  - destruct (py_strip_ends raw) as [_ Hlast].
    by specialize (Hlast _ _ H).
  - by destruct s.
Qed.

(** X23: A player returned by [register_player] has a name of at least two
    characters and an address of the form [local@domain.tld] with no
    newline after it; the score and total time are 0, no detail is
    recorded yet, and registration never reads the clock. *)
Theorem registered_player_valid (fuel : nat) (lines : nat -> option string)
    (timestamp : string) (i j : nat) (w : World) (c c' : Cursor) (player : Player) :
  register_player fuel lines timestamp i w c = (Done (player, j), c') ->
  (2 <= String.length (p_name player))%nat /\
  email_shape (chars (p_email player)) /\
  p_score player = 0 /\
  p_total_time player = 0%Q /\
  p_question_details player = [] /\
  p_timestamp player = timestamp /\
  n_time c' = n_time c.
Proof.
  unfold register_player, bind, lift, ret. intros Hrun.
  destruct (get_input fuel (Some validate_name) lines i)
    as [[name i1]| |] eqn:Hname; try done.
  simpl in Hrun.
  destruct (get_input fuel (Some validate_email) lines i1)
    as [[email i2]| |] eqn:Hemail; try done.
  simpl in Hrun.
  destruct (get_consent fuel 0 w c) as [[b| |] c1] eqn:Hconsent; try done.
  injection Hrun as <- _ <-. simpl.
  apply get_input_accepted in Hname as [Hn _].
  apply get_input_accepted in Hemail as (He & m & -> & _).
  split.
  { unfold validate_name in Hn.
    destruct (2 <=? String.length name)%nat eqn:Hlen; [|done].
    by apply Nat.leb_le in Hlen. }
  split.
  { apply validate_email_match, email_match_shape in He as [H|(s & Hs & _)];
      [done|]. by apply stripped_input_no_final_newline in Hs. }
  do 4 (split; [done|]). by eapply get_consent_clock.
Qed.

Lemma registered_player_valid_witness :
  register_player 5 typed_lines "2024-01-01T00:00:00" 0 consent_world cursor0 =
    (Done (new_player "alice" "alice@example.org" true "2024-01-01T00:00:00", 4%nat),
     {| n_time := 0; n_key := 4 |}) /\
  (2 <= String.length "alice")%nat /\
  email_shape (chars "alice@example.org").
Proof.
  assert (register_player 5 typed_lines "2024-01-01T00:00:00" 0 consent_world cursor0 =
    (Done (new_player "alice" "alice@example.org" true "2024-01-01T00:00:00", 4%nat),
     {| n_time := 0; n_key := 4 |})) as Hrun by reflexivity.
  split; [exact Hrun|].
  destruct (registered_player_valid _ _ _ _ _ _ _ _ _ Hrun) as (H1 & H2 & _).
  split; [exact H1 | exact H2].
Defined.

(** ** [wrap_text] *)

Lemma string_length_app (s1 s2 : string) :
  String.length (s1 ++ s2) = (String.length s1 + String.length s2)%nat.
Proof. induction s1 as [|a s1 IH]; [done|]. simpl. by rewrite IH. Qed.

(** The length of a joined line: the characters of its words and one
    space between neighbours. *)
Lemma slen_join_snoc (g : list string) (w : string) :
  g <> [] -> slen (join_space (g ++ [w])) = slen (join_space g) + 1 + slen w.
Proof.
  unfold slen, join_space. induction g as [|a g IH]; [done|]. intros _.
  destruct g as [|b g].
  - change (String.concat " " ([a] ++ [w])) with (a ++ " " ++ w)%string.
    change (String.concat " " [a]) with a.
    rewrite !string_length_app. change (String.length " ") with 1%nat. lia.
  - specialize (IH ltac:(done)).
    change (String.concat " " ((a :: b :: g) ++ [w]))
      with (a ++ " " ++ String.concat " " ((b :: g) ++ [w]))%string.
    change (String.concat " " (a :: b :: g))
      with (a ++ " " ++ String.concat " " (b :: g))%string.
    rewrite !string_length_app. change (String.length " ") with 1%nat. lia.
Qed.

Lemma wrap_loop_groups (width : Z) (words : list string) :
  forall lines current_line current_length,
    (current_line <> [] -> current_length = slen (join_space current_line)
                                            - (len current_line - 1)) ->
    (current_line = [] -> current_length = 0) ->
    (current_line <> [] -> line_ok width current_line) ->
    exists groups,
      wrap_loop width words lines current_line current_length =
        lines ++ map join_space groups /\
      concat groups = current_line ++ words /\
      Forall (fun g => g <> []) groups /\
      Forall (line_ok width) groups.
Proof.
  induction words as [|word rest IH]; intros lines cur clen Hlen Hzero Hok.
  - simpl. destruct cur as [|w0 cur].
    + exists []. simpl. by rewrite app_nil_r.
    + exists [w0 :: cur]. simpl. rewrite !app_nil_r.
      split; [done|]. split; [done|].
      split; constructor; [done|constructor|by apply Hok|constructor].
  - cbn [wrap_loop]. destruct (clen + slen word + len cur <=? width) eqn:Hfit.
    + apply Z.leb_le in Hfit.
      assert (slen (join_space (cur ++ [word])) = clen + slen word + len cur) as Hj.
      { destruct cur as [|w0 cur].
        - rewrite (Hzero eq_refl). change (join_space ([] ++ [word])) with word.
          unfold len. simpl. lia.
        - rewrite slen_join_snoc, (Hlen ltac:(done)) by done. lia. }
      destruct (IH lines (cur ++ [word]) (clen + slen word))
        as (groups & Hrun & Hcat & Hne & Hall).
      * intros _. rewrite Hj. unfold len. rewrite length_app. simpl. lia.
      * intros H. by destruct cur.
      * intros _. left. lia.
      * exists groups. rewrite <- app_assoc in Hcat. done.
    + destruct (IH (flush_line lines cur) [word] (slen word))
        as (groups & Hrun & Hcat & Hne & Hall).
      * intros _. unfold len, join_space. simpl. lia.
      * done.
      * intros _. right. by exists word.
      * destruct cur as [|w0 cur]; cbn [flush_line] in Hrun |- *.
        -- exists groups. done.
        -- exists ((w0 :: cur) :: groups). rewrite Hrun, <- app_assoc.
           split; [done|]. split; [simpl; by rewrite Hcat|].
           split; constructor; try done. by apply Hok.
Qed.

(** X24: [wrap_text] cuts the words of the text into lines without losing,
    repeating or reordering a word; no line is empty, and a line is
    longer than the width only when it is a single word. *)
Theorem wrap_text_lines (text : string) (width : Z) :
  exists groups,
    wrap_text text width = map join_space groups /\
    concat groups = py_split text /\
    Forall (fun g => g <> []) groups /\
    Forall (fun g => slen (join_space g) <= width \/ exists w, g = [w]) groups.
Proof.
  destruct (wrap_loop_groups width (py_split text) [] [] 0)
    as (groups & Hrun & Hcat & Hne & Hall); try done.
  by exists groups.
Qed.

Example wrap_text_example :
  wrap_text "the quick  brown fox jumps" 9 = ["the quick"; "brown fox"; "jumps"]%string.
Proof. reflexivity. Qed.

Example wrap_text_long_word :
  wrap_text "a extraordinarily b" 5 = ["a"; "extraordinarily"; "b"]%string.
Proof. reflexivity. Qed.

Example wrap_text_blank : wrap_text "   " 10 = [].
Proof. reflexivity. Qed.

(** ** [center_text] *)

(** X25: When [center_text] draws, the text starts on the screen and ends
    within its width, with margins that differ by at most one column; a
    text wider than the screen, or a line outside it, is not drawn. *)
Theorem center_text_fits (h w y : Z) (text : string) :
  (forall y' x, center_text h w y text = Some (y', x) ->
     y' = y /\ 0 <= y < h /\ 0 <= x /\ x + slen text <= w /\
     0 <= (w - (x + slen text)) - x <= 1) /\
  (w < slen text \/ y < 0 \/ h <= y -> center_text h w y text = None).
Proof.
  unfold center_text. set (n := slen text).
  pose proof (Z.div_mod (w - n) 2 ltac:(lia)) as Hdm.
  pose proof (Z.mod_pos_bound (w - n) 2 ltac:(lia)) as Hmod.
  split.
  - intros y' x. destruct (_ && _) eqn:Hc; [|done]. intros [= <- <-].
    key_facts. repeat match goal with
                      | H : (_ <=? _) = true |- _ => apply Z.leb_le in H
                      end.
    lia.
  - intros Hout. destruct (_ && _) eqn:Hc; [|done]. exfalso.
    key_facts. repeat match goal with
                      | H : (_ <=? _) = true |- _ => apply Z.leb_le in H
                      end.
    lia.
Qed.

Lemma center_text_fits_witness :
  center_text 24 80 3 "QLIZ" = Some (3, 38) /\
  center_text 24 3 3 "QLIZ" = None.
Proof.
  destruct (center_text_fits 24 3 3 "QLIZ") as [_ Hnone].
  split; [reflexivity|]. apply Hnone. left. reflexivity.
Defined.

(** ** [draw_timer_bar] *)

Lemma py_int_floor (x : Q) : (0 <= x)%Q -> py_int x = Qfloor x.
Proof.
  destruct x as [n d]. unfold Qle, py_int, Qfloor. simpl. intros H.
  apply Z.quot_div_nonneg; lia.
Qed.

(** X26: For a time limit above zero and an elapsed time that is not
    negative, the bar has exactly [width] cells, the full ones first;
    at the start it is all full and green, and once the limit has passed
    it is all shade and red with 0 seconds shown. *)
Theorem timer_bar_cells (width : Z) (elapsed timeout : Q) :
  0 <= width -> (0 < timeout)%Q -> (0 <= elapsed)%Q ->
  exists filled color secs,
    draw_timer_bar width elapsed timeout =
      Done (cells Full filled ++ cells Shade (width - filled), color, secs) /\
    0 <= filled <= width /\
    len (cells Full filled ++ cells Shade (width - filled)) = width /\
    ((elapsed == 0)%Q -> filled = width /\ color = 4) /\
    ((timeout <= elapsed)%Q -> filled = 0 /\ color = 5 /\ secs = 0).
Proof.
  intros Hw Ht He. unfold draw_timer_bar.
  assert (Qeq_bool timeout 0 = false) as ->.
  { apply not_true_iff_false. rewrite Qeq_bool_iff. lra. }
  set (remaining := if Qlt_bool 0 (timeout - elapsed)
                    then (timeout - elapsed)%Q else 0%Q).
  assert (0 <= remaining /\ remaining <= timeout)%Q as [Hr0 Hr1].
  { unfold remaining. destruct (Qlt_bool 0 (timeout - elapsed)) eqn:Hd.
    - apply Qlt_bool_iff in Hd. lra.
    - lra. }
  set (percentage := (remaining / timeout)%Q).
  assert (0 <= percentage /\ percentage <= 1)%Q as [Hp0 Hp1].
  { unfold percentage. split.
    - apply Qle_shift_div_l; [done | lra].
    - apply Qle_shift_div_r; [done | lra]. }
  set (x := (inject_Z width * percentage)%Q).
  assert (inject_Z 0 <= inject_Z width)%Q as Hwq by (rewrite <- Zle_Qle; lia).
  change (inject_Z 0) with 0%Q in Hwq.
  assert (0 <= x /\ x <= inject_Z width)%Q as [Hx0 Hx1].
  { unfold x. split; [by apply Qmult_le_0_compat|]. nra. }
  assert (py_int x = Qfloor x) as Hfl by (by apply py_int_floor).
  assert (0 <= Qfloor x <= width) as Hfilled.
  { split.
    - apply (Qfloor_resp_le 0 x Hx0).
    - rewrite <- (Qfloor_Z width). by apply Qfloor_resp_le. }
  eexists _, _, _. split; [done|]. rewrite Hfl.
  split; [done|]. split.
  { unfold len, cells. rewrite length_app, !repeat_length. lia. }
  split.
  - intros He0.
    assert (remaining == timeout)%Q as Hrem.
    { unfold remaining. destruct (Qlt_bool 0 (timeout - elapsed)) eqn:Hd; [lra|].
      apply not_true_iff_false in Hd. rewrite Qlt_bool_iff in Hd. lra. }
    assert (percentage == 1)%Q as Hp.
    { unfold percentage. rewrite Hrem. field. lra. }
    split.
    + assert (x == inject_Z width)%Q as Hx by (unfold x; rewrite Hp; ring).
      rewrite (Qfloor_comp _ _ Hx). apply Qfloor_Z.
    + assert (Qlt_bool (1 # 2) percentage = true) as ->; [|done].
      apply Qlt_bool_iff. lra.
  - intros Hout.
    assert (remaining = 0%Q) as Hrem.
    { unfold remaining. destruct (Qlt_bool 0 (timeout - elapsed)) eqn:Hd; [|done].
      apply Qlt_bool_iff in Hd. lra. }
    assert (percentage == 0)%Q as Hp.
    { unfold percentage. rewrite Hrem. field. lra. }
    split; [|split].
    + assert (x == 0)%Q as Hx by (unfold x; rewrite Hp; ring).
      by rewrite (Qfloor_comp _ _ Hx).
    + assert (Qlt_bool (1 # 2) percentage = false) as ->.
      { apply not_true_iff_false. rewrite Qlt_bool_iff. lra. }
      assert (Qlt_bool (1 # 4) percentage = false) as ->; [|done].
      apply not_true_iff_false. rewrite Qlt_bool_iff. lra.
    + by rewrite Hrem.
Qed.

Lemma timer_bar_cells_witness :
  exists filled color secs,
    draw_timer_bar 10 12 30 =
      Done (cells Full filled ++ cells Shade (10 - filled), color, secs) /\
    0 <= filled <= 10 /\
    len (cells Full filled ++ cells Shade (10 - filled)) = 10 /\
    ((12 == 0)%Q -> filled = 10 /\ color = 4) /\
    ((30 <= 12)%Q -> filled = 0 /\ color = 5 /\ secs = 0).
Proof.
  apply (timer_bar_cells 10 12 30).
  - lia.
  - reflexivity.
  - discriminate.
Defined.

Example timer_bar_example :
  draw_timer_bar 10 12 30 = Done (cells Full 6 ++ cells Shade 4, 4, 18).
Proof. reflexivity. Qed.

Example timer_bar_last_quarter :
  draw_timer_bar 10 24 30 = Done (cells Full 2 ++ cells Shade 8, 5, 6).
Proof. reflexivity. Qed.

(** ** A whole game *)

Lemma wait_for_space_run (w : World) (m : nat) :
  forall fuel c,
    (m < fuel)%nat ->
    getch w (n_key c + m) = ord_space ->
    exists c', wait_for_space fuel w c = (Done tt, c') /\ n_time c' = n_time c.
Proof.
  induction m as [|m IH]; intros fuel c Hf Hsp.
  - destruct fuel as [|fuel]; [lia|]. rewrite Nat.add_0_r in Hsp.
    simpl. unfold bind, read_key, ret. simpl. rewrite Hsp. simpl. eauto.
  - destruct fuel as [|fuel]; [lia|].
    simpl. unfold bind, read_key, ret. simpl.
    destruct (getch w (n_key c) =? ord_space); [eauto|].
    destruct (IH fuel {| n_time := n_time c; n_key := S (n_key c) |})
      as (c' & Hrun & Ht); [lia | by rewrite <- Nat.add_succ_comm in Hsp |].
    eauto.
Qed.

(** The cursor after the ready screen, when the first space bar is the
    key number [m]. *)
Lemma wait_for_space_first (w : World) (m : nat) :
  forall fuel c,
    (m < fuel)%nat ->
    getch w (n_key c + m) = ord_space ->
    (forall i, (i < m)%nat -> getch w (n_key c + i) <> ord_space) ->
    wait_for_space fuel w c =
      (Done tt, {| n_time := n_time c; n_key := S (n_key c + m) |}).
Proof.
  induction m as [|m IH]; intros fuel c Hf Hsp Hnot.
  - destruct fuel as [|fuel]; [lia|]. rewrite Nat.add_0_r in Hsp |- *.
    simpl. unfold bind, read_key, ret. simpl. by rewrite Hsp.
  - destruct fuel as [|fuel]; [lia|].
    simpl. unfold bind, read_key, ret. simpl.
    pose proof (Hnot 0%nat ltac:(lia)) as H0. rewrite Nat.add_0_r in H0.
    rewrite (proj2 (Z.eqb_neq _ _) H0).
    rewrite (IH fuel {| n_time := n_time c; n_key := S (n_key c) |}).
    + simpl. by rewrite Nat.add_succ_r.
    + lia.
    + simpl. by rewrite <- Nat.add_succ_r.
    + intros i Hi. simpl. rewrite <- Nat.add_succ_r. apply Hnot. lia.
Qed.

(** The questions selected are questions of the bank, each taken once. *)
Lemma select_random_questions_full_sub (fuel : nat) (meta : Metadata)
    (rnd : nat -> nat) (bank qs : list Question) :
  select_random_questions_full fuel meta rnd bank = Done qs -> qs ⊆+ bank.
Proof.
  unfold select_random_questions_full, sample.
  destruct (_ <=? _); [by intros [= <-]|].
  destruct (_ || _) eqn:Hrange; [done|].
  apply orb_false_iff in Hrange as [Hneg Hbig].
  apply Z.ltb_ge in Hneg, Hbig. unfold len in *.
  destruct (_ <=? _).
  - intros [= <-].
    destruct (sample_pool_spec rnd (Z.to_nat (questions_per_game meta)) 0 bank
                (length bank)) as [_ Hsub]; [lia | lia |].
    by rewrite take_ge in Hsub by lia.
  - intros Hrun.
    destruct (sample_set_spec _ _ _ _ _ _ _ Hrun) as (js & _ & Hpick & Hnd & _).
    by eapply picked_submseteq.
Qed.

(** The selection returns: always from a bank within the reach of the
    pool algorithm, and from a larger one when every position keeps
    coming up among the draws. *)
Lemma select_random_questions_full_returns (fuel : nat) (meta : Metadata)
    (rnd : nat -> nat) (bank : list Question) :
  0 <= questions_per_game meta ->
  len bank <= questions_per_game meta \/
  len bank <= setsize (questions_per_game meta) \/
  draws_cover rnd (length bank) fuel ->
  exists qs, select_random_questions_full fuel meta rnd bank = Done qs.
Proof.
  intros Hcount Hcase. unfold select_random_questions_full, sample.
  destruct (len bank <=? questions_per_game meta) eqn:Hle; [by eauto|].
  apply Z.leb_gt in Hle. unfold len in *.
  rewrite (proj2 (Z.ltb_ge _ _)), (proj2 (Z.ltb_ge _ _)) by lia. simpl.
  destruct (_ <=? _) eqn:Hsmall; [by eauto|].
  apply Z.leb_gt in Hsmall.
  destruct Hcase as [?|[?|Hcover]]; [lia | lia |].
  apply sample_set_terminates; [done|]. rewrite size_empty. lia.
Qed.

Lemma game_world_clock_advances : clock_advances game_world 30 40.
Proof.
  intros i. exists 29%nat. split; [lia|].
  unfold reached. apply Qle_bool_iff. simpl time_time.
  unfold Qle, Qminus, Qplus, Qopp, inject_Z. simpl Qnum. simpl Qden. lia.
Qed.

(** X27: A whole game.  Let the bank hold valid questions, the count be
    not negative, the time limit be positive, the clock keep advancing,
    the first space bar on the ready screen be the key number [m], the
    two stores be readable and distinct, and the selection be within
    the reach of the pool algorithm or every position keep coming up
    among the draws.  Then [play_game] ends normally whatever else is
    typed: the selection returns questions [qs] of the bank; the session
    over [qs] returns the player with one detail per question of [qs],
    in order, the score being the number of correct details and the
    identity unchanged; the result is the high-score test on the scores
    read; the scoreboard is rewritten with this player's entry appended
    and the stats with the record of this session over [qs]; and one
    more key is read, by the game-over screen. *)
Theorem play_game_records (fuel m : nat) (screen_w : Z) (meta : Metadata)
    (rnd : nat -> nat) (bank : list Question) (now_iso : string)
    (player : Player) (fs : FS) (w : World) (c : Cursor)
    (es : list ScoreEntry) (d : Scoreboard) (l : list row) :
  0 <= questions_per_game meta ->
  len bank <= questions_per_game meta \/
  len bank <= setsize (questions_per_game meta) \/
  draws_cover rnd (length bank) fuel ->
  Forall valid_question bank ->
  (0 < get_default (m_time_per_question meta) 30)%Q ->
  clock_advances w (get_default (m_time_per_question meta) 30%Q) fuel ->
  (m < fuel)%nat ->
  getch w (n_key c + m) = ord_space ->
  (forall i, (i < m)%nat -> getch w (n_key c + i) <> ord_space) ->
  p_question_details player = [] ->
  scoreboard_path meta <> stats_path meta ->
  load_scoreboard fs (scoreboard_path meta) = Done d ->
  get_scores d = map RScore es ->
  load_stats fs (stats_path meta) = Done (JList l) ->
  exists qs hs player' c2,
    select_random_questions_full fuel meta rnd bank = Done qs /\
    play_session_drawn fuel screen_w meta qs player w
      {| n_time := n_time c; n_key := S (n_key c + m) |} = (Done player', c2) /\
    is_high_score player' (get_scores d) = Done hs /\
    play_game fuel screen_w meta rnd bank now_iso player fs w c =
      (Done hs,
       <[stats_path meta := written_stats qs player' l]>
         (<[scoreboard_path meta :=
              written_scoreboard meta now_iso player' (get_scores d)]> fs),
       {| n_time := n_time c2; n_key := S (n_key c2) |}) /\
    qs ⊆+ bank /\
    Forall2 detail_for qs (p_question_details player') /\
    p_score player' = count_correct (p_question_details player') /\
    p_name player' = p_name player /\
    p_email player' = p_email player /\
    p_marketing_consent player' = p_marketing_consent player /\
    p_timestamp player' = p_timestamp player.
Proof.
  intros Hcount Hcase Hvalid Hlimit Hclock Hf Hsp Hfirst Hnew Hne Hload Hes Hstats.
  destruct (select_random_questions_full_returns fuel meta rnd bank Hcount Hcase)
    as [qs Hsel].
  pose proof (select_random_questions_full_sub _ _ _ _ _ Hsel) as Hsub.
  pose proof (wait_for_space_first w m fuel c Hf Hsp Hfirst) as Hwait.
  assert (Forall valid_question qs) as Hvq.
  { rewrite Forall_forall in Hvalid |- *. intros q Hq. apply Hvalid.
    by eapply elem_of_submseteq. }
  assert (~ (get_default (m_time_per_question meta) 30 == 0)%Q) as Hpos
    by (intros Hz; rewrite Hz in Hlimit; by apply Qlt_irrefl in Hlimit).
  destruct (play_session_completes fuel meta w qs player
              {| n_time := n_time c; n_key := S (n_key c + m) |} Hclock Hvq)
    as (player' & c2 & Hplay).
  assert (Forall2 detail_for qs (p_question_details player') /\
          p_score player' = count_correct (p_question_details player') /\
          p_name player' = p_name player /\
          p_email player' = p_email player /\
          p_marketing_consent player' = p_marketing_consent player /\
          p_timestamp player' = p_timestamp player) as Hplayer.
  { unfold play_session, bind, ret in Hplay.
    destruct (play_questions _ _ _ _ _ _) as [[acc| |] c3] eqn:Hqs; try done.
    injection Hplay as <- <-. simpl.
    destruct (play_questions_details _ _ _ _ _ _ _ _ Hqs) as (ds & Hds & Hall & _).
    destruct (play_questions_totals _ _ _ _ _ _ _ _ Hqs)
      as (ds' & Hds' & _ & Hcs & _).
    simpl in Hds, Hds', Hcs. rewrite Hnew in Hds, Hds'. simpl in Hds, Hds'.
    assert (ds' = ds) as -> by congruence.
    rewrite Hds. split; [done|]. split; [lia | done]. }
  rewrite <- (play_session_drawn_eq w screen_w) in Hplay by done.
  destruct (is_high_score_done player' es) as [hs Hhs].
  rewrite <- Hes in Hhs.
  exists qs, hs, player', c2.
  split; [done|]. split; [done|]. split; [done|]. split; [|by split].
  unfold play_game. rewrite Hsel, Hwait, Hplay.
  unfold show_game_over_screen, bind, lift, read_key, ret, show_game_over.
  rewrite Hload, Hhs. simpl.
  rewrite (save_score_loaded _ _ _ _ _ Hload).
  rewrite (save_game_stats_loaded _ _ _ _ l)
    by (unfold load_stats in *; by rewrite lookup_insert_ne).
  done.
Qed.

(** The player starts the game, moves down and confirms on the first
    question, and lets the second one time out. *)
Lemma play_game_records_witness :
  exists qs hs player' c2,
    select_random_questions_full 40 meta30 (fun i => (7 * i + 1)%nat) bank3
      = Done qs /\
    play_session_drawn 40 80 meta30 qs alice game_world
      {| n_time := 0; n_key := 1 |} = (Done player', c2) /\
    is_high_score player' [] = Done hs /\
    play_game 40 80 meta30 (fun i => (7 * i + 1)%nat) bank3 "t" alice ∅
      game_world cursor0 =
      (Done hs,
       <[stats_path meta30 := written_stats qs player' []]>
         (<[scoreboard_path meta30 := written_scoreboard meta30 "t" player' []]> ∅),
       {| n_time := n_time c2; n_key := S (n_key c2) |}) /\
    qs ⊆+ bank3 /\
    Forall2 detail_for qs (p_question_details player') /\
    p_score player' = count_correct (p_question_details player') /\
    p_name player' = "alice"%string /\
    p_email player' = "alice@example.org"%string /\
    p_marketing_consent player' = false /\
    p_timestamp player' = "2024-01-01T00:00:00"%string.
Proof.
  apply (play_game_records 40 0 80 meta30 (fun i => (7 * i + 1)%nat) bank3
           "t" alice ∅ game_world cursor0 []
           {| quiz_title := None; quiz_description := None; last_updated := None;
              scores := Some [] |} []).
  - vm_compute. discriminate.
  - right. left. vm_compute. discriminate.
  - repeat constructor; eexists; reflexivity.
  - reflexivity.
  - exact game_world_clock_advances.
  - lia.
  - reflexivity.
  - intros i Hi. lia.
  - reflexivity.
  - discriminate.
  - reflexivity.
  - reflexivity.
  - reflexivity.
Defined.

(** The run of the witness: one question answered correctly, one timed
    out, and the game-over screen reads the key number 32. *)
Example play_game_run :
  exists fs',
    play_game 40 80 meta30 (fun i => (7 * i + 1)%nat) bank3 "t" alice ∅
      game_world cursor0 = (Done true, fs', {| n_time := 36; n_key := 33 |}) /\
    (exists d', load_scoreboard fs' (scoreboard_path meta30) = Done d' /\
                (fun e => (e_name e, e_score e)) <$>
                  (match entries_of (get_scores d') with Done l => l | _ => [] end)
                = [("alice"%string, 1)]).
Proof.
  eexists. split; [vm_compute; reflexivity|].
  eexists. split; [vm_compute; reflexivity|]. vm_compute. reflexivity.
Qed.

Lemma validate_email_accepts_witness :
  email_shape (chars "a@b.co") \/
  exists s, chars "a@b.co" = s ++ ["010"%char] /\ email_shape s.
Proof.
  destruct (validate_email_accepts "a@b.co") as [[H _] _].
  apply H. reflexivity.
Defined.
